(** * SPLATT (splatt-perm): the tensor-completion command and Tucker sizing

    A shallow embedding of [src/cmds/cmd_completion.c] and of the sizing
    helper of [src/tucker.c].  Unsigned index arithmetic ([idx_t]) is carried
    out on [Z] with the wrap-around written out; C arrays are lists read with
    [!!] and updated with [<[ _ := _ ]>]; [val_t] and [double] are binary64
    floats. *)

From Stdlib Require Import ZArith Lia List Bool Ascii String Uint63 PrimFloat QArith.
From Stdlib Require FloatAxioms SpecFloat.
From stdpp Require Import base list strings.

Local Open Scope Z_scope.

(** ** Fixed-width unsigned indices *)

Section Idx.

(** [SPLATT_IDX_TYPEWIDTH]: the number of bits of [idx_t].  The typedef
      lives in a header that is not part of the modelled files, so the width
      is a parameter of the development. *)
Variable idx_bits : positive.

Definition idx_modulus : Z := 2 ^ Z.pos idx_bits.

(** Conversion of a mathematical result to [idx_t]. *)
Definition idx_wrap (z : Z) : Z := z mod idx_modulus.

Definition is_idx (z : Z) : Prop := 0 <= z < idx_modulus.

(** [a[m]] on an [idx_t] array. *)
Definition idx_at (a : list Z) (m : nat) : Z := default 0 (a !! m).

End Idx.

(** [SS_MAX(x,y)], the usual two-way maximum macro. *)
Definition SS_MAX (x y : Z) : Z := if x >? y then x else y.

(** ** tucker.c *)

Section Tucker.

Variable idx_bits : positive.

(** The inner loop of [__max_tensize]:
      [ncols = 1; for(m2 = 0; m2 < nmodes; ++m2) { if(m == m2) continue;
      ncols *= nfactors[m2]; }] *)
Definition max_tensize_ncols (nmodes : nat) (nfactors : list Z) (m : nat) : Z :=
    fold_left
      (fun ncols m2 =>
         if Nat.eqb m m2 then ncols else idx_wrap idx_bits (ncols * idx_at nfactors m2))
      (seq 0 nmodes) 1.

(** [__max_tensize(nmodes, nfactors, tdims)] *)
Definition __max_tensize (nmodes : Z) (nfactors tdims : list Z) : Z :=
    fold_left
      (fun maxdim m =>
         let nrows := idx_at tdims m in
         let ncols := max_tensize_ncols (Z.to_nat nmodes) nfactors m in
         SS_MAX maxdim (idx_wrap idx_bits (nrows * ncols)))
      (seq 0 (Z.to_nat nmodes)) 0.

End Tucker.

(** The documented meaning of [__max_tensize], over unbounded integers: the
    largest, over the modes [m], of [tdims[m]] times the product of the
    [nfactors] of all other modes. *)
Definition prod_others (nfactors : list Z) (m : nat) : Z :=
  fold_right Z.mul 1 (take m nfactors ++ drop (S m) nfactors).

Definition ttm_size (nfactors tdims : list Z) (m : nat) : Z :=
  idx_at tdims m * prod_others nfactors m.

Definition max_of (l : list Z) : Z := fold_right Z.max 0 l.

Definition max_ttm_size (nmodes : Z) (nfactors tdims : list Z) : Z :=
  max_of (map (ttm_size nfactors tdims) (seq 0 (Z.to_nat nmodes))).

Definition max_ttm_size_wrapped (idx_bits : positive)
    (nmodes : Z) (nfactors tdims : list Z) : Z :=
  max_of (map (fun m => idx_wrap idx_bits (ttm_size nfactors tdims m))
              (seq 0 (Z.to_nat nmodes))).

(** ** The C library functions the command uses

    Text is a [string] of 8-bit characters; a [char *] into a buffer is the
    suffix that starts at the pointer. *)

Definition char_code (c : ascii) : Z := Z.of_N (N_of_ascii c).

(** [isspace] in the C locale: space, and the controls [\t \n \v \f \r]. *)
Definition isspace (c : ascii) : bool :=
  (char_code c =? 32) || ((9 <=? char_code c) && (char_code c <=? 13)).

Definition isdigit (c : ascii) : bool :=
  (48 <=? char_code c) && (char_code c <=? 57).

Fixpoint skip_spaces (s : string) : string :=
  match s with
  | String c s' => if isspace c then skip_spaces s' else s
  | EmptyString => s
  end.

(** The decimal digits at the head of [s], accumulated into [acc]; [any]
    records whether a digit was consumed. *)
Fixpoint scan_digits (s : string) (acc : Z) (any : bool) : Z * bool * string :=
  match s with
  | String c s' =>
      if isdigit c then scan_digits s' (10 * acc + (char_code c - 48)) true
      else (acc, any, s)
  | EmptyString => (acc, any, s)
  end.

(** An optional sign: [(negative, rest)]. *)
Definition scan_sign (s : string) : bool * string :=
  match s with
  | String c s' =>
      if char_code c =? 45 then (true, s')
      else if char_code c =? 43 then (false, s')
      else (false, s)
  | EmptyString => (false, s)
  end.

Definition ULLONG_MAX : Z := 2 ^ 64 - 1.
Definition LONG_MAX : Z := 2 ^ 63 - 1.
Definition LONG_MIN : Z := - 2 ^ 63.

(** [strtoull(nptr, &endptr, 10)]: the value and the end pointer.  Without a
    digit the value is 0 and the end pointer is [nptr]; a value above
    [ULLONG_MAX] saturates; a minus sign negates in unsigned arithmetic. *)
Definition strtoull (nptr : string) : Z * string :=
  let '(neg, s1) := scan_sign (skip_spaces nptr) in
  let '(v, any, rest) := scan_digits s1 0 false in
  if any then
    ((if ULLONG_MAX <? v then ULLONG_MAX
      else if neg then (- v) mod 2 ^ 64 else v), rest)
  else (0, nptr).

(** [strtol(nptr, NULL, 10)] on a 64-bit [long]. *)
Definition strtol (nptr : string) : Z :=
  let '(neg, s1) := scan_sign (skip_spaces nptr) in
  let '(v, any, _) := scan_digits s1 0 false in
  if any then
    (if neg then (if - v <? LONG_MIN then LONG_MIN else - v)
     else (if LONG_MAX <? v then LONG_MAX else v))
  else 0.

(** Conversion to a 32-bit [int]. *)
Definition to_int (z : Z) : Z := (z + 2 ^ 31) mod 2 ^ 32 - 2 ^ 31.

(** Conversion to [unsigned int]. *)
Definition to_uint (z : Z) : Z := z mod 2 ^ 32.

(** [atoi(nptr)], which is [(int) strtol(nptr, NULL, 10)]. *)
Definition atoi (nptr : string) : Z := to_int (strtol nptr).

Definition newline : string := String (ascii_of_nat 10) EmptyString.

(** [strcmp(a, b) == 0] *)
Definition streq (a b : string) : bool := String.eqb a b.

(** The delimiters of [strtok(_, " \t")]. *)
Definition is_delim (c : ascii) : bool :=
  (char_code c =? 32) || (char_code c =? 9).

Fixpoint skip_delims (s : string) : string :=
  match s with
  | String c s' => if is_delim c then skip_delims s' else s
  | EmptyString => s
  end.

(** What follows the token at the head of [s]: the text after the token's
    terminating delimiter, or nothing when the token runs to the end. *)
Fixpoint after_token (s : string) : string :=
  match s with
  | String c s' => if is_delim c then s' else after_token s'
  | EmptyString => s
  end.

(** One call of [strtok]: [None] when no token is left, else the text the
    next call [strtok(NULL, _)] resumes from. *)
Definition strtok (s : string) : option string :=
  match skip_delims s with
  | EmptyString => None
  | String c s' => Some (after_token (String c s'))
  end.

(** [ptr = strtok(line, " \t"); while(ptr != NULL) { ++nmodes;
    ptr = strtok(NULL, " \t"); }]: how often the body runs.  A text of [n]
    characters has at most [n] tokens, which bounds the iteration. *)
Fixpoint count_tokens_from (fuel : nat) (s : string) : Z :=
  match fuel with
  | O => 0
  | S fuel' =>
      match strtok s with
      | None => 0
      | Some rest => 1 + count_tokens_from fuel' rest
      end
  end.

Definition count_tokens (line : string) : Z :=
  count_tokens_from (S (String.length line)) line.

(** ** Files

    A text file is the list of the lines [getline] returns from it, in
    order, each with its newline when it has one. *)
Definition file := list string.

(** [read > 1 && line[0] != '#']: the line is neither empty nor a comment. *)
Definition is_data_line (line : string) : bool :=
  (1 <? Z.of_nat (String.length line)) &&
  match line with
  | String c _ => negb (char_code c =? 35)
  | EmptyString => true
  end.

(** ** cmd_completion.c: types *)

(** [val_t] and [double]. *)
Definition val_t := float.

(** [splatt_tc_type], with its end marker [SPLATT_TC_NALGS]. *)
Inductive splatt_tc_type :=
| SPLATT_TC_GD
| SPLATT_TC_NLCG
| SPLATT_TC_LBFGS
| SPLATT_TC_SGD
| SPLATT_TC_ALS
| SPLATT_TC_CCD
| SPLATT_TC_NALGS.

#[export] Instance splatt_tc_type_eq_dec : EqDecision splatt_tc_type.
Proof. solve_decision. Defined.

(** What [splatt_tc_cmd] hands back to its caller. *)
Inductive return_code := EXIT_SUCCESS | SPLATT_ERROR_BADINPUT.

(** [sptensor_t]: the coordinate-format tensor. *)
Record sptensor_t := {
  tt_nmodes : Z;
  tt_nnz : Z;
  tt_dims : list Z;
  tt_ind : list (list Z);
  tt_vals : list val_t
}.

(** [rank_info]: what a worker knows of the decomposition. *)
Inductive splatt_decomp_type :=
| SPLATT_DECOMP_COARSE
| SPLATT_DECOMP_MEDIUM
| SPLATT_DECOMP_FINE.

Record rank_info := {
  ri_rank : Z;
  ri_npes : Z;
  ri_decomp : splatt_decomp_type;
  ri_dims_3d : list Z;
  ri_layer_starts : list Z;
  ri_layer_ends : list Z
}.

(** [tc_model]: the factor matrices. *)
Record tc_model := {
  model_rank : Z;
  model_nmodes : Z;
  model_dims : list Z;
  model_factors : list (list val_t)
}.

(** [tc_ws]: the fields of the workspace the command reads or writes. *)
Record tc_ws := {
  ws_learn_rate : val_t;
  ws_regularization : list val_t;
  ws_max_its : Z;
  ws_max_seconds : float;
  ws_tolerance : val_t;
  ws_rand_per_iteration : bool;
  ws_hogwild : bool;
  ws_folds : Z;
  ws_nthreads : Z;
  ws_best_model : option tc_model;
  ws_best_rmse : val_t;
  ws_best_epoch : Z;
  ws_rinfo : option rank_info;
  ws_global_validate_nnz : Z
}.

(** [tc_cmd_args] *)
Record tc_cmd_args := {
  ifnames : list (option string);
  nfiles : Z;
  set_seed : bool;
  seed : Z;
  which_alg : splatt_tc_type;
  write : bool;
  learn_rate : val_t;
  reg : val_t;
  set_tolerance : bool;
  tolerance : val_t;
  max_its : Z;
  set_timeout : bool;
  max_seconds : float;
  nfactors : Z;
  nthreads : Z;
  rand_per_iteration : bool;
  hogwild : bool;
  folds : Z
}.

(** ** What a run does

    The observable actions of the process, in order. *)
Inductive event :=
| EvStderr (msg : string)
| EvUsage
| EvHeader
| EvOmpSetThreads (n : Z)
| EvVerbose
| EvSrand (s : Z)
| EvStats (nnz : Z)
| EvConfig (ws : tc_ws) (a : tc_cmd_args)
| EvAlg (alg : splatt_tc_type)
| EvTrain (alg : splatt_tc_type)
| EvValidation (nnz : Z) (rmse mae : val_t) (epoch : Z)
| EvTest (nnz : Z) (rmse mae : val_t)
| EvMatWrite (mode : Z) (I J : Z) (vals : list val_t).

(** How the process ends: [splatt_tc_cmd] returns; [argp_usage] ends the
    process; or the program leaves defined behaviour (a null pointer is
    dereferenced, an array is accessed outside its bounds). *)
Inductive ending :=
| Returned (code : return_code)
| UsageExit
| Fault.

(** Computations that act and may end the process. *)
Definition M (A : Type) : Type := list event -> list event * (A + ending).

Definition ret {A} (a : A) : M A := fun tr => (tr, inl a).

Definition bind {A B} (c : M A) (k : A -> M B) : M B :=
  fun tr =>
    match c tr with
    | (tr', inl a) => k a tr'
    | (tr', inr e) => (tr', inr e)
    end.

Definition emit (e : event) : M unit := fun tr => (tr ++ [e], inl tt).

Definition finish {A} (e : ending) : M A := fun tr => (tr, inr e).

(** A partial step: [None] is an access outside defined behaviour. *)
Definition defined {A} (o : option A) : M A :=
  match o with
  | Some a => ret a
  | None => finish Fault
  end.

(** [if(c) { body }] *)
Definition when (c : bool) (body : M unit) : M unit :=
  if c then body else ret tt.

Declare Scope proc_scope.
Delimit Scope proc_scope with proc.
Notation "'do' x <- c ;; k" := (bind c (fun x => k))
  (at level 10, x name, c at level 99, k at level 200) : proc_scope.
Notation "'do' ' pat <- c ;; k" := (bind c (fun x => let 'pat := x in k))
  (at level 10, pat pattern, c at level 99, k at level 200) : proc_scope.
Notation "c ;;; k" := (bind c (fun _ => k))
  (at level 100, k at level 200, right associativity) : proc_scope.

(** [a[i] = v] on an array of known length. *)
Definition store {A} (a : list A) (i : Z) (v : A) : option (list A) :=
  if (0 <=? i) && (i <? Z.of_nat (length a))
  then Some (<[Z.to_nat i := v]> a) else None.

(** [a[i]] *)
Definition load {A} (a : list A) (i : Z) : option A :=
  if 0 <=? i then a !! Z.to_nat i else None.

(** ** Field assignments

    [with_f v r] is the record [r] after [r.f = v]. *)

Definition with_ifnames (v : list (option string)) (r : tc_cmd_args) : tc_cmd_args :=
  let '(Build_tc_cmd_args _ x1 x2 x3 x4 x5 x6 x7 x8 x9 x10 x11 x12 x13 x14 x15 x16 x17) := r in
  Build_tc_cmd_args v x1 x2 x3 x4 x5 x6 x7 x8 x9 x10 x11 x12 x13 x14 x15 x16 x17.

Definition with_nfiles (v : Z) (r : tc_cmd_args) : tc_cmd_args :=
  let '(Build_tc_cmd_args x0 _ x2 x3 x4 x5 x6 x7 x8 x9 x10 x11 x12 x13 x14 x15 x16 x17) := r in
  Build_tc_cmd_args x0 v x2 x3 x4 x5 x6 x7 x8 x9 x10 x11 x12 x13 x14 x15 x16 x17.

Definition with_set_seed (v : bool) (r : tc_cmd_args) : tc_cmd_args :=
  let '(Build_tc_cmd_args x0 x1 _ x3 x4 x5 x6 x7 x8 x9 x10 x11 x12 x13 x14 x15 x16 x17) := r in
  Build_tc_cmd_args x0 x1 v x3 x4 x5 x6 x7 x8 x9 x10 x11 x12 x13 x14 x15 x16 x17.

Definition with_seed (v : Z) (r : tc_cmd_args) : tc_cmd_args :=
  let '(Build_tc_cmd_args x0 x1 x2 _ x4 x5 x6 x7 x8 x9 x10 x11 x12 x13 x14 x15 x16 x17) := r in
  Build_tc_cmd_args x0 x1 x2 v x4 x5 x6 x7 x8 x9 x10 x11 x12 x13 x14 x15 x16 x17.

Definition with_which_alg (v : splatt_tc_type) (r : tc_cmd_args) : tc_cmd_args :=
  let '(Build_tc_cmd_args x0 x1 x2 x3 _ x5 x6 x7 x8 x9 x10 x11 x12 x13 x14 x15 x16 x17) := r in
  Build_tc_cmd_args x0 x1 x2 x3 v x5 x6 x7 x8 x9 x10 x11 x12 x13 x14 x15 x16 x17.

Definition with_write (v : bool) (r : tc_cmd_args) : tc_cmd_args :=
  let '(Build_tc_cmd_args x0 x1 x2 x3 x4 _ x6 x7 x8 x9 x10 x11 x12 x13 x14 x15 x16 x17) := r in
  Build_tc_cmd_args x0 x1 x2 x3 x4 v x6 x7 x8 x9 x10 x11 x12 x13 x14 x15 x16 x17.

Definition with_learn_rate (v : val_t) (r : tc_cmd_args) : tc_cmd_args :=
  let '(Build_tc_cmd_args x0 x1 x2 x3 x4 x5 _ x7 x8 x9 x10 x11 x12 x13 x14 x15 x16 x17) := r in
  Build_tc_cmd_args x0 x1 x2 x3 x4 x5 v x7 x8 x9 x10 x11 x12 x13 x14 x15 x16 x17.

Definition with_reg (v : val_t) (r : tc_cmd_args) : tc_cmd_args :=
  let '(Build_tc_cmd_args x0 x1 x2 x3 x4 x5 x6 _ x8 x9 x10 x11 x12 x13 x14 x15 x16 x17) := r in
  Build_tc_cmd_args x0 x1 x2 x3 x4 x5 x6 v x8 x9 x10 x11 x12 x13 x14 x15 x16 x17.

Definition with_set_tolerance (v : bool) (r : tc_cmd_args) : tc_cmd_args :=
  let '(Build_tc_cmd_args x0 x1 x2 x3 x4 x5 x6 x7 _ x9 x10 x11 x12 x13 x14 x15 x16 x17) := r in
  Build_tc_cmd_args x0 x1 x2 x3 x4 x5 x6 x7 v x9 x10 x11 x12 x13 x14 x15 x16 x17.

Definition with_tolerance (v : val_t) (r : tc_cmd_args) : tc_cmd_args :=
  let '(Build_tc_cmd_args x0 x1 x2 x3 x4 x5 x6 x7 x8 _ x10 x11 x12 x13 x14 x15 x16 x17) := r in
  Build_tc_cmd_args x0 x1 x2 x3 x4 x5 x6 x7 x8 v x10 x11 x12 x13 x14 x15 x16 x17.

Definition with_max_its (v : Z) (r : tc_cmd_args) : tc_cmd_args :=
  let '(Build_tc_cmd_args x0 x1 x2 x3 x4 x5 x6 x7 x8 x9 _ x11 x12 x13 x14 x15 x16 x17) := r in
  Build_tc_cmd_args x0 x1 x2 x3 x4 x5 x6 x7 x8 x9 v x11 x12 x13 x14 x15 x16 x17.

Definition with_set_timeout (v : bool) (r : tc_cmd_args) : tc_cmd_args :=
  let '(Build_tc_cmd_args x0 x1 x2 x3 x4 x5 x6 x7 x8 x9 x10 _ x12 x13 x14 x15 x16 x17) := r in
  Build_tc_cmd_args x0 x1 x2 x3 x4 x5 x6 x7 x8 x9 x10 v x12 x13 x14 x15 x16 x17.

Definition with_max_seconds (v : float) (r : tc_cmd_args) : tc_cmd_args :=
  let '(Build_tc_cmd_args x0 x1 x2 x3 x4 x5 x6 x7 x8 x9 x10 x11 _ x13 x14 x15 x16 x17) := r in
  Build_tc_cmd_args x0 x1 x2 x3 x4 x5 x6 x7 x8 x9 x10 x11 v x13 x14 x15 x16 x17.

Definition with_nfactors (v : Z) (r : tc_cmd_args) : tc_cmd_args :=
  let '(Build_tc_cmd_args x0 x1 x2 x3 x4 x5 x6 x7 x8 x9 x10 x11 x12 _ x14 x15 x16 x17) := r in
  Build_tc_cmd_args x0 x1 x2 x3 x4 x5 x6 x7 x8 x9 x10 x11 x12 v x14 x15 x16 x17.

Definition with_nthreads (v : Z) (r : tc_cmd_args) : tc_cmd_args :=
  let '(Build_tc_cmd_args x0 x1 x2 x3 x4 x5 x6 x7 x8 x9 x10 x11 x12 x13 _ x15 x16 x17) := r in
  Build_tc_cmd_args x0 x1 x2 x3 x4 x5 x6 x7 x8 x9 x10 x11 x12 x13 v x15 x16 x17.

Definition with_rand_per_iteration (v : bool) (r : tc_cmd_args) : tc_cmd_args :=
  let '(Build_tc_cmd_args x0 x1 x2 x3 x4 x5 x6 x7 x8 x9 x10 x11 x12 x13 x14 _ x16 x17) := r in
  Build_tc_cmd_args x0 x1 x2 x3 x4 x5 x6 x7 x8 x9 x10 x11 x12 x13 x14 v x16 x17.

Definition with_hogwild (v : bool) (r : tc_cmd_args) : tc_cmd_args :=
  let '(Build_tc_cmd_args x0 x1 x2 x3 x4 x5 x6 x7 x8 x9 x10 x11 x12 x13 x14 x15 _ x17) := r in
  Build_tc_cmd_args x0 x1 x2 x3 x4 x5 x6 x7 x8 x9 x10 x11 x12 x13 x14 x15 v x17.

Definition with_folds (v : Z) (r : tc_cmd_args) : tc_cmd_args :=
  let '(Build_tc_cmd_args x0 x1 x2 x3 x4 x5 x6 x7 x8 x9 x10 x11 x12 x13 x14 x15 x16 _) := r in
  Build_tc_cmd_args x0 x1 x2 x3 x4 x5 x6 x7 x8 x9 x10 x11 x12 x13 x14 x15 x16 v.

Definition with_ws_learn_rate (v : val_t) (r : tc_ws) : tc_ws :=
  let '(Build_tc_ws _ x1 x2 x3 x4 x5 x6 x7 x8 x9 x10 x11 x12 x13) := r in
  Build_tc_ws v x1 x2 x3 x4 x5 x6 x7 x8 x9 x10 x11 x12 x13.

Definition with_ws_regularization (v : list val_t) (r : tc_ws) : tc_ws :=
  let '(Build_tc_ws x0 _ x2 x3 x4 x5 x6 x7 x8 x9 x10 x11 x12 x13) := r in
  Build_tc_ws x0 v x2 x3 x4 x5 x6 x7 x8 x9 x10 x11 x12 x13.

Definition with_ws_max_its (v : Z) (r : tc_ws) : tc_ws :=
  let '(Build_tc_ws x0 x1 _ x3 x4 x5 x6 x7 x8 x9 x10 x11 x12 x13) := r in
  Build_tc_ws x0 x1 v x3 x4 x5 x6 x7 x8 x9 x10 x11 x12 x13.

Definition with_ws_max_seconds (v : float) (r : tc_ws) : tc_ws :=
  let '(Build_tc_ws x0 x1 x2 _ x4 x5 x6 x7 x8 x9 x10 x11 x12 x13) := r in
  Build_tc_ws x0 x1 x2 v x4 x5 x6 x7 x8 x9 x10 x11 x12 x13.

Definition with_ws_tolerance (v : val_t) (r : tc_ws) : tc_ws :=
  let '(Build_tc_ws x0 x1 x2 x3 _ x5 x6 x7 x8 x9 x10 x11 x12 x13) := r in
  Build_tc_ws x0 x1 x2 x3 v x5 x6 x7 x8 x9 x10 x11 x12 x13.

Definition with_ws_rand_per_iteration (v : bool) (r : tc_ws) : tc_ws :=
  let '(Build_tc_ws x0 x1 x2 x3 x4 _ x6 x7 x8 x9 x10 x11 x12 x13) := r in
  Build_tc_ws x0 x1 x2 x3 x4 v x6 x7 x8 x9 x10 x11 x12 x13.

Definition with_ws_hogwild (v : bool) (r : tc_ws) : tc_ws :=
  let '(Build_tc_ws x0 x1 x2 x3 x4 x5 _ x7 x8 x9 x10 x11 x12 x13) := r in
  Build_tc_ws x0 x1 x2 x3 x4 x5 v x7 x8 x9 x10 x11 x12 x13.

Definition with_ws_folds (v : Z) (r : tc_ws) : tc_ws :=
  let '(Build_tc_ws x0 x1 x2 x3 x4 x5 x6 _ x8 x9 x10 x11 x12 x13) := r in
  Build_tc_ws x0 x1 x2 x3 x4 x5 x6 v x8 x9 x10 x11 x12 x13.

Definition with_ws_rinfo (v : option rank_info) (r : tc_ws) : tc_ws :=
  let '(Build_tc_ws x0 x1 x2 x3 x4 x5 x6 x7 x8 x9 x10 x11 _ x13) := r in
  Build_tc_ws x0 x1 x2 x3 x4 x5 x6 x7 x8 x9 x10 x11 v x13.

Definition with_ws_global_validate_nnz (v : Z) (r : tc_ws) : tc_ws :=
  let '(Build_tc_ws x0 x1 x2 x3 x4 x5 x6 x7 x8 x9 x10 x11 x12 _) := r in
  Build_tc_ws x0 x1 x2 x3 x4 x5 x6 x7 x8 x9 x10 x11 x12 v.

Definition with_ri_rank (v : Z) (r : rank_info) : rank_info :=
  let '(Build_rank_info _ x1 x2 x3 x4 x5) := r in
  Build_rank_info v x1 x2 x3 x4 x5.

Definition with_ri_npes (v : Z) (r : rank_info) : rank_info :=
  let '(Build_rank_info x0 _ x2 x3 x4 x5) := r in
  Build_rank_info x0 v x2 x3 x4 x5.

Definition with_ri_decomp (v : splatt_decomp_type) (r : rank_info) : rank_info :=
  let '(Build_rank_info x0 x1 _ x3 x4 x5) := r in
  Build_rank_info x0 x1 v x3 x4 x5.

Definition with_ri_dims_3d (v : list Z) (r : rank_info) : rank_info :=
  let '(Build_rank_info x0 x1 x2 _ x4 x5) := r in
  Build_rank_info x0 x1 x2 v x4 x5.

Definition with_ri_layer_starts (v : list Z) (r : rank_info) : rank_info :=
  let '(Build_rank_info x0 x1 x2 x3 _ x5) := r in
  Build_rank_info x0 x1 x2 x3 v x5.

Definition with_tt_dims (v : list Z) (r : sptensor_t) : sptensor_t :=
  let '(Build_sptensor_t x0 x1 _ x3 x4) := r in
  Build_sptensor_t x0 x1 v x3 x4.

Definition with_tt_ind (v : list (list Z)) (r : sptensor_t) : sptensor_t :=
  let '(Build_sptensor_t x0 x1 x2 _ x4) := r in
  Build_sptensor_t x0 x1 x2 v x4.

Definition with_tt_vals (v : list val_t) (r : sptensor_t) : sptensor_t :=
  let '(Build_sptensor_t x0 x1 x2 x3 _) := r in
  Build_sptensor_t x0 x1 x2 x3 v.

(** ** cmd_completion.c: argument parsing *)

Definition TC_REG : Z := 255.
Definition TC_NOWRITE : Z := 254.
Definition TC_SEED : Z := 253.
Definition TC_TIME : Z := 252.
Definition TC_TOL : Z := 251.
Definition TC_NORAND_PER_ITERATION : Z := 250.
Definition TC_HOGWILD : Z := 249.
Definition TC_FOLD : Z := 248.

(** The keys glibc's argp passes for a positional argument and at the end
    of the command line. *)
Definition ARGP_KEY_ARG : Z := 0.
Definition ARGP_KEY_END : Z := 16777217.

(** The key of a short option is its character. *)
Definition key_i : Z := 105.
Definition key_t : Z := 116.
Definition key_v : Z := 118.
Definition key_a : Z := 97.
Definition key_r : Z := 114.
Definition key_s : Z := 115.

(** The table [maps], closed by its [NULL] entry. *)
Definition maps : list (option string * splatt_tc_type) :=
  [ (Some "gd"%string, SPLATT_TC_GD);
    (Some "lbfgs"%string, SPLATT_TC_LBFGS);
    (Some "cg"%string, SPLATT_TC_NLCG);
    (Some "nlcg"%string, SPLATT_TC_NLCG);
    (Some "sgd"%string, SPLATT_TC_SGD);
    (Some "als"%string, SPLATT_TC_ALS);
    (Some "ccd"%string, SPLATT_TC_CCD);
    (None, SPLATT_TC_NALGS) ].

(** The loop of [parse_tc_alg] from entry [ptr] on. *)
Fixpoint parse_tc_alg_from (tbl : list (option string * splatt_tc_type))
    (arg : string) : splatt_tc_type :=
  match tbl with
  | (Some name, which) :: rest =>
      if streq arg name then which else parse_tc_alg_from rest arg
  | _ => SPLATT_TC_NALGS
  end.

Definition parse_tc_alg (arg : string) : splatt_tc_type :=
  parse_tc_alg_from maps arg.

(** [argp_usage(state)]: the usage message, then the process exits. *)
Definition argp_usage {A} : M A :=
  (emit EvUsage ;;; finish UsageExit)%proc.

Section Completion.

(** Build-time constants of headers outside the modelled files. *)
Variable idx_bits : positive.
Variable MAX_NMODES : Z.
Variable SPLATT_USE_MPI : bool.

(** The floating-point readers of the C library. *)
Variable atof : string -> float.
Variable strtod : string -> float * string.

(** The process environment: [omp_get_max_threads()], [time(NULL)], the
    worker's MPI rank and the number of workers, and the sum-reduction
    [MPI_Allreduce(MPI_IN_PLACE, &x, 1, _, MPI_SUM, _)] as this worker sees
    it, from its own contribution to the global sum. *)
Variable omp_get_max_threads : Z.
Variable time_now : Z.
Variable mpi_rank : Z.
Variable mpi_npes : Z.
Variable MPI_Allreduce_sum : Z -> Z.

(** The file system: [fopen(name, "r")]. *)
Variable fopen : string -> option file.

(** The tensor readers and the completion library, which live in other
    files of the repository.  A training routine works on the model and the
    workspace in place: it maps them to what they hold afterwards. *)
Variable tt_read : string -> option sptensor_t.
Variable mpi_tt_read : string -> rank_info -> option sptensor_t * rank_info.
Variable tc_model_alloc : sptensor_t -> Z -> splatt_tc_type -> tc_model.
Variable tc_ws_alloc : sptensor_t -> tc_model -> Z -> tc_ws.
Variable splatt_tc_gd : sptensor_t -> sptensor_t -> tc_model -> tc_ws -> tc_model * tc_ws.
Variable splatt_tc_nlcg : sptensor_t -> sptensor_t -> tc_model -> tc_ws -> tc_model * tc_ws.
Variable splatt_tc_lbfgs : sptensor_t -> sptensor_t -> tc_model -> tc_ws -> tc_model * tc_ws.
Variable splatt_tc_sgd : sptensor_t -> sptensor_t -> tc_model -> tc_ws -> tc_model * tc_ws.
Variable splatt_tc_ccd : sptensor_t -> sptensor_t -> tc_model -> tc_ws -> tc_model * tc_ws.
Variable splatt_tc_als : sptensor_t -> sptensor_t -> tc_model -> tc_ws -> tc_model * tc_ws.
Variable tc_mae : sptensor_t -> option tc_model -> tc_ws -> val_t.
Variable tc_rmse : sptensor_t -> option tc_model -> tc_ws -> val_t.

(** [default_tc_opts(args)]: the fields it assigns; [max_seconds] and
    [tolerance] keep what the caller's storage held. *)
Definition default_tc_opts (args : tc_cmd_args) : tc_cmd_args :=
  let args := with_nfiles 0 args in
  let args := with_ifnames [None; None; None] args in
  let args := with_which_alg SPLATT_TC_SGD args in
  let args := with_write false args in
  let args := with_nfactors 10 args in
  let args := with_learn_rate (-1)%float args in
  let args := with_reg (-1)%float args in
  let args := with_max_its 0 args in
  let args := with_set_timeout false args in
  let args := with_nthreads (idx_wrap idx_bits omp_get_max_threads) args in
  let args := with_set_seed false args in
  let args := with_seed (to_uint time_now) args in
  let args := with_set_tolerance false args in
  let args := with_rand_per_iteration true args in
  let args := with_hogwild false args in
  with_folds 1 args.

(** [if(arg != NULL && arg[0] == '=') ++arg;] *)
Definition skip_equals (arg : option string) : option string :=
  match arg with
  | Some (String c rest) => if char_code c =? 61 then Some rest else arg
  | _ => arg
  end.

(** [parse_tc_opt(key, arg, state)], with [state->input] as [args].  The
    option's text is read through [arg]: a null [arg] there is a fault. *)
Definition parse_tc_opt (key : Z) (arg : option string) (args : tc_cmd_args)
    : M tc_cmd_args :=
  (let arg := skip_equals arg in
   if key =? key_i then
     do a <- defined arg ;;
     ret (with_max_its (idx_wrap idx_bits (fst (strtoull a))) args)
   else if key =? key_t then
     do a <- defined arg ;;
     let args := with_nthreads (idx_wrap idx_bits (fst (strtoull a))) args in
     emit (EvOmpSetThreads (to_int (nthreads args))) ;;;
     ret args
   else if key =? key_v then
     emit EvVerbose ;;; ret args
   else if key =? key_a then
     do a <- defined arg ;;
     let args := with_which_alg (parse_tc_alg a) args in
     when (bool_decide (which_alg args = SPLATT_TC_NALGS))
       (emit (EvStderr ("SPLATT: unknown completion algorithm '" ++ a ++ "'." ++ newline))
        ;;; argp_usage) ;;;
     ret args
   else if key =? TC_NOWRITE then
     ret (with_write false args)
   else if key =? key_r then
     do a <- defined arg ;;
     ret (with_nfactors (idx_wrap idx_bits (fst (strtoull a))) args)
   else if key =? key_s then
     do a <- defined arg ;;
     ret (with_learn_rate (fst (strtod a)) args)
   else if key =? TC_REG then
     do a <- defined arg ;;
     ret (with_reg (fst (strtod a)) args)
   else if key =? TC_SEED then
     do a <- defined arg ;;
     ret (with_set_seed true (with_seed (to_uint (atoi a)) args))
   else if key =? TC_TIME then
     do a <- defined arg ;;
     ret (with_set_timeout true (with_max_seconds (atof a) args))
   else if key =? TC_TOL then
     do a <- defined arg ;;
     ret (with_set_tolerance true (with_tolerance (atof a) args))
   else if key =? TC_NORAND_PER_ITERATION then
     ret (with_rand_per_iteration false args)
   else if key =? TC_HOGWILD then
     ret (with_hogwild true args)
   else if key =? TC_FOLD then
     do a <- defined arg ;;
     ret (with_folds (idx_wrap idx_bits (atoi a)) args)
   else if key =? ARGP_KEY_ARG then
     when (nfiles args =? 3) argp_usage ;;;
     do names <- defined (store (ifnames args) (nfiles args) arg) ;;
     ret (with_nfiles (nfiles args + 1) (with_ifnames names args))
   else if key =? ARGP_KEY_END then
     when (bool_decide (ifnames args !! 0%nat = Some None)
           || bool_decide (ifnames args !! 1%nat = Some None)) argp_usage ;;;
     ret args
   else ret args)%proc.

(** [argp_parse(&tc_argp, argc, argv, ARGP_IN_ORDER, 0, &args)]: glibc
    decodes [argv] and calls the parser once for each option and each
    positional argument, in order, and at the end of the command line;
    [calls] is that sequence of [(key, arg)]. *)
Fixpoint argp_parse (calls : list (Z * option string)) (args : tc_cmd_args)
    : M tc_cmd_args :=
  match calls with
  | [] => ret args
  | (key, arg) :: rest =>
      (do args' <- parse_tc_opt key arg args ;; argp_parse rest args')%proc
  end.

(** ** cmd_completion.c: the layer-aware reader *)

(** The range of mode 0 assigned to the worker:
    [rinfo->layer_starts[0]] and [rinfo->layer_ends[0]]. *)
Definition layer_start (rinfo : rank_info) : Z := idx_at (ri_layer_starts rinfo) 0.
Definition layer_end (rinfo : rank_info) : Z := idx_at (ri_layer_ends rinfo) 0.

(** [ind < rinfo->layer_starts[0] || ind >= rinfo->layer_ends[0]] *)
Definition outside_layer (rinfo : rank_info) (ind : Z) : bool :=
  (ind <? layer_start rinfo) || (ind >=? layer_end rinfo).

(** [idx_t ind = strtoull(ptr, &ptr, 10) - 1]: the index and the moved
    pointer. *)
Definition read_index (ptr : string) : Z * string :=
  let '(x, ptr') := strtoull ptr in (idx_wrap idx_bits (x - 1), ptr').

(** The first loop of [tt_get_layer_dims]: the tokens of the first data
    line are counted into [nmodes]; the file without a data line leaves
    [nmodes] as it was. *)
Fixpoint count_first_line (fin : file) (nmodes : Z) : Z :=
  match fin with
  | [] => nmodes
  | line :: rest =>
      if is_data_line line then idx_wrap idx_bits (nmodes + count_tokens line)
      else count_first_line rest nmodes
  end.

(** [for(m = 0; m < nmodes; ++m) outdims[m] = 0;], with [k] modes still to
    go from mode [m]. *)
Fixpoint zero_dims (k : nat) (m : Z) (outdims : list Z) : option (list Z) :=
  match k with
  | O => Some outdims
  | S k' =>
      match store outdims m 0 with
      | Some d => zero_dims k' (m + 1) d
      | None => None
      end
  end.

(** The mode loop on one data line in [tt_get_layer_dims]. *)
Fixpoint dims_modes (rinfo : rank_info) (k : nat) (m : Z)
    (skip : bool) (ptr : string) (outdims : list Z)
    : option (bool * string * list Z) :=
  match k with
  | O => Some (skip, ptr, outdims)
  | S k' =>
      let '(ind, ptr) := read_index ptr in
      let skip := if (m =? 0) && outside_layer rinfo ind then true else skip in
      match load outdims m with
      | Some old =>
          let new := if idx_wrap idx_bits (ind + 1) >? old
                     then idx_wrap idx_bits (ind + 1) else old in
          match store outdims m new with
          | Some d => dims_modes rinfo k' (m + 1) skip ptr d
          | None => None
          end
      | None => None
      end
  end.

(** The second [getline] loop of [tt_get_layer_dims]. *)
Fixpoint dims_lines (rinfo : rank_info) (nmodes : Z) (fin : file)
    (nnz : Z) (outdims : list Z) : option (Z * list Z) :=
  match fin with
  | [] => Some (nnz, outdims)
  | line :: rest =>
      if is_data_line line then
        match dims_modes rinfo (Z.to_nat nmodes) 0 false line outdims with
        | Some (skip, _, d) =>
            dims_lines rinfo nmodes rest
              (if skip then nnz else idx_wrap idx_bits (nnz + 1)) d
        | None => None
        end
      else dims_lines rinfo nmodes rest nnz outdims
  end.

(** [tt_get_layer_dims(fin, &outnmodes, &outnnz, outdims, rinfo)]:
    [(nmodes, nnz, outdims)] on return. *)
Definition tt_get_layer_dims (fin : file) (outdims : list Z)
    (rinfo : rank_info) : option (Z * Z * list Z) :=
  let nmodes := idx_wrap idx_bits (count_first_line fin 0 - 1) in
  match zero_dims (Z.to_nat nmodes) 0 outdims with
  | Some d0 =>
      match dims_lines rinfo nmodes fin 0 d0 with
      | Some (nnz, d1) =>
          match store d1 0 (idx_wrap idx_bits (layer_end rinfo - layer_start rinfo)) with
          | Some d2 => Some (nmodes, nnz, d2)
          | None => None
          end
      | None => None
      end
  | None => None
  end.

(** Modelled from the spec: [tt_alloc] (sptensor.c is not among the modelled
    files) returns a tensor of [nmodes] modes and [nnz] entries: [dims] has
    [nmodes] cells, each [ind[m]] and [vals] have [nnz] cells.  The cells are
    zero here; the command overwrites every one of them. *)
Definition tt_alloc (nnz nmodes : Z) : sptensor_t :=
  {| tt_nmodes := nmodes;
     tt_nnz := nnz;
     tt_dims := replicate (Z.to_nat nmodes) 0;
     tt_ind := replicate (Z.to_nat nmodes) (replicate (Z.to_nat nnz) 0);
     tt_vals := replicate (Z.to_nat nnz) 0%float |}.

(** [ind[m][k] = v] *)
Definition store_ind (ind : list (list Z)) (m k v : Z) : option (list (list Z)) :=
  match load ind m with
  | Some row =>
      match store row k v with
      | Some row' => store ind m row'
      | None => None
      end
  | None => None
  end.

(** The mode loop on one data line in the second pass of [splatt_tc_cmd]:
    entry [nnz] of the index arrays is written. *)
Fixpoint fill_modes (rinfo : rank_info) (nnz : Z) (k : nat) (m : Z)
    (skip : bool) (ptr : string) (ind : list (list Z))
    : option (bool * string * list (list Z)) :=
  match k with
  | O => Some (skip, ptr, ind)
  | S k' =>
      let '(i, ptr) := read_index ptr in
      if m =? 0 then
        if outside_layer rinfo i then
          fill_modes rinfo nnz k' (m + 1) true ptr ind
        else
          match store_ind ind m nnz (idx_wrap idx_bits (i - layer_start rinfo)) with
          | Some ind' => fill_modes rinfo nnz k' (m + 1) skip ptr ind'
          | None => None
          end
      else if negb skip then
        match store_ind ind m nnz i with
        | Some ind' => fill_modes rinfo nnz k' (m + 1) skip ptr ind'
        | None => None
        end
      else fill_modes rinfo nnz k' (m + 1) skip ptr ind
  end.

(** The [getline] loop of the second pass; [assert(nnz <= validate->nnz)]
    is checked after every stored value. *)
Fixpoint fill_lines (rinfo : rank_info) (nmodes : Z) (fin : file)
    (nnz : Z) (validate : sptensor_t) : option sptensor_t :=
  match fin with
  | [] => Some validate
  | line :: rest =>
      if is_data_line line then
        match fill_modes rinfo nnz (Z.to_nat nmodes) 0 false line (tt_ind validate) with
        | Some (skip, ptr, ind) =>
            let validate := with_tt_ind ind validate in
            let val := fst (strtod ptr) in
            if negb skip then
              match store (tt_vals validate) nnz val with
              | Some vals =>
                  let validate := with_tt_vals vals validate in
                  let nnz := idx_wrap idx_bits (nnz + 1) in
                  if nnz <=? tt_nnz validate
                  then fill_lines rinfo nmodes rest nnz validate
                  else None
              | None => None
              end
            else fill_lines rinfo nmodes rest nnz validate
        | None => None
        end
      else fill_lines rinfo nmodes rest nnz validate
  end.

(** The result of the distributed load of the validation tensor. *)
Inductive load_result :=
| LoadFault
| LoadTooManyModes (nmodes : Z)
| Loaded (validate : sptensor_t).

(** The block of [splatt_tc_cmd] that loads the worker's part of the opened
    validation file: both passes, from [tt_get_layer_dims] to the end of the
    second [getline] loop. *)
Definition load_validate_layer (fin : file) (dims0 : list Z)
    (rinfo : rank_info) : load_result :=
  match tt_get_layer_dims fin dims0 rinfo with
  | None => LoadFault
  | Some (nmodes, nnz, dims) =>
      if nmodes >? MAX_NMODES then LoadTooManyModes nmodes
      else
        let validate := tt_alloc nnz nmodes in
        let validate := with_tt_dims (take (Z.to_nat nmodes) dims) validate in
        match fill_lines rinfo nmodes fin 0 validate with
        | Some validate => Loaded validate
        | None => LoadFault
        end
  end.

(** *** What the load is meant to produce

    The entries of the validation file as the worker should see them,
    stated on the lines of the file. *)

(** The text of a data line after its first [m] indices. *)
Fixpoint skip_indices (m : nat) (ptr : string) : string :=
  match m with
  | O => ptr
  | S m' => skip_indices m' (snd (read_index ptr))
  end.

(** The 0-based index of mode [m] on a data line. *)
Definition line_index (m : nat) (line : string) : Z :=
  fst (read_index (skip_indices m line)).

(** The value on a data line of [nmodes] indices. *)
Definition line_value (nmodes : Z) (line : string) : val_t :=
  fst (strtod (skip_indices (Z.to_nat nmodes) line)).

(** The data lines whose mode-0 index lies in the worker's layer. *)
Definition in_layer (rinfo : rank_info) (line : string) : bool :=
  is_data_line line && negb (outside_layer rinfo (line_index 0 line)).

Definition layer_lines (rinfo : rank_info) (fin : file) : list string :=
  List.filter (in_layer rinfo) fin.

(** The index the worker stores for mode [m] of a line of its layer: mode 0
    is counted from the start of the layer. *)
Definition local_index (rinfo : rank_info) (m : nat) (line : string) : Z :=
  match m with
  | O => line_index 0 line - layer_start rinfo
  | S _ => line_index m line
  end.

(** ** cmd_completion.c: [splatt_tc_cmd] *)

(** [x != -1.] on floating-point values. *)
Definition differs_from_minus_one (x : float) : bool :=
  negb (PrimFloat.eqb x (-1)%float).

(** [for(m = 0; m < nmodes; ++m) ws->regularization[m] = args.reg;] *)
Fixpoint set_regularization (k : nat) (m : Z) (v : val_t)
    (regularization : list val_t) : option (list val_t) :=
  match k with
  | O => Some regularization
  | S k' =>
      match store regularization m v with
      | Some r => set_regularization k' (m + 1) v r
      | None => None
      end
  end.

(** The block "check for non-default vals" of [splatt_tc_cmd], up to the
    assignment of [ws->folds]. *)
Definition override_defaults (nmodes : Z) (args : tc_cmd_args) (ws : tc_ws)
    : option tc_ws :=
  let ws := if differs_from_minus_one (learn_rate args)
            then with_ws_learn_rate (learn_rate args) ws else ws in
  match (if differs_from_minus_one (reg args)
         then set_regularization (Z.to_nat nmodes) 0 (reg args) (ws_regularization ws)
         else Some (ws_regularization ws)) with
  | Some regularization =>
      let ws := with_ws_regularization regularization ws in
      let ws := if negb (max_its args =? 0)
                then with_ws_max_its (max_its args) ws else ws in
      let ws := if set_timeout args
                then with_ws_max_seconds (max_seconds args) ws else ws in
      let ws := if set_tolerance args
                then with_ws_tolerance (tolerance args) ws else ws in
      let ws := with_ws_rand_per_iteration (rand_per_iteration args) ws in
      let ws := with_ws_hogwild (hogwild args) ws in
      Some (with_ws_folds (folds args) ws)
  | None => None
  end.

(** The routine the [switch] on [args.which_alg] calls; the [default:] case
    has none. *)
Definition training_routine (alg : splatt_tc_type)
    : option (sptensor_t -> sptensor_t -> tc_model -> tc_ws -> tc_model * tc_ws) :=
  match alg with
  | SPLATT_TC_GD => Some splatt_tc_gd
  | SPLATT_TC_NLCG => Some splatt_tc_nlcg
  | SPLATT_TC_LBFGS => Some splatt_tc_lbfgs
  | SPLATT_TC_SGD => Some splatt_tc_sgd
  | SPLATT_TC_CCD => Some splatt_tc_ccd
  | SPLATT_TC_ALS => Some splatt_tc_als
  | SPLATT_TC_NALGS => None
  end.

(** [ifnames[n]], which must not be null where it is opened. *)
Definition ifname (args : tc_cmd_args) (n : nat) : option string :=
  mjoin (ifnames args !! n).

(** The decomposition the command asks for: a medium-grained one with all
    workers along mode 0, and every layer start reset
    ([rinfo.decomp = SPLATT_DECOMP_MEDIUM] up to the loop over
    [rinfo.layer_starts]). *)
Definition init_rank_info (rinfo : rank_info) : rank_info :=
  let rinfo := with_ri_decomp SPLATT_DECOMP_MEDIUM rinfo in
  let rinfo := with_ri_dims_3d
                 (ri_npes rinfo :: replicate (Z.to_nat MAX_NMODES - 1) 1) rinfo in
  with_ri_layer_starts (replicate (Z.to_nat MAX_NMODES) 0) rinfo.

(** The tensors are read.  With MPI the worker reads its part of the
    training tensor with [mpi_tt_read], which also fixes its layer, and then
    its layer of the validation file, whose entry count is summed over the
    workers; otherwise both files are read whole. *)
Definition read_tensors (args : tc_cmd_args) (rinfo : rank_info) (dims0 : list Z)
    : M (option sptensor_t * option sptensor_t * rank_info * Z) :=
  (if SPLATT_USE_MPI then
     let rinfo := init_rank_info rinfo in
     do train_name <- defined (ifname args 0) ;;
     let '(train, rinfo) := mpi_tt_read train_name rinfo in
     do validate_name <- defined (ifname args 1) ;;
     match fopen validate_name with
     | None =>
         emit (EvStderr ("SPLATT ERROR: failed to open '" ++ validate_name
                         ++ "'" ++ newline)) ;;;
         finish (Returned SPLATT_ERROR_BADINPUT)
     | Some fin =>
         match load_validate_layer fin dims0 rinfo with
         | LoadFault => finish Fault
         | LoadTooManyModes _ =>
             emit (EvStderr "SPLATT ERROR: maximum modes supported.") ;;;
             finish (Returned SPLATT_ERROR_BADINPUT)
         | Loaded validate =>
             let global_validate_nnz := MPI_Allreduce_sum (tt_nnz validate) in
             ret (train, Some validate, rinfo, global_validate_nnz)
         end
     end
   else
     do train_name <- defined (ifname args 0) ;;
     do validate_name <- defined (ifname args 1) ;;
     ret (tt_read train_name, tt_read validate_name, rinfo, 0))%proc.

(** A training or validation file that cannot be read, as the command meets
    it: without MPI [tt_read] fails on one of the two; with MPI the
    validation file cannot be opened, or [mpi_tt_read] fails on the training
    file, which the command looks at only after its load of the validation
    layer, so that load must stay inside its arrays. *)
Inductive unreadable_early (args : tc_cmd_args) (rinfo : rank_info)
    (dims0 : list Z) : Prop :=
| whole_file_unreadable (tn vn : string) :
    SPLATT_USE_MPI = false ->
    ifname args 0 = Some tn -> ifname args 1 = Some vn ->
    tt_read tn = None \/ tt_read vn = None ->
    unreadable_early args rinfo dims0
| validate_not_opened (tn vn : string) :
    SPLATT_USE_MPI = true ->
    ifname args 0 = Some tn -> ifname args 1 = Some vn ->
    fopen vn = None ->
    unreadable_early args rinfo dims0
| train_part_unreadable (tn vn : string) (fin : file) :
    SPLATT_USE_MPI = true ->
    ifname args 0 = Some tn -> ifname args 1 = Some vn ->
    fst (mpi_tt_read tn (init_rank_info rinfo)) = None ->
    fopen vn = Some fin ->
    load_validate_layer fin dims0
      (snd (mpi_tt_read tn (init_rank_info rinfo))) <> LoadFault ->
    unreadable_early args rinfo dims0.

(** [for(m = 0; m < nmodes; ++m) { ... mat_write(&tmpmat, matfname); }] *)
Fixpoint write_best_model (k : nat) (m : Z) (args : tc_cmd_args) (ws : tc_ws)
    : M unit :=
  match k with
  | O => ret tt
  | S k' =>
      (do best <- defined (ws_best_model ws) ;;
       do I <- defined (load (model_dims best) m) ;;
       do vals <- defined (load (model_factors best) m) ;;
       emit (EvMatWrite (m + 1) I (nfactors args) vals) ;;;
       write_best_model k' (m + 1) args ws)%proc
  end.

(** [splatt_tc_cmd(argc, argv)].  [calls] is the command line as [argp]
    delivers it; [args0], [rinfo0] and [dims0] are what the storage of the
    locals [args], [rinfo] and [dims] holds on entry.  A [return] inside the
    function ends the computation with [Returned]. *)
Definition splatt_tc_cmd (calls : list (Z * option string))
    (args0 : tc_cmd_args) (rinfo0 : rank_info) (dims0 : list Z)
    : M return_code :=
  (do args <- argp_parse calls (default_tc_opts args0) ;;
   let rinfo := with_ri_npes mpi_npes (with_ri_rank mpi_rank rinfo0) in
   let root := negb SPLATT_USE_MPI || (ri_rank rinfo =? 0) in
   when root (emit EvHeader) ;;;
   emit (EvSrand (seed args)) ;;;
   do '(train, validate, rinfo, global_validate_nnz) <- read_tensors args rinfo dims0 ;;
   match train, validate with
   | Some train, Some validate =>
       let nmodes := tt_nmodes train in
       when root (emit (EvStats (tt_nnz train))) ;;;
       let model := tc_model_alloc train (nfactors args) (which_alg args) in
       emit (EvOmpSetThreads (to_int (nthreads args))) ;;;
       let ws := tc_ws_alloc train model (nthreads args) in
       do ws <- defined (override_defaults nmodes args ws) ;;
       when root (emit (EvConfig ws args)) ;;;
       match training_routine (which_alg args) with
       | Some train_model =>
           when (negb (SPLATT_USE_MPI
                       && bool_decide (which_alg args = SPLATT_TC_SGD)) || root)
                (emit (EvAlg (which_alg args))) ;;;
           let ws := if SPLATT_USE_MPI
                        && bool_decide (which_alg args = SPLATT_TC_SGD)
                     then with_ws_global_validate_nnz global_validate_nnz
                            (with_ws_rinfo (Some rinfo) ws)
                     else ws in
           emit (EvTrain (which_alg args)) ;;;
           let '(model, ws) := train_model train validate model ws in
           let mae := tc_mae validate (ws_best_model ws) ws in
           when root
             (emit (EvValidation
                      (if SPLATT_USE_MPI then ws_global_validate_nnz ws
                       else tt_nnz validate)
                      (ws_best_rmse ws) mae (ws_best_epoch ws))) ;;;
           match ifname args 2 with
           | Some test_name =>
               match tt_read test_name with
               | Some test =>
                   emit (EvTest (tt_nnz test)
                           (tc_rmse test (ws_best_model ws) ws)
                           (tc_mae test (ws_best_model ws) ws))
               | None => finish (Returned SPLATT_ERROR_BADINPUT)
               end
           | None => ret tt
           end ;;;
           when (write args)
             (write_best_model (Z.to_nat nmodes) 0 args ws) ;;;
           ret EXIT_SUCCESS
       | None =>
           emit (EvStderr "SPLATT: unknown completion algorithm") ;;;
           finish (Returned SPLATT_ERROR_BADINPUT)
       end
   | _, _ => finish (Returned SPLATT_ERROR_BADINPUT)
   end)%proc.

(** A whole run of the command: what it did and how it ended. *)
Definition run_tc_cmd (calls : list (Z * option string))
    (args0 : tc_cmd_args) (rinfo0 : rank_info) (dims0 : list Z)
    : list event * ending :=
  match splatt_tc_cmd calls args0 rinfo0 dims0 [] with
  | (tr, inl code) => (tr, Returned code)
  | (tr, inr e) => (tr, e)
  end.

End Completion.

(** ** cmd_completion.c: the header of a run

    Two fields of the lines printed under "Factoring", as the command
    chooses them. *)

(** [if(args.set_timeout) printf("MAXTIME=NONE ");
     else printf("MAXTIME=%0.1fs ", ws->max_seconds);] *)
Inductive maxtime_field := MAXTIME_NONE | MAXTIME_seconds (s : float).

Definition config_maxtime (ws : tc_ws) (args : tc_cmd_args) : maxtime_field :=
  if set_timeout args then MAXTIME_NONE else MAXTIME_seconds (ws_max_seconds ws).

(** [if(args.set_seed) printf("SEED=%u ", args.seed);
     else printf("SEED=time ");] *)
Inductive seed_field := SEED_value (s : Z) | SEED_time.

Definition config_seed (args : tc_cmd_args) : seed_field :=
  if set_seed args then SEED_value (seed args) else SEED_time.

(** ** tucker.c: [splatt_tucker_als] and [splatt_free_tucker] *)

(** What the two functions ask of the other files and of the C library, in
    order.  A matrix is named by the mode it was made for, [mats[m]]; the
    timers leave no trace. *)
Inductive tucker_event :=
| TkMatRand (m nrows ncols : Z)
| TkCalloc (count size : Z)
| TkMalloc (bytes : Z)
| TkOmpSetThreads (n : Z)
| TkThdInit (nthreads nscratch bytes : Z)
| TkTtm (m nthreads : Z)
| TkProgress (its : Z) (fit delta : float)
| TkModeTime (mode : Z)
| TkFreeGten
| TkFreeMat (m : Z)
| TkFreeCore
| TkFreeFactor (m : Z).

(** [splatt_tucker_t].  [core] is what [calloc] returned for the given
    number of cells; [factors[m]] points to the values of a matrix, named by
    its mode; a cell that holds no such pointer is [None]. *)
Record splatt_tucker_t := {
  tk_nmodes : Z;
  tk_rank : list Z;
  tk_core : option Z;
  tk_factors : list (option Z)
}.

(** The locals of the first loop of [splatt_tucker_als]. *)
Record tucker_fill := {
  tf_rank : list Z;
  tf_factors : list (option Z);
  tf_mats : list (option Z);
  tf_csize : Z;
  tf_maxcols : Z;
  tf_log : list tucker_event
}.

Section TuckerAls.

Variable idx_bits : positive.
Variable MAX_NMODES : Z.

(** [sizeof(val_t)], the width of [size_t], and the conversion [(idx_t) x]
    of a [double]. *)
Variable sizeof_val_t : Z.
Variable size_bits : positive.
Variable idx_of_double : float -> Z.

(** The places of the options and the verbosity levels, from the public
    header. *)
Variables SPLATT_OPTION_NTHREADS SPLATT_OPTION_NITER SPLATT_OPTION_VERBOSITY : Z.
Variables SPLATT_VERBOSITY_NONE SPLATT_VERBOSITY_LOW : float.

(** Conversion to [size_t], and the arithmetic of an expression that mixes
    [idx_t] and [size_t], which is carried out in the wider of the two. *)
Definition size_wrap (z : Z) : Z := z mod 2 ^ Z.pos size_bits.

Definition mixed_wrap (z : Z) : Z := z mod 2 ^ Z.pos (Pos.max idx_bits size_bits).

(** [for(m = 0; m < nmodes; ++m) { factored->rank[m] = nfactors[m];
    mats[m] = mat_rand(tensors[0].dims[m], nfactors[m]);
    factored->factors[m] = mats[m]->vals; csize *= nfactors[m];
    maxcols = SS_MAX(maxcols, nfactors[m]); }], with [k] modes to go. *)
Fixpoint tucker_fill_modes (k : nat) (m : Z) (nfactors tdims : list Z)
    (st : tucker_fill) : option tucker_fill :=
  match k with
  | O => Some st
  | S k' =>
      match load nfactors m, load tdims m with
      | Some nf, Some dim =>
          match store (tf_rank st) m nf, store (tf_mats st) m (Some m),
                store (tf_factors st) m (Some m) with
          | Some rank, Some mats, Some factors =>
              tucker_fill_modes k' (m + 1) nfactors tdims
                {| tf_rank := rank; tf_factors := factors; tf_mats := mats;
                   tf_csize := idx_wrap idx_bits (tf_csize st * nf);
                   tf_maxcols := SS_MAX (tf_maxcols st) nf;
                   tf_log := tf_log st ++ [TkMatRand m dim nf] |}
          | _, _, _ => None
          end
      | _, _ => None
      end
  end.

(** The loop over the modes inside an iteration: [modetime[m]], a cell of
    an array of [MAX_NMODES] timers, is started and stopped around
    [ttm_splatt(tensors + m, mats, gten, m, thds, nthreads)]. *)
Fixpoint tucker_ttm_modes (k : nat) (m : Z) (nthreads : Z)
    (log : list tucker_event) : option (list tucker_event) :=
  match k with
  | O => Some log
  | S k' =>
      if m <? MAX_NMODES
      then tucker_ttm_modes k' (m + 1) nthreads (log ++ [TkTtm m nthreads])
      else None
  end.

(** [for(m = 0; m < nmodes; ++m) printf(..., m+1, modetime[m].seconds);] *)
Fixpoint tucker_mode_times (k : nat) (m : Z) (log : list tucker_event)
    : option (list tucker_event) :=
  match k with
  | O => Some log
  | S k' =>
      if m <? MAX_NMODES
      then tucker_mode_times k' (m + 1)
             (log ++ [TkModeTime (idx_wrap idx_bits (m + 1))])
      else None
  end.

(** The loop over the iterations, with [k] iterations to go from [it].
    [fit] and [oldfit] are the two locals of that name, which the loop
    prints and never assigns. *)
Fixpoint tucker_iterations (k : nat) (it : Z) (nmodes nthreads : Z)
    (options : list float) (fit oldfit : float) (log : list tucker_event)
    : option (list tucker_event) :=
  match k with
  | O => Some log
  | S k' =>
      match tucker_ttm_modes (Z.to_nat nmodes) 0 nthreads log,
            load options SPLATT_OPTION_VERBOSITY with
      | Some log, Some verbosity =>
          match
            (if PrimFloat.ltb SPLATT_VERBOSITY_NONE verbosity then
               let log := log ++ [TkProgress (idx_wrap idx_bits (it + 1)) fit
                                             (PrimFloat.sub fit oldfit)] in
               if PrimFloat.ltb SPLATT_VERBOSITY_LOW verbosity
               then tucker_mode_times (Z.to_nat nmodes) 0 log
               else Some log
             else Some log)
          with
          | Some log =>
              tucker_iterations k' (it + 1) nmodes nthreads options fit oldfit log
          | None => None
          end
      | _, _ => None
      end
  end.

(** [for(m = 0; m < nmodes; ++m) free(mats[m]);] *)
Fixpoint tucker_free_mats (k : nat) (m : Z) (mats : list (option Z))
    (log : list tucker_event) : option (list tucker_event) :=
  match k with
  | O => Some log
  | S k' =>
      match load mats m with
      | Some (Some mat) => tucker_free_mats k' (m + 1) mats (log ++ [TkFreeMat mat])
      | _ => None
      end
  end.

(** [splatt_tucker_als(nfactors, nmodes, tensors, options, factored)].
    [tdims] is [tensors[0].dims]; [mats0] is what the storage of the local
    array [mats] holds on entry.  The result is what was asked of the
    environment and what [factored] holds on return; [None] when the
    function leaves defined behaviour. *)
Definition splatt_tucker_als (nfactors : list Z) (nmodes : Z) (tdims : list Z)
    (options : list float) (factored : splatt_tucker_t) (mats0 : list (option Z))
    : option (list tucker_event * splatt_tucker_t) :=
  match load options SPLATT_OPTION_NTHREADS with
  | Some o_nthreads =>
      let nthreads := idx_wrap idx_bits (idx_of_double o_nthreads) in
      match tucker_fill_modes (Z.to_nat nmodes) 0 nfactors tdims
              {| tf_rank := tk_rank factored; tf_factors := tk_factors factored;
                 tf_mats := mats0; tf_csize := 1; tf_maxcols := 0; tf_log := [] |} with
      | Some st =>
          let log := tf_log st ++ [TkCalloc (size_wrap (tf_csize st)) sizeof_val_t] in
          let maxsize := __max_tensize idx_bits nmodes nfactors tdims in
          let log := log ++ [TkMalloc (size_wrap (mixed_wrap (maxsize * sizeof_val_t)))] in
          let log := log ++ [TkOmpSetThreads (to_int nthreads)] in
          let log := log ++ [TkThdInit nthreads 1
                               (mixed_wrap (mixed_wrap (tf_maxcols st * sizeof_val_t) + 64))] in
          match load options SPLATT_OPTION_NITER with
          | Some o_niters =>
              let niters := idx_wrap idx_bits (idx_of_double o_niters) in
              match tucker_iterations (Z.to_nat niters) 0 nmodes nthreads
                      options 0%float 0%float log with
              | Some log =>
                  match tucker_free_mats (Z.to_nat nmodes) 0 (tf_mats st)
                          (log ++ [TkFreeGten]) with
                  | Some log =>
                      Some (log,
                            {| tk_nmodes := nmodes; tk_rank := tf_rank st;
                               tk_core := Some (size_wrap (tf_csize st));
                               tk_factors := tf_factors st |})
                  | None => None
                  end
              | None => None
              end
          | None => None
          end
      | None => None
      end
  | None => None
  end.

(** [for(m = 0; m < factored->nmodes; ++m) free(factored->factors[m]);] *)
Fixpoint tucker_free_factors (k : nat) (m : Z) (factors : list (option Z))
    (log : list tucker_event) : option (list tucker_event) :=
  match k with
  | O => Some log
  | S k' =>
      match load factors m with
      | Some (Some f) => tucker_free_factors k' (m + 1) factors (log ++ [TkFreeFactor f])
      | _ => None
      end
  end.

(** [splatt_free_tucker(factored)] *)
Definition splatt_free_tucker (factored : splatt_tucker_t)
    : option (list tucker_event) :=
  tucker_free_factors (Z.to_nat (tk_nmodes factored)) 0 (tk_factors factored)
    [TkFreeCore].

End TuckerAls.

(** ** The workers together *)

(** [MPI_Allreduce] with [MPI_SUM] on [idx_t]: every worker receives the sum
    of what the workers contributed. *)
Definition allreduce_sum (idx_bits : positive) (contributions : list Z) : Z :=
  idx_wrap idx_bits (fold_right Z.add 0 contributions).

(** The validation count a run reports, if it reports one. *)
Fixpoint reported_validation_nnz (tr : list event) : option Z :=
  match tr with
  | [] => None
  | EvValidation nnz _ _ _ :: _ => Some nnz
  | _ :: rest => reported_validation_nnz rest
  end.

(** ** The training loop

    The optimisation routines ([splatt_tc_sgd] and the others) live in the
    completion library, outside the modelled files.  Their common outer loop
    is modelled from the specification, over exact rational scores. *)

(** Modelled from the spec: the best score starts at "worst possible"
    (+infinity for an RMSE-style loss); the missing part is the workspace's
    score bookkeeping of the completion library. *)
Inductive score :=
| Finite (q : Q)
| Infinite.

(** [v < best - tolerance] *)
Definition improves (v : Q) (best : score) (tolerance : Q) : bool :=
  match best with
  | Finite b => negb (Qle_bool (b - tolerance) v)
  | Infinite => true
  end.

(** The validation score improves on the best one by more than the
    tolerance. *)
Definition improves_beyond (v : Q) (best : score) (tolerance : Q) : Prop :=
  match best with
  | Finite b => (v < b - tolerance)%Q
  | Infinite => True
  end.

(** [s1 <= s2] on scores. *)
Definition score_le (s1 s2 : score) : Prop :=
  match s1, s2 with
  | _, Infinite => True
  | Infinite, Finite _ => False
  | Finite a, Finite b => (a <= b)%Q
  end.

(** Modelled from the spec: factor buffers are owned storage; the missing
    part is the model life cycle ([clone]) of the completion library.  The
    storage is a list of buffers, a model is the list of the places of its
    factor buffers, one per mode. *)
Abbreviation buffers := (list (list Q)).

Definition contents (h : buffers) (factors : list nat) : list (list Q) :=
  map (fun a => default [] (h !! a)) factors.

(** Modelled from the spec: [clone(model)] "deep-copies all factor buffers
    into a freshly allocated model of identical shape". *)
Definition clone (h : buffers) (factors : list nat) : buffers * list nat :=
  (h ++ contents h factors, seq (length h) (length factors)).

(** The factor buffers of a model are overwritten in place. *)
Fixpoint write_back (h : buffers) (factors : list nat) (new : list (list Q))
    : buffers :=
  match factors, new with
  | a :: factors', b :: new' => write_back (<[a := b]> h) factors' new'
  | _, _ => h
  end.

(** Modelled from the spec: the three ways the loop stops. *)
Inductive stop_reason := CONVERGED | TIMED_OUT | MAX_ITERS_REACHED.

(** Modelled from the spec: the budgets of the workspace that the loop
    consults; a disabled time-out is [None]. *)
Record loop_budget := {
  lb_max_its : Z;
  lb_tolerance : Q;
  lb_max_seconds : option Q
}.

(** Modelled from the spec: the loop's state, with the best-model slot
    ([None] before the first improvement), its score and epoch, and the
    count of consecutive epochs without improvement. *)
Record loop_state := {
  ls_store : buffers;
  ls_live : list nat;
  ls_best_model : option (list nat);
  ls_best_score : score;
  ls_best_epoch : nat;
  ls_stalled : nat
}.

Section TrainingLoop.

(** One pass over the training set, as a map on the live factor values; the
    validation RMSE of given factor values; the wall-clock seconds elapsed
    after an epoch. *)
Variable update : nat -> list (list Q) -> list (list Q).
Variable rmse : list (list Q) -> Q.
Variable elapsed : nat -> Q.

Variable budget : loop_budget.

(** Modelled from the spec: INIT resets the best score to +infinity and the
    best epoch to 0. *)
Definition loop_init (h : buffers) (live : list nat) : loop_state :=
  {| ls_store := h; ls_live := live; ls_best_model := None;
     ls_best_score := Infinite; ls_best_epoch := 0; ls_stalled := 0 |}.

(** Modelled from the spec: EPOCH_RUNNING updates the live model in place. *)
Definition run_epoch (e : nat) (st : loop_state) : loop_state :=
  {| ls_store := write_back (ls_store st) (ls_live st)
                   (update e (contents (ls_store st) (ls_live st)));
     ls_live := ls_live st;
     ls_best_model := ls_best_model st;
     ls_best_score := ls_best_score st;
     ls_best_epoch := ls_best_epoch st;
     ls_stalled := ls_stalled st |}.

(** The validation score after the epoch. *)
Definition validation (st : loop_state) : Q :=
  rmse (contents (ls_store st) (ls_live st)).

(** Modelled from the spec: VALIDATING.  "If it improves on best_score -
    tolerance, transition to IMPROVED: clone the live model into the best
    slot, record the epoch.  Otherwise transition to STALLED: increment a
    stall counter." *)
Definition validate_epoch (e : nat) (st : loop_state) : loop_state :=
  let v := validation st in
  if improves v (ls_best_score st) (lb_tolerance budget) then
    let '(h, copy) := clone (ls_store st) (ls_live st) in
    {| ls_store := h; ls_live := ls_live st; ls_best_model := Some copy;
       ls_best_score := Finite v; ls_best_epoch := e; ls_stalled := 0 |}
  else
    {| ls_store := ls_store st; ls_live := ls_live st;
       ls_best_model := ls_best_model st;
       ls_best_score := ls_best_score st;
       ls_best_epoch := ls_best_epoch st;
       ls_stalled := S (ls_stalled st) |}.

Definition epoch_step (e : nat) (st : loop_state) : loop_state :=
  validate_epoch e (run_epoch e st).

(** Modelled from the spec: CONVERGED after 20 consecutive epochs without
    improvement; TIMED_OUT when the elapsed time exceeds an enabled
    [max_seconds]; MAX_ITERS_REACHED when [max_its] is nonzero and the epoch
    count reaches it. *)
Definition stop_check (e : nat) (st : loop_state) : option stop_reason :=
  if (20 <=? ls_stalled st)%nat then Some CONVERGED
  else if match lb_max_seconds budget with
          | Some limit => negb (Qle_bool (elapsed e) limit)
          | None => false
          end then Some TIMED_OUT
  else if negb (lb_max_its budget =? 0) && (lb_max_its budget <=? Z.of_nat e)
  then Some MAX_ITERS_REACHED
  else None.

(** The loop from epoch [e] on; [fuel] bounds the number of epochs the
    model follows. *)
Fixpoint train_from (fuel : nat) (e : nat) (st : loop_state)
    : option (loop_state * nat * stop_reason) :=
  match fuel with
  | O => None
  | S fuel' =>
      let st' := epoch_step e st in
      match stop_check e st' with
      | Some why => Some (st', e, why)
      | None => train_from fuel' (S e) st'
      end
  end.

Definition train (fuel : nat) (h : buffers) (live : list nat)
    : option (loop_state * nat * stop_reason) :=
  train_from fuel 1 (loop_init h live).

(** The state after [n] epochs of a loop that is not stopped. *)
Fixpoint state_after (n : nat) (h : buffers) (live : list nat) : loop_state :=
  match n with
  | O => loop_init h live
  | S k => epoch_step (S k) (state_after k h live)
  end.

End TrainingLoop.

(** ** Predicates of the statements *)

(** The names [parse_tc_alg] knows. *)
Definition alg_names : list string :=
  ["gd"; "lbfgs"; "cg"; "nlcg"; "sgd"; "als"; "ccd"]%string.

(** [quiet P c]: [c] extends the trace, and only by events that satisfy
    [P]. *)
Definition quiet {A} (P : event -> Prop) (c : M A) : Prop :=
  forall tr, exists more, fst (c tr) = tr ++ more /\ Forall P more.

(** [yields Q c]: whatever [c] returns satisfies [Q]. *)
Definition yields {A} (Q : A -> Prop) (c : M A) : Prop :=
  forall tr tr' a, c tr = (tr', inl a) -> Q a.

(** What the option parser can emit. *)
Definition parse_event (e : event) : Prop :=
  match e with
  | EvStderr _ | EvUsage | EvOmpSetThreads _ | EvVerbose => True
  | _ => False
  end.

(** The event is not the writing of a factor matrix. *)
Definition not_mat_write (e : event) : Prop :=
  match e with
  | EvMatWrite _ _ _ _ => False
  | _ => True
  end.

(** The event is not a training run. *)
Definition not_training (e : event) : Prop :=
  match e with
  | EvTrain _ => False
  | _ => True
  end.

(** The event is not the validation report. *)
Definition not_validation (e : event) : Prop :=
  match e with
  | EvValidation _ _ _ _ => False
  | _ => True
  end.

(** Every row of [ind'] is the row of [ind] at the same place, changed by
    [f]. *)
Definition rows_updated (f : nat -> list Z -> list Z) (ind ind' : list (list Z))
    : Prop :=
  length ind' = length ind /\
  forall j row, ind !! j = Some row -> ind' !! j = Some (f j row).

(** Every row has [N] cells. *)
Definition rows_len (N : nat) (ind : list (list Z)) : Prop :=
  forall j row, ind !! j = Some row -> length row = N.

(** A tensor with room for [N] entries of [nmodes] modes. *)
Definition tensor_shape (N nmodes : nat) (v : sptensor_t) : Prop :=
  tt_nnz v = Z.of_nat N /\ length (tt_ind v) = nmodes /\
  rows_len N (tt_ind v) /\ length (tt_vals v) = N.

(** The live model stays where it is, inside the storage. *)
Definition live_in_store (st : loop_state) : Prop :=
  Forall (fun a => (a < length (ls_store st))%nat) (ls_live st).

(** The best-model copy shares no buffer with the live model. *)
Definition best_separate (st : loop_state) : Prop :=
  forall copy a, ls_best_model st = Some copy -> In a copy -> ~ In a (ls_live st).

(** The arguments the parser was given for the option [key], in the order
    of the command line, each as the parser reads it. *)
Definition option_values (key : Z) (calls : list (Z * option string))
    : list (option string) :=
  map (fun c => skip_equals (snd c)) (List.filter (fun c => fst c =? key) calls).

(** The positional arguments of a command line. *)
Definition positional : list (Z * option string) -> list (option string) :=
  option_values ARGP_KEY_ARG.

(** The option [key] occurs on the command line. *)
Definition occurs (key : Z) (calls : list (Z * option string)) : bool :=
  existsb (fun c => fst c =? key) calls.

(** What the last occurrence of the option [key] gives, read by [read];
    [dflt] without an occurrence. *)
Definition last_value {A} (key : Z) (read : string -> A) (dflt : A)
    (calls : list (Z * option string)) : A :=
  match last (option_values key calls) with
  | Some (Some a) => read a
  | _ => dflt
  end.

(** The file names are stored in the order given, the rest of [ifnames] is
    null. *)
Definition files_stored (files : list (option string)) (args : tc_cmd_args) : Prop :=
  (length files <= 3)%nat /\ nfiles args = Z.of_nat (length files) /\
  ifnames args = files ++ replicate (3 - length files) None.

(** Every field an option sets holds what the last occurrence of the option
    on the command line [calls] gave, or its default. *)
Definition parsed_fields (idx_bits : positive) (atof : string -> float)
    (strtod : string -> float * string) (omp_get_max_threads time_now : Z)
    (args0 : tc_cmd_args) (calls : list (Z * option string)) (args : tc_cmd_args)
    : Prop :=
  max_its args = last_value key_i (fun a => idx_wrap idx_bits (fst (strtoull a))) 0 calls /\
  nthreads args = last_value key_t (fun a => idx_wrap idx_bits (fst (strtoull a)))
                    (idx_wrap idx_bits omp_get_max_threads) calls /\
  nfactors args = last_value key_r (fun a => idx_wrap idx_bits (fst (strtoull a))) 10 calls /\
  which_alg args = last_value key_a parse_tc_alg SPLATT_TC_SGD calls /\
  learn_rate args = last_value key_s (fun a => fst (strtod a)) (-1)%float calls /\
  reg args = last_value TC_REG (fun a => fst (strtod a)) (-1)%float calls /\
  seed args = last_value TC_SEED (fun a => to_uint (atoi a)) (to_uint time_now) calls /\
  max_seconds args = last_value TC_TIME atof (max_seconds args0) calls /\
  tolerance args = last_value TC_TOL atof (tolerance args0) calls /\
  folds args = last_value TC_FOLD (fun a => idx_wrap idx_bits (atoi a)) 1 calls /\
  set_seed args = occurs TC_SEED calls /\
  rand_per_iteration args = negb (occurs TC_NORAND_PER_ITERATION calls) /\
  hogwild args = occurs TC_HOGWILD calls.

(** The event is not the error message of the [default:] case of the
    [switch] on the algorithm. *)
Definition not_switch_error (e : event) : Prop :=
  e <> EvStderr "SPLATT: unknown completion algorithm".

(** What only the first worker prints in a build with MPI. *)
Definition root_only (e : event) : Prop :=
  match e with
  | EvHeader | EvStats _ | EvConfig _ _ | EvValidation _ _ _ _ => True
  | EvAlg alg => alg = SPLATT_TC_SGD
  | _ => False
  end.

(** Every header the run prints satisfies [Q]. *)
Definition config_event (Q : tc_ws -> tc_cmd_args -> Prop) (e : event) : Prop :=
  match e with
  | EvConfig ws args => Q ws args
  | _ => True
  end.

(** The training runs of a trace, by their algorithm. *)
Fixpoint training_runs (tr : list event) : list splatt_tc_type :=
  match tr with
  | [] => []
  | EvTrain alg :: rest => alg :: training_runs rest
  | _ :: rest => training_runs rest
  end.

(** The data lines of a file. *)
Definition data_lines (fin : file) : file := List.filter is_data_line fin.

(** The largest 1-based index of mode [m] on the data lines of a file, as
    [tt_get_layer_dims] reads it. *)
Definition dims_seen (idx_bits : positive) (m : nat) (fin : file) : Z :=
  max_of (map (fun line => idx_wrap idx_bits (line_index idx_bits m line + 1))
              (data_lines fin)).

(** Every cell of [d'] is the cell of [d] at the same place, changed by
    [f]. *)
Definition cells_updated (f : nat -> Z -> Z) (d d' : list Z) : Prop :=
  length d' = length d /\
  forall j x, d !! j = Some x -> d' !! j = Some (f j x).

(** The workers' layers lie side by side from [lo] to [hi]: each starts
    where the one before it ends. *)
Fixpoint tiles (lo : Z) (workers : list rank_info) (hi : Z) : Prop :=
  match workers with
  | [] => lo = hi
  | r :: rest =>
      layer_start r = lo /\ lo <= layer_end r /\ tiles (layer_end r) rest hi
  end.

(** The data lines whose 0-based mode-0 index lies in [lo .. hi - 1]. *)
Definition entries_between (idx_bits : positive) (lo hi : Z) (fin : file)
    : list string :=
  List.filter
    (fun line => is_data_line line
                 && (lo <=? line_index idx_bits 0 line)
                 && (line_index idx_bits 0 line <? hi)) fin.

(** Every character of the text satisfies [p]. *)
Fixpoint all_chars (p : ascii -> bool) (s : string) : bool :=
  match s with
  | EmptyString => true
  | String c s' => p c && all_chars p s'
  end.

(** A run of blanks and tabs; a field, which is a non-empty run of other
    characters. *)
Definition blanks (s : string) : Prop := all_chars is_delim s = true.

Definition field (s : string) : Prop :=
  s <> EmptyString /\ all_chars (fun c => negb (is_delim c)) s = true.

(** [fields n s]: the text [s] consists of [n] fields, separated by blanks
    and tabs, with any blanks before the first and after the last. *)
Inductive fields : nat -> string -> Prop :=
| fields_none (b : string) : blanks b -> fields 0 b
| fields_last (b t : string) : blanks b -> field t -> fields 1 (b ++ t)
| fields_more (n : nat) (b t : string) (c : ascii) (rest : string) :
    blanks b -> field t -> is_delim c = true -> fields n rest ->
    fields (S n) (b ++ t ++ String c rest).

(** The modes from [m] on, [k] of them; the modes [0 .. nmodes - 1]. *)
Definition modes_from (m : Z) (k : nat) : list Z :=
  map (fun i => m + Z.of_nat i) (seq 0 k).

Definition modes (nmodes : Z) : list Z := modes_from 0 (Z.to_nat nmodes).

(** The calls of [ttm_splatt] in a log, by their mode. *)
Fixpoint ttm_calls (log : list tucker_event) : list Z :=
  match log with
  | [] => []
  | TkTtm m _ :: rest => m :: ttm_calls rest
  | _ :: rest => ttm_calls rest
  end.

(** The progress lines of a log: iteration, fit, change of fit. *)
Fixpoint progress_lines (log : list tucker_event) : list (Z * float * float) :=
  match log with
  | [] => []
  | TkProgress its fit delta :: rest => (its, fit, delta) :: progress_lines rest
  | _ :: rest => progress_lines rest
  end.

(** The event releases storage. *)
Definition is_free (e : tucker_event) : bool :=
  match e with
  | TkFreeGten | TkFreeMat _ | TkFreeCore | TkFreeFactor _ => true
  | _ => false
  end.

(** What one iteration of [splatt_tucker_als] asks for: the products of all
    modes in turn, then the progress lines the verbosity calls for. *)
Definition iteration_log (idx_bits : positive)
    (SPLATT_VERBOSITY_NONE SPLATT_VERBOSITY_LOW : float)
    (nmodes nthreads : Z) (verbosity fit oldfit : float) (it : Z)
    : list tucker_event :=
  map (fun j => TkTtm j nthreads) (modes nmodes)
  ++ (if PrimFloat.ltb SPLATT_VERBOSITY_NONE verbosity
      then TkProgress (idx_wrap idx_bits (it + 1)) fit (PrimFloat.sub fit oldfit)
           :: (if PrimFloat.ltb SPLATT_VERBOSITY_LOW verbosity
               then map (fun j => TkModeTime (idx_wrap idx_bits (j + 1))) (modes nmodes)
               else [])
      else []).

(** The inputs with which [splatt_tucker_als] stays inside its arrays. *)
Definition tucker_inputs_fit (MAX_NMODES : Z)
    (SPLATT_OPTION_NTHREADS SPLATT_OPTION_NITER SPLATT_OPTION_VERBOSITY : Z)
    (nfactors : list Z) (nmodes : Z) (tdims : list Z)
    (options : list float) (factored : splatt_tucker_t) (mats0 : list (option Z))
    : Prop :=
  0 <= nmodes <= MAX_NMODES /\
  (Z.to_nat nmodes <= length nfactors)%nat /\
  (Z.to_nat nmodes <= length tdims)%nat /\
  (Z.to_nat nmodes <= length (tk_rank factored))%nat /\
  (Z.to_nat nmodes <= length (tk_factors factored))%nat /\
  (Z.to_nat nmodes <= length mats0)%nat /\
  is_Some (load options SPLATT_OPTION_NTHREADS) /\
  is_Some (load options SPLATT_OPTION_NITER) /\
  is_Some (load options SPLATT_OPTION_VERBOSITY).

(** ** Sample inputs

    Small concrete inputs on which the model is run: a validation file of
    four entries, stand-ins for the readers and for the completion library,
    and command lines. *)

(** A stand-in for [strtod] that reads an unsigned decimal integer. *)
Definition sample_strtod (s : string) : float * string :=
  let '(x, rest) := strtoull s in (PrimFloat.of_uint63 (Uint63.of_Z x), rest).

Definition sample_atof (s : string) : float := fst (sample_strtod s).

Definition text_line (s : string) : string := s ++ newline.

Definition sample_validate : file :=
  [ text_line "# validation entries";
    text_line "1 1 1 5";
    text_line "2 3 1 4";
    text_line "";
    text_line "3 2 2 3";
    "4 1 2 1"%string ].

Definition sample_tensor : sptensor_t :=
  {| tt_nmodes := 3; tt_nnz := 2; tt_dims := [4; 3; 2];
     tt_ind := [[0; 1]; [0; 2]; [0; 0]];
     tt_vals := [5%float; 4%float] |}.

(** What the storage of the locals may hold on entry. *)
Definition sample_args0 : tc_cmd_args :=
  {| ifnames := [Some "x"%string; None; None]; nfiles := 7; set_seed := true;
     seed := 9; which_alg := SPLATT_TC_NALGS; write := true;
     learn_rate := 3%float; reg := 3%float; set_tolerance := true;
     tolerance := 3%float; max_its := 9; set_timeout := true;
     max_seconds := 3%float; nfactors := 9; nthreads := 9;
     rand_per_iteration := false; hogwild := true; folds := 9 |}.

Definition sample_rinfo0 : rank_info :=
  {| ri_rank := 5; ri_npes := 5; ri_decomp := SPLATT_DECOMP_FINE;
     ri_dims_3d := replicate 8 5; ri_layer_starts := replicate 8 5;
     ri_layer_ends := replicate 8 5 |}.

Definition sample_dims0 : list Z := replicate 8 5.

(** The file system: a training and a validation tensor, no test tensor. *)
Definition sample_tt_read (name : string) : option sptensor_t :=
  if streq name "train.tns" || streq name "validate.tns"
  then Some sample_tensor else None.

Definition sample_fopen (name : string) : option file :=
  if streq name "validate.tns" then Some sample_validate else None.

(** [mpi_tt_read] for a worker whose layer of mode 0 is [lo .. hi - 1]. *)
Definition sample_mpi_tt_read (lo hi : Z) (name : string) (rinfo : rank_info)
    : option sptensor_t * rank_info :=
  (if streq name "train.tns" then Some sample_tensor else None,
   {| ri_rank := ri_rank rinfo; ri_npes := ri_npes rinfo;
      ri_decomp := ri_decomp rinfo; ri_dims_3d := ri_dims_3d rinfo;
      ri_layer_starts := <[0%nat := lo]> (ri_layer_starts rinfo);
      ri_layer_ends := hi :: replicate 7 0 |}).

Definition sample_model_alloc (t : sptensor_t) (rank : Z) (alg : splatt_tc_type)
    : tc_model :=
  {| model_rank := rank; model_nmodes := tt_nmodes t; model_dims := tt_dims t;
     model_factors :=
       map (fun d => replicate (Z.to_nat (d * rank)) 1%float) (tt_dims t) |}.

Definition sample_ws_alloc (t : sptensor_t) (m : tc_model) (nthreads : Z) : tc_ws :=
  {| ws_learn_rate := 0.5%float; ws_regularization := replicate 8 0.25%float;
     ws_max_its := 500; ws_max_seconds := 1000%float;
     ws_tolerance := 0.125%float; ws_rand_per_iteration := true;
     ws_hogwild := false; ws_folds := 1; ws_nthreads := nthreads;
     ws_best_model := None; ws_best_rmse := infinity; ws_best_epoch := 0;
     ws_rinfo := None; ws_global_validate_nnz := 0 |}.

(** A training routine that leaves the model and the workspace alone. *)
Definition sample_train (t v : sptensor_t) (m : tc_model) (w : tc_ws)
    : tc_model * tc_ws := (m, w).

Definition sample_error (t : sptensor_t) (m : option tc_model) (w : tc_ws) : val_t :=
  0%float.

(** The layer of worker [0] and of worker [1] of two. *)
Definition sample_layer (lo hi : Z) : rank_info :=
  snd (sample_mpi_tt_read lo hi "train.tns" (init_rank_info 8 sample_rinfo0)).

(** The entries a worker counts in its layer of the sample file. *)
Definition sample_local_nnz (lo hi : Z) : Z :=
  match load_validate_layer 64 8 sample_strtod sample_validate sample_dims0
          (sample_layer lo hi) with
  | Loaded validate => tt_nnz validate
  | _ => 0
  end.

(** One worker of two, with the layer [lo .. hi - 1]; the other worker
    contributes [other] to a reduction. *)
Definition sample_mpi_run (rank lo hi other : Z) (calls : list (Z * option string))
    : list event * ending :=
  run_tc_cmd 64 8 true sample_atof sample_strtod 4 0 rank 2
    (fun mine => allreduce_sum 64 [mine; other])
    sample_fopen sample_tt_read (sample_mpi_tt_read lo hi)
    sample_model_alloc sample_ws_alloc
    sample_train sample_train sample_train sample_train sample_train sample_train
    sample_error sample_error calls sample_args0 sample_rinfo0 sample_dims0.

(** A run without MPI. *)
Definition sample_run (calls : list (Z * option string)) : list event * ending :=
  run_tc_cmd 64 8 false sample_atof sample_strtod 4 0 0 1 (fun mine => mine)
    sample_fopen sample_tt_read (sample_mpi_tt_read 0 4)
    sample_model_alloc sample_ws_alloc
    sample_train sample_train sample_train sample_train sample_train sample_train
    sample_error sample_error calls sample_args0 sample_rinfo0 sample_dims0.

(** [splatt complete train.tns validate.tns], with further options first. *)
Definition sample_calls (options : list (Z * option string))
    : list (Z * option string) :=
  options ++ [ (ARGP_KEY_ARG, Some "train.tns"%string);
               (ARGP_KEY_ARG, Some "validate.tns"%string);
               (ARGP_KEY_END, None) ].

(** The same with a test file that does not exist. *)
Definition sample_calls_test : list (Z * option string) :=
  [ (ARGP_KEY_ARG, Some "train.tns"%string);
    (ARGP_KEY_ARG, Some "validate.tns"%string);
    (ARGP_KEY_ARG, Some "test.tns"%string);
    (ARGP_KEY_END, None) ].

(** A loop whose validation score is 1 after the first epoch and 3/2 after
    every later one. *)
Definition sample_update (e : nat) (factors : list (list Q)) : list (list Q) :=
  [[inject_Z (Z.of_nat e)]].

Definition sample_rmse (factors : list (list Q)) : Q :=
  match factors with
  | [[x]] => if Qeq_bool x 1 then 1 else 3 # 2
  | _ => 0
  end.

Definition sample_elapsed (e : nat) : Q := inject_Z (Z.of_nat e).

(** One factor buffer of one value, which is the live model. *)
Definition sample_store : list (list Q) := [[0%Q]].
Definition sample_live : list nat := [0%nat].

Definition sample_budget (tolerance : Q) (max_its : Z) : loop_budget :=
  {| lb_max_its := max_its; lb_tolerance := tolerance; lb_max_seconds := None |}.

(** The arguments after [-i 50 --time 3 train.tns validate.tns]. *)
Definition sample_options : list (Z * option string) :=
  [ (key_i, Some "50"%string); (TC_TIME, Some "3"%string) ].

(** Three file names, the second written with a leading [=]. *)
Definition sample_files : list (Z * option string) :=
  [ (ARGP_KEY_ARG, Some "train.tns"%string);
    (ARGP_KEY_ARG, Some "=validate.tns"%string);
    (ARGP_KEY_ARG, Some "test.tns"%string) ].

(** [-i 5 --seed 7 -i=50] *)
Definition sample_repeated : list (Z * option string) :=
  [ (key_i, Some "5"%string); (TC_SEED, Some "7"%string);
    (key_i, Some "=50"%string) ].

(** A run without MPI at the time [t]. *)
Definition sample_run_at (t : Z) (calls : list (Z * option string))
    : list event * ending :=
  run_tc_cmd 64 8 false sample_atof sample_strtod 4 t 0 1 (fun mine => mine)
    sample_fopen sample_tt_read (sample_mpi_tt_read 0 4)
    sample_model_alloc sample_ws_alloc
    sample_train sample_train sample_train sample_train sample_train sample_train
    sample_error sample_error calls sample_args0 sample_rinfo0 sample_dims0.

(** A file of comments and empty lines. *)
Definition sample_no_data : file :=
  [ text_line "# nothing but a comment"; newline ].

(** The inputs of a Tucker decomposition of a 4 x 3 x 2 tensor with ranks
    2, 3 and 4: two threads, two iterations, verbosity 1, with the options
    at the places 0, 1 and 2. *)
Fixpoint sample_floor (k : nat) (n : Z) (x : float) : Z :=
  match k with
  | O => n
  | S k' =>
      if PrimFloat.ltb x (PrimFloat.of_uint63 (Uint63.of_Z (n + 1))) then n
      else sample_floor k' (n + 1) x
  end.

(** A stand-in for the conversion [(idx_t) x], for [0 <= x < 17]. *)
Definition sample_idx_of_double (x : float) : Z := sample_floor 16 0 x.

Definition sample_options_tucker : list float := [2%float; 2%float; 1%float].

Definition sample_factored : splatt_tucker_t :=
  {| tk_nmodes := 0; tk_rank := replicate 8 7; tk_core := None;
     tk_factors := replicate 8 None |}.

Definition sample_tucker_als (nmodes : Z)
    : option (list tucker_event * splatt_tucker_t) :=
  splatt_tucker_als 64 8 8 64 sample_idx_of_double 0 1 2 0%float 1%float
    [2; 3; 4; 5; 6; 7; 8; 9; 10] nmodes [4; 3; 2; 2; 2; 2; 2; 2; 2]
    sample_options_tucker sample_factored (replicate 9 None).

(** [splatt complete missing.tns validate.tns]: there is no such training
    file. *)
Definition sample_calls_missing : list (Z * option string) :=
  [ (ARGP_KEY_ARG, Some "missing.tns"%string);
    (ARGP_KEY_ARG, Some "validate.tns"%string);
    (ARGP_KEY_END, None) ].

(** A file system in which every file opens and has no data line. *)
Definition sample_fopen_no_data (name : string) : option file :=
  Some sample_no_data.

(** [-s 2 --reg 3], and [-s 2] alone. *)
Definition sample_overrides : list (Z * option string) :=
  [ (key_s, Some "2"%string); (TC_REG, Some "3"%string) ].

Definition sample_step_only : list (Z * option string) :=
  [ (key_s, Some "2"%string) ].

(* ===================================================================== *)
(** * Properties *)

(** ** Index arithmetic *)

Lemma idx_modulus_pos idx_bits : 0 < idx_modulus idx_bits.
Proof. unfold idx_modulus. apply Z.pow_pos_nonneg; lia. Qed.

Lemma idx_wrap_range idx_bits z : 0 <= idx_wrap idx_bits z < idx_modulus idx_bits.
Proof. apply Z.mod_pos_bound, idx_modulus_pos. Qed.

Lemma idx_wrap_small idx_bits z :
  0 <= z < idx_modulus idx_bits -> idx_wrap idx_bits z = z.
Proof. apply Z.mod_small. Qed.

Lemma idx_wrap_mul_l idx_bits a b :
  idx_wrap idx_bits (idx_wrap idx_bits a * b) = idx_wrap idx_bits (a * b).
Proof. unfold idx_wrap. apply Zmult_mod_idemp_l. Qed.

Lemma idx_wrap_mul_r idx_bits a b :
  idx_wrap idx_bits (a * idx_wrap idx_bits b) = idx_wrap idx_bits (a * b).
Proof. unfold idx_wrap. apply Zmult_mod_idemp_r. Qed.

Lemma SS_MAX_max x y : SS_MAX x y = Z.max x y.
Proof. unfold SS_MAX. destruct (Z.gtb_spec x y); lia. Qed.

(** ** The C library *)

Example strtoull_ex1 : strtoull "12 7 3.5" = (12, " 7 3.5"%string).
Proof. reflexivity. Qed.
Example strtoull_ex2 : strtoull " 7 3.5" = (7, " 3.5"%string).
Proof. reflexivity. Qed.
Example strtoull_ex3 : strtoull "x" = (0, "x"%string).
Proof. reflexivity. Qed.
Example strtoull_ex4 : fst (strtoull "-1") = 2^64 - 1.
Proof. reflexivity. Qed.
Example count_tokens_ex1 : count_tokens "1 2	3 4.5" = 4.
Proof. reflexivity. Qed.
Example atoi_ex : atoi "-12x" = -12 /\ atoi "4294967297" = 1.
Proof. split; reflexivity. Qed.
Example is_data_ex : is_data_line "# c" = false /\ is_data_line "1 1 1" = true.
Proof. split; reflexivity. Qed.

(** ** Array cells *)

(** Case analysis on every comparison of naturals of the goal. *)
Ltac nbool :=
  repeat match goal with
         | |- context [Nat.leb ?a ?b] => destruct (Nat.leb_spec a b)
         | |- context [Nat.ltb ?a ?b] => destruct (Nat.ltb_spec a b)
         | |- context [Nat.eqb ?a ?b] => destruct (Nat.eqb_spec a b)
         end.

(** Case analysis on every integer comparison of the goal. *)
Ltac zbool :=
  repeat match goal with
         | |- context [?a <=? ?b] => destruct (Z.leb_spec a b)
         | |- context [?a <? ?b] => destruct (Z.ltb_spec a b)
         | |- context [?a >? ?b] => destruct (Z.gtb_spec a b)
         | |- context [?a >=? ?b] => destruct (Z.geb_spec a b)
         | |- context [?a =? ?b] => destruct (Z.eqb_spec a b)
         end.

Lemma store_Some {A} (a a' : list A) (i : Z) (v : A) :
  store a i v = Some a' <->
  0 <= i < Z.of_nat (length a) /\ a' = <[Z.to_nat i := v]> a.
Proof.
  unfold store. destruct (Z.leb_spec 0 i) as [L|L],
    (Z.ltb_spec i (Z.of_nat (length a))) as [U|U];
    simpl; split; intros E; try discriminate; try lia.
  - inversion E. split; [lia | reflexivity].
  - destruct E as [_ ->]. reflexivity.
Qed.

Lemma store_in_range {A} (a : list A) (i : Z) (v : A) :
  0 <= i < Z.of_nat (length a) -> store a i v = Some (<[Z.to_nat i := v]> a).
Proof. intros H. apply store_Some. auto. Qed.

Lemma store_length {A} (a a' : list A) (i : Z) (v : A) :
  store a i v = Some a' -> length a' = length a.
Proof. intros H. apply store_Some in H as [_ ->]. apply length_insert. Qed.

Lemma load_store {A} (a a' : list A) (i j : Z) (v : A) :
  store a i v = Some a' ->
  load a' j = if j =? i then Some v else load a j.
Proof.
  intros H. apply store_Some in H as [Hi ->]. unfold load.
  destruct (Z.eqb_spec j i) as [->|Hne].
  - destruct (Z.leb_spec 0 i); [|lia].
    apply list_lookup_insert_eq. lia.
  - destruct (Z.leb_spec 0 j); [|reflexivity].
    apply list_lookup_insert_ne. lia.
Qed.

(** ** [__max_tensize] *)

Lemma fold_left_SS_MAX (h : nat -> Z) (l : list nat) (acc : Z) :
  fold_left (fun maxdim m => SS_MAX maxdim (h m)) l acc
  = Z.max acc (fold_right Z.max 0 (map h l)) \/
  (fold_left (fun maxdim m => SS_MAX maxdim (h m)) l acc = acc /\
   fold_right Z.max 0 (map h l) <= acc) \/ acc < 0.
Proof.
  revert acc. induction l as [|m l IH]; intros acc; simpl.
  - destruct (Z.le_gt_cases 0 acc); [left; lia | right; right; lia].
  - rewrite SS_MAX_max.
    destruct (IH (Z.max acc (h m))) as [E | [[E Hle] | Hneg]].
    + left. rewrite E. lia.
    + left. rewrite E. lia.
    + right. right. lia.
Qed.

Lemma max_of_nonneg l : 0 <= max_of l.
Proof. induction l; simpl; lia. Qed.

Lemma fold_left_SS_MAX_0 (h : nat -> Z) (l : list nat) :
  fold_left (fun maxdim m => SS_MAX maxdim (h m)) l 0 = max_of (map h l).
Proof.
  pose proof (max_of_nonneg (map h l)) as Hn. unfold max_of in *.
  destruct (fold_left_SS_MAX h l 0) as [E | [[E Hle] | Hneg]]; lia.
Qed.

(** The running product of the inner loop, as a product over a list. *)
Lemma ncols_fold idx_bits (g : nat -> Z) (m : nat) (l : list nat) (acc : Z) :
  is_idx idx_bits acc ->
  let r := fold_left
      (fun ncols m2 => if Nat.eqb m m2 then ncols
                       else idx_wrap idx_bits (ncols * g m2)) l acc in
  is_idx idx_bits r /\
  idx_wrap idx_bits r
  = idx_wrap idx_bits
      (acc * fold_right Z.mul 1 (map (fun m2 => if Nat.eqb m m2 then 1 else g m2) l)).
Proof.
  revert acc. induction l as [|m2 l IH]; intros acc Hacc; simpl.
  - split; [exact Hacc|]. f_equal. lia.
  - destruct (Nat.eqb m m2).
    + destruct (IH acc Hacc) as [Hr E]. split; [exact Hr|].
      simpl in E. rewrite E. f_equal. lia.
    + destruct (IH (idx_wrap idx_bits (acc * g m2))) as [Hr E].
      { apply idx_wrap_range. }
      split; [exact Hr|]. simpl in E. rewrite E.
      rewrite idx_wrap_mul_l. f_equal. lia.
Qed.

Lemma one_is_idx idx_bits : is_idx idx_bits 1.
Proof.
  unfold is_idx, idx_modulus. split; [lia|].
  assert (2 ^ 1 <= 2 ^ Z.pos idx_bits) by (apply Z.pow_le_mono_r; lia). lia.
Qed.

Lemma map_skip_is_insert (nfactors : list Z) (m : nat) :
  map (fun m2 => if Nat.eqb m m2 then 1 else idx_at nfactors m2)
      (seq 0 (length nfactors))
  = if decide (m < length nfactors)%nat then <[m := 1]> nfactors else nfactors.
Proof.
  apply list_eq. intros i.
  rewrite list_lookup_fmap.
  destruct (decide (i < length nfactors)%nat) as [Hi|Hi].
  - rewrite lookup_seq_lt by exact Hi. simpl.
    destruct (lookup_lt_is_Some_2 nfactors i Hi) as [x Hx].
    destruct (Nat.eqb_spec m i) as [->|Hne].
    + rewrite decide_True by exact Hi.
      symmetry. apply list_lookup_insert_eq. exact Hi.
    + unfold idx_at. rewrite Hx. simpl.
      case_decide; [rewrite list_lookup_insert_ne by exact Hne|]; congruence.
  - rewrite lookup_seq_ge by lia. simpl. symmetry.
    case_decide; apply lookup_ge_None; rewrite ?length_insert; lia.
Qed.

Lemma prod_app (l1 l2 : list Z) :
  fold_right Z.mul 1 (l1 ++ l2) = fold_right Z.mul 1 l1 * fold_right Z.mul 1 l2.
Proof. induction l1 as [|x l1 IH]; simpl; [lia | rewrite IH; lia]. Qed.

Lemma ncols_prod_others idx_bits (nfactors : list Z) (m : nat) :
  (m < length nfactors)%nat ->
  let ncols := max_tensize_ncols idx_bits (length nfactors) nfactors m in
  is_idx idx_bits ncols /\
  idx_wrap idx_bits ncols = idx_wrap idx_bits (prod_others nfactors m).
Proof.
  intros Hm. unfold max_tensize_ncols.
  destruct (ncols_fold idx_bits (idx_at nfactors) m (seq 0 (length nfactors)) 1
              (one_is_idx idx_bits)) as [Hr E].
  split; [exact Hr|]. simpl in E. rewrite E.
  rewrite map_skip_is_insert, decide_True by exact Hm.
  rewrite insert_take_drop by exact Hm.
  unfold prod_others. rewrite !prod_app. simpl. f_equal.
  destruct (fold_right Z.mul 1 (take m nfactors)); lia.
Qed.

Lemma max_tensize_step idx_bits (nfactors tdims : list Z) (m : nat) :
  (m < length nfactors)%nat ->
  idx_wrap idx_bits
    (idx_at tdims m * max_tensize_ncols idx_bits (length nfactors) nfactors m)
  = idx_wrap idx_bits (ttm_size nfactors tdims m).
Proof.
  intros Hm. destruct (ncols_prod_others idx_bits nfactors m Hm) as [_ E].
  unfold ttm_size. rewrite <- idx_wrap_mul_r, E, idx_wrap_mul_r. reflexivity.
Qed.

Lemma max_tensize_wrapped idx_bits (nmodes : Z) (nfactors tdims : list Z) :
  length nfactors = Z.to_nat nmodes ->
  __max_tensize idx_bits nmodes nfactors tdims
  = max_ttm_size_wrapped idx_bits nmodes nfactors tdims.
Proof.
  intros Hlen. unfold __max_tensize, max_ttm_size_wrapped.
  rewrite fold_left_SS_MAX_0. f_equal.
  apply map_ext_in. intros m Hin. apply in_seq in Hin.
  rewrite <- Hlen. apply max_tensize_step. lia.
Qed.

(** C10, as the code has it.  [__max_tensize] returns the largest, over the
    modes, of the size [tdims[m]] times the [nfactors] of the other modes
    reduced to [idx_t]; where each of these sizes fits [idx_t], that is the
    largest of the sizes themselves. *)
Theorem max_tensize_wrapped_max idx_bits (nmodes : Z) (nfactors tdims : list Z) :
  1 <= nmodes ->
  length nfactors = Z.to_nat nmodes -> length tdims = Z.to_nat nmodes ->
  __max_tensize idx_bits nmodes nfactors tdims
  = max_ttm_size_wrapped idx_bits nmodes nfactors tdims /\
  ((forall m, (m < Z.to_nat nmodes)%nat ->
              is_idx idx_bits (ttm_size nfactors tdims m)) ->
   __max_tensize idx_bits nmodes nfactors tdims
   = max_ttm_size nmodes nfactors tdims).
Proof.
  intros Hn Hf Ht. split; [apply max_tensize_wrapped; exact Hf|].
  intros Hfit. rewrite max_tensize_wrapped by exact Hf.
  unfold max_ttm_size_wrapped, max_ttm_size. f_equal.
  apply map_ext_in. intros m Hm. apply in_seq in Hm.
  apply idx_wrap_small, Hfit. lia.
Qed.

(** ** The process monad *)

Lemma bind_inl {A B} (c : M A) (k : A -> M B) tr tr' a :
  c tr = (tr', inl a) -> bind c k tr = k a tr'.
Proof. unfold bind. intros ->. reflexivity. Qed.

Lemma bind_inr {A B} (c : M A) (k : A -> M B) tr tr' e :
  c tr = (tr', inr e) -> bind c k tr = (tr', inr e).
Proof. unfold bind. intros ->. reflexivity. Qed.

(** ** Events a computation produces *)

Lemma quiet_ret {A} P (a : A) : quiet P (ret a).
Proof. intros tr. exists []. simpl. rewrite app_nil_r. auto. Qed.

Lemma quiet_finish {A} P e : quiet P (@finish A e).
Proof. intros tr. exists []. simpl. rewrite app_nil_r. auto. Qed.

Lemma quiet_defined {A} P (o : option A) : quiet P (defined o).
Proof. destruct o; [apply quiet_ret | apply quiet_finish]. Qed.

Lemma quiet_emit (P : event -> Prop) e : P e -> quiet P (emit e).
Proof. intros He tr. exists [e]. simpl. auto. Qed.

Lemma quiet_bind_yields {A B} P (Q : A -> Prop) (c : M A) (k : A -> M B) :
  quiet P c -> yields Q c -> (forall a, Q a -> quiet P (k a)) ->
  quiet P (bind c k).
Proof.
  intros Hc HQ Hk tr. unfold bind. destruct (Hc tr) as (m1 & E1 & F1).
  destruct (c tr) as [tr' [a|e]] eqn:E; simpl in *; subst tr'.
  - destruct (Hk a (HQ _ _ _ E) (tr ++ m1)) as (m2 & E2 & F2).
    exists (m1 ++ m2). rewrite E2, app_assoc. split; [reflexivity|].
    apply Forall_app; auto.
  - exists m1. auto.
Qed.

Lemma quiet_bind {A B} P (c : M A) (k : A -> M B) :
  quiet P c -> (forall a, quiet P (k a)) -> quiet P (bind c k).
Proof.
  intros Hc Hk. apply (quiet_bind_yields P (fun _ => True)); auto.
  intros tr tr' a _. exact I.
Qed.

Lemma quiet_when P (b : bool) (body : M unit) :
  (b = true -> quiet P body) -> quiet P (when b body).
Proof. destruct b; simpl; intros H; [apply H; reflexivity | apply quiet_ret]. Qed.

Lemma quiet_argp_usage {A} (P : event -> Prop) : P EvUsage -> quiet P (@argp_usage A).
Proof.
  intros H. unfold argp_usage. apply quiet_bind; [apply quiet_emit; exact H|].
  intros _. apply quiet_finish.
Qed.

Lemma quiet_weaken {A} (P Q : event -> Prop) (c : M A) :
  (forall e, P e -> Q e) -> quiet P c -> quiet Q c.
Proof.
  intros HPQ Hc tr. destruct (Hc tr) as (m & E & F). exists m.
  split; [exact E|]. eapply Forall_impl; eauto.
Qed.

Ltac quiet_step :=
  first
    [ apply quiet_ret
    | apply quiet_finish
    | apply quiet_defined
    | apply quiet_argp_usage
    | apply quiet_emit
    | apply quiet_when; intros ?
    | apply quiet_bind; [|intros ?]
    | match goal with
      | |- quiet _ (if ?b then _ else _) => destruct b eqn:?
      | |- quiet _ (match ?x with _ => _ end) => destruct x eqn:?
      end ].

Lemma parse_tc_opt_quiet idx_bits atof strtod key arg args :
  quiet parse_event (parse_tc_opt idx_bits atof strtod key arg args).
Proof. unfold parse_tc_opt. repeat quiet_step; exact I. Qed.

Lemma argp_parse_quiet idx_bits atof strtod calls args :
  quiet parse_event (argp_parse idx_bits atof strtod calls args).
Proof.
  revert args. induction calls as [|[key arg] calls IH]; intros args; simpl.
  - apply quiet_ret.
  - apply quiet_bind; [apply parse_tc_opt_quiet | intros a; apply IH].
Qed.

(** ** [parse_tc_alg] *)

Lemma argp_parse_app idx_bits atof strtod pre post args tr tr' args' :
  argp_parse idx_bits atof strtod pre args tr = (tr', inl args') ->
  argp_parse idx_bits atof strtod (pre ++ post) args tr
  = argp_parse idx_bits atof strtod post args' tr'.
Proof.
  revert args tr. induction pre as [|[key arg] pre IH]; intros args tr H; simpl in *.
  - unfold ret in H. congruence.
  - unfold bind in *.
    destruct (parse_tc_opt idx_bits atof strtod key arg args tr) as [tr1 [a1|e1]].
    + apply IH. exact H.
    + discriminate.
Qed.

Lemma parse_tc_opt_unknown_alg idx_bits atof strtod a arg args tr :
  skip_equals (Some a) = Some arg ->
  parse_tc_alg arg = SPLATT_TC_NALGS ->
  parse_tc_opt idx_bits atof strtod key_a (Some a) args tr
  = (tr ++ [EvStderr ("SPLATT: unknown completion algorithm '" ++ arg ++ "'." ++ newline);
            EvUsage],
     inr UsageExit).
Proof.
  intros Harg Halg. unfold parse_tc_opt. rewrite Harg.
  change (key_a =? key_i) with false. change (key_a =? key_t) with false.
  change (key_a =? key_v) with false. change (key_a =? key_a) with true.
  cbv iota. unfold bind, defined, ret, when.
  assert (which_alg (with_which_alg (parse_tc_alg arg) args) = SPLATT_TC_NALGS) as ->.
  { destruct args. exact Halg. }
  rewrite bool_decide_eq_true_2 by reflexivity.
  unfold argp_usage, bind, emit, finish. simpl.
  rewrite <- app_assoc. reflexivity.
Qed.

(** C3.  [parse_tc_alg] maps each of the seven names of the table to its
    algorithm and every other string to the end marker [SPLATT_TC_NALGS],
    which is none of the algorithms; given such a string, the option parser
    writes the error and the usage message and the process exits, also
    inside [argp_parse]. *)
Theorem parse_tc_alg_closed_set (arg : string) :
  (arg = "gd"%string /\ parse_tc_alg arg = SPLATT_TC_GD) \/
  (arg = "lbfgs"%string /\ parse_tc_alg arg = SPLATT_TC_LBFGS) \/
  (arg = "cg"%string /\ parse_tc_alg arg = SPLATT_TC_NLCG) \/
  (arg = "nlcg"%string /\ parse_tc_alg arg = SPLATT_TC_NLCG) \/
  (arg = "sgd"%string /\ parse_tc_alg arg = SPLATT_TC_SGD) \/
  (arg = "als"%string /\ parse_tc_alg arg = SPLATT_TC_ALS) \/
  (arg = "ccd"%string /\ parse_tc_alg arg = SPLATT_TC_CCD) \/
  (~ In arg alg_names /\ parse_tc_alg arg = SPLATT_TC_NALGS /\
   forall idx_bits atof strtod a args tr,
     skip_equals (Some a) = Some arg ->
     parse_tc_opt idx_bits atof strtod key_a (Some a) args tr
     = (tr ++ [EvStderr ("SPLATT: unknown completion algorithm '" ++ arg
                         ++ "'." ++ newline); EvUsage],
        inr UsageExit) /\
     forall pre post args0 tr0,
       argp_parse idx_bits atof strtod pre args0 tr0 = (tr, inl args) ->
       snd (argp_parse idx_bits atof strtod (pre ++ (key_a, Some a) :: post) args0 tr0)
       = inr UsageExit).
Proof.
  unfold parse_tc_alg, maps, parse_tc_alg_from, streq.
  destruct (String.eqb_spec arg "gd") as [->|N1]; [tauto|].
  destruct (String.eqb_spec arg "lbfgs") as [->|N2]; [tauto|].
  destruct (String.eqb_spec arg "cg") as [->|N3]; [tauto|].
  destruct (String.eqb_spec arg "nlcg") as [->|N4]; [tauto|].
  destruct (String.eqb_spec arg "sgd") as [->|N5]; [tauto|].
  destruct (String.eqb_spec arg "als") as [->|N6]; [tauto|].
  destruct (String.eqb_spec arg "ccd") as [->|N7]; [tauto|].
  do 7 right. split; [|split; [reflexivity|]].
  - simpl. intuition congruence.
  - assert (parse_tc_alg arg = SPLATT_TC_NALGS) as Halg.
    { unfold parse_tc_alg, maps, parse_tc_alg_from, streq.
      repeat match goal with
             | |- context [String.eqb arg ?s] =>
                 destruct (String.eqb_spec arg s); [congruence|]
             end. reflexivity. }
    intros idx_bits atof strtod a args tr Ha. split.
    + apply parse_tc_opt_unknown_alg; assumption.
    + intros pre post args0 tr0 Hpre.
      rewrite (argp_parse_app _ _ _ _ _ _ _ _ _ Hpre). simpl.
      rewrite (bind_inr _ _ _ _ _ (parse_tc_opt_unknown_alg _ _ _ _ _ _ _ Ha Halg)).
      reflexivity.
Qed.

(** The end marker is not the default algorithm. *)
Lemma default_alg_is_sgd idx_bits omp time_now args0 :
  which_alg (default_tc_opts idx_bits omp time_now args0) = SPLATT_TC_SGD.
Proof. destruct args0. reflexivity. Qed.

(** ** The write flag *)

Ltac run_step :=
  unfold bind, defined, ret, when, argp_usage, emit, finish in *; simpl in *.

Lemma parse_tc_opt_write idx_bits atof strtod key arg args :
  write args = false ->
  yields (fun args' => write args' = false)
         (parse_tc_opt idx_bits atof strtod key arg args).
Proof.
  intros Hw tr tr' args' H. destruct args; simpl in Hw; subst.
  unfold parse_tc_opt in H.
  repeat match type of H with
         | context [if ?b then _ else _] => destruct b
         | context [match ?x with _ => _ end] => destruct x
         | _ => progress run_step
         end;
    try discriminate; inversion H; subst; reflexivity.
Qed.

Lemma argp_parse_write idx_bits atof strtod calls args :
  write args = false ->
  yields (fun args' => write args' = false)
         (argp_parse idx_bits atof strtod calls args).
Proof.
  revert args. induction calls as [|[key arg] calls IH]; intros args Hw tr tr' args' H.
  - inversion H. congruence.
  - simpl in H. unfold bind in H.
    destruct (parse_tc_opt idx_bits atof strtod key arg args tr) as [tr1 [a1|e1]] eqn:E;
      [|discriminate].
    eapply IH; [|exact H]. eapply parse_tc_opt_write; eauto.
Qed.

Lemma default_tc_opts_write idx_bits omp time_now args0 :
  write (default_tc_opts idx_bits omp time_now args0) = false.
Proof. destruct args0. reflexivity. Qed.

Lemma parse_event_not_mat_write e : parse_event e -> not_mat_write e.
Proof. destruct e; simpl; auto. Qed.

Lemma parse_event_not_training e : parse_event e -> not_training e.
Proof. destruct e; simpl; auto. Qed.

Lemma when_emit b e tr :
  when b (emit e) tr = (tr ++ (if b then [e] else []), inl tt).
Proof. destruct b; simpl; [reflexivity | rewrite app_nil_r; reflexivity]. Qed.

Lemma emit_run e tr : emit e tr = (tr ++ [e], inl tt).
Proof. reflexivity. Qed.

Lemma defined_Some {A} (a : A) tr : defined (Some a) tr = (tr, inl a).
Proof. reflexivity. Qed.

Lemma bind_snd {A B} (c : M A) (k : A -> M B) tr a :
  snd (c tr) = inl a -> bind c k tr = k a (fst (c tr)).
Proof. unfold bind. destruct (c tr) as [tr' r]. simpl. intros ->. reflexivity. Qed.

(** One step of a run whose result is known. *)
Ltac run_bind H := erewrite bind_inl; [| first [exact H | apply H]].

Lemma parse_tc_opt_alg idx_bits atof strtod key arg args :
  which_alg args <> SPLATT_TC_NALGS ->
  yields (fun args' => which_alg args' <> SPLATT_TC_NALGS)
         (parse_tc_opt idx_bits atof strtod key arg args).
Proof.
  intros Hw tr tr' args' H. destruct args; simpl in Hw.
  unfold parse_tc_opt in H.
  repeat match type of H with
         | context [if ?k =? ?c then _ else _] =>
             destruct (Z.eqb_spec k c); [subst key|]
         end;
    repeat match type of H with
           | _ => progress run_step
           | context [bool_decide ?P] => destruct (bool_decide_reflect P)
           | context [if ?b then _ else _] => destruct b
           | context [match ?x with _ => _ end] => destruct x
           end;
    try discriminate; inversion H; subst; simpl in *; assumption.
Qed.

(** A command line that is parsed to the end names an algorithm. *)
Lemma argp_parse_alg idx_bits atof strtod calls args :
  which_alg args <> SPLATT_TC_NALGS ->
  yields (fun args' => which_alg args' <> SPLATT_TC_NALGS)
         (argp_parse idx_bits atof strtod calls args).
Proof.
  revert args. induction calls as [|[key arg] calls IH]; intros args Hw tr tr' args' H.
  - inversion H. congruence.
  - simpl in H. unfold bind in H.
    destruct (parse_tc_opt idx_bits atof strtod key arg args tr) as [tr1 [a1|e1]] eqn:E;
      [|discriminate].
    eapply IH; [|exact H]. eapply parse_tc_opt_alg; eauto.
Qed.

Section Command.

Variable idx_bits : positive.
Variable MAX_NMODES : Z.
Variable SPLATT_USE_MPI : bool.
Variable atof : string -> float.
Variable strtod : string -> float * string.
Variable omp_get_max_threads time_now mpi_rank mpi_npes : Z.
Variable MPI_Allreduce_sum : Z -> Z.
Variable fopen : string -> option file.
Variable tt_read : string -> option sptensor_t.
Variable mpi_tt_read : string -> rank_info -> option sptensor_t * rank_info.
Variable tc_model_alloc : sptensor_t -> Z -> splatt_tc_type -> tc_model.
Variable tc_ws_alloc : sptensor_t -> tc_model -> Z -> tc_ws.
Variables splatt_tc_gd splatt_tc_nlcg splatt_tc_lbfgs splatt_tc_sgd
  splatt_tc_ccd splatt_tc_als
  : sptensor_t -> sptensor_t -> tc_model -> tc_ws -> tc_model * tc_ws.
Variables tc_mae tc_rmse : sptensor_t -> option tc_model -> tc_ws -> val_t.

Lemma read_tensors_quiet P args rinfo dims0 :
  (forall msg, P (EvStderr msg)) ->
  quiet P (read_tensors idx_bits MAX_NMODES SPLATT_USE_MPI strtod
             MPI_Allreduce_sum fopen tt_read mpi_tt_read args rinfo dims0).
Proof.
  intros HP. unfold read_tensors. repeat quiet_step; apply HP.
Qed.

Lemma parsed_args calls args0 tr tr0 args :
  argp_parse idx_bits atof strtod calls
    (default_tc_opts idx_bits omp_get_max_threads time_now args0) tr = (tr0, inl args) ->
  write args = false /\ which_alg args <> SPLATT_TC_NALGS.
Proof.
  intros H. split.
  - eapply (argp_parse_write idx_bits atof strtod calls); [|exact H].
    apply default_tc_opts_write.
  - eapply (argp_parse_alg idx_bits atof strtod calls); [|exact H].
    rewrite default_alg_is_sgd. discriminate.
Qed.

Lemma splatt_tc_cmd_never_writes calls args0 rinfo0 dims0 :
  quiet not_mat_write
    (splatt_tc_cmd idx_bits MAX_NMODES SPLATT_USE_MPI atof strtod
       omp_get_max_threads time_now mpi_rank mpi_npes MPI_Allreduce_sum
       fopen tt_read mpi_tt_read tc_model_alloc tc_ws_alloc
       splatt_tc_gd splatt_tc_nlcg splatt_tc_lbfgs splatt_tc_sgd
       splatt_tc_ccd splatt_tc_als tc_mae tc_rmse
       calls args0 rinfo0 dims0).
Proof.
  unfold splatt_tc_cmd.
  eapply (quiet_bind_yields _ (fun args => write args = false));
    [ eapply quiet_weaken; [exact parse_event_not_mat_write | apply argp_parse_quiet]
    | intros tr tr' a H; eapply parsed_args; exact H | ].
  intros args Hw. cbv zeta.
  repeat quiet_step; try exact I; try congruence.
  apply read_tensors_quiet. intros msg. exact I.
Qed.

Lemma run_never_writes calls args0 rinfo0 dims0 :
  Forall not_mat_write
    (fst (run_tc_cmd idx_bits MAX_NMODES SPLATT_USE_MPI atof strtod
            omp_get_max_threads time_now mpi_rank mpi_npes MPI_Allreduce_sum
            fopen tt_read mpi_tt_read tc_model_alloc tc_ws_alloc
            splatt_tc_gd splatt_tc_nlcg splatt_tc_lbfgs splatt_tc_sgd
            splatt_tc_ccd splatt_tc_als tc_mae tc_rmse
            calls args0 rinfo0 dims0)).
Proof.
  unfold run_tc_cmd.
  destruct (splatt_tc_cmd_never_writes calls args0 rinfo0 dims0 []) as (more & E & F).
  match type of E with
  | fst ?run = _ => destruct run as [tr [code|e]]
  end; simpl in *; subst tr; exact F.
Qed.

(** C9.  The parser never sets the write flag: it is false by default and
    [--nowrite] stores false again.  So no run of the command, on any
    command line and with any files, writes a factor matrix. *)
Theorem write_flag_never_set calls args0 rinfo0 dims0 :
  yields (fun args => write args = false)
    (argp_parse idx_bits atof strtod calls
       (default_tc_opts idx_bits omp_get_max_threads time_now args0)) /\
  Forall not_mat_write
    (fst (run_tc_cmd idx_bits MAX_NMODES SPLATT_USE_MPI atof strtod
            omp_get_max_threads time_now mpi_rank mpi_npes MPI_Allreduce_sum
            fopen tt_read mpi_tt_read tc_model_alloc tc_ws_alloc
            splatt_tc_gd splatt_tc_nlcg splatt_tc_lbfgs splatt_tc_sgd
            splatt_tc_ccd splatt_tc_als tc_mae tc_rmse
            calls args0 rinfo0 dims0)).
Proof.
  split.
  - apply argp_parse_write, default_tc_opts_write.
  - apply run_never_writes.
Qed.

(** ** Unreadable input *)

Lemma read_tensors_unreadable args rinfo dims0 tr :
  unreadable_early idx_bits MAX_NMODES SPLATT_USE_MPI strtod fopen tt_read
    mpi_tt_read args rinfo dims0 ->
  (exists msg,
      read_tensors idx_bits MAX_NMODES SPLATT_USE_MPI strtod
        MPI_Allreduce_sum fopen tt_read mpi_tt_read args rinfo dims0 tr
      = (tr ++ [EvStderr msg], inr (Returned SPLATT_ERROR_BADINPUT))) \/
  (exists train validate rinfo' g,
      read_tensors idx_bits MAX_NMODES SPLATT_USE_MPI strtod
        MPI_Allreduce_sum fopen tt_read mpi_tt_read args rinfo dims0 tr
      = (tr, inl (train, validate, rinfo', g)) /\
      (train = None \/ validate = None)).
Proof.
  intros [tn vn Hm Htn Hvn Hbad | tn vn Hm Htn Hvn Hbad
         | tn vn fin Hm Htn Hvn Hbad Hopen Hload];
    unfold read_tensors; rewrite Hm, Htn, Hvn.
  - right. exists (tt_read tn), (tt_read vn), rinfo, 0. split; [reflexivity|tauto].
  - left. unfold defined, bind, ret. simpl.
    destruct (mpi_tt_read tn (init_rank_info MAX_NMODES rinfo)) as [train rinfo'].
    simpl. rewrite Hbad. eexists. reflexivity.
  - unfold defined, bind, ret. simpl.
    destruct (mpi_tt_read tn (init_rank_info MAX_NMODES rinfo)) as [train rinfo'].
    simpl in *. rewrite Hopen. subst train.
    destruct (load_validate_layer idx_bits MAX_NMODES strtod fin dims0 rinfo')
      as [|nmodes|validate]; [congruence | |].
    + left. eexists. reflexivity.
    + right. eexists _, _, _, _. split; [reflexivity|]. left. reflexivity.
Qed.

(** When the load of the validation layer leaves its arrays, so does the
    command, whatever became of the training file. *)
Lemma read_tensors_fault args rinfo dims0 tr tn vn fin :
  SPLATT_USE_MPI = true ->
  ifname args 0 = Some tn -> ifname args 1 = Some vn ->
  fopen vn = Some fin ->
  load_validate_layer idx_bits MAX_NMODES strtod fin dims0
    (snd (mpi_tt_read tn (init_rank_info MAX_NMODES rinfo))) = LoadFault ->
  read_tensors idx_bits MAX_NMODES SPLATT_USE_MPI strtod
    MPI_Allreduce_sum fopen tt_read mpi_tt_read args rinfo dims0 tr
  = (tr, inr Fault).
Proof.
  intros Hm Htn Hvn Hopen Hload.
  unfold read_tensors; rewrite Hm, Htn, Hvn.
  unfold defined, bind, ret. simpl.
  destruct (mpi_tt_read tn (init_rank_info MAX_NMODES rinfo)) as [train rinfo'].
  simpl in *. rewrite Hopen, Hload. reflexivity.
Qed.

(** C5, as the code has it.  When the training or the validation file
    cannot be read, the command returns [SPLATT_ERROR_BADINPUT] before any
    training step and without writing a factor matrix; with MPI the
    training file is looked at only after the load of the validation layer,
    which must stay inside its arrays for that.  When the test file cannot
    be read, the command returns [SPLATT_ERROR_BADINPUT] as well and writes
    no factor matrix, but only after the training run.  When, with MPI, the
    load of the validation layer leaves its arrays, no code is returned,
    whether the training file could be read or not. *)
Theorem bad_input_returns calls args0 rinfo0 dims0 tr0 args :
  argp_parse idx_bits atof strtod calls
    (default_tc_opts idx_bits omp_get_max_threads time_now args0) [] = (tr0, inl args) ->
  (unreadable_early idx_bits MAX_NMODES SPLATT_USE_MPI strtod fopen tt_read
     mpi_tt_read args (with_ri_npes mpi_npes (with_ri_rank mpi_rank rinfo0)) dims0 ->
   exists tr,
     run_tc_cmd idx_bits MAX_NMODES SPLATT_USE_MPI atof strtod
       omp_get_max_threads time_now mpi_rank mpi_npes MPI_Allreduce_sum
       fopen tt_read mpi_tt_read tc_model_alloc tc_ws_alloc
       splatt_tc_gd splatt_tc_nlcg splatt_tc_lbfgs splatt_tc_sgd
       splatt_tc_ccd splatt_tc_als tc_mae tc_rmse
       calls args0 rinfo0 dims0 = (tr, Returned SPLATT_ERROR_BADINPUT) /\
     Forall not_training tr /\ Forall not_mat_write tr) /\
  (forall train validate rinfo g ws test_name,
      (forall tr,
          snd (read_tensors idx_bits MAX_NMODES SPLATT_USE_MPI strtod
                 MPI_Allreduce_sum fopen tt_read mpi_tt_read args
                 (with_ri_npes mpi_npes (with_ri_rank mpi_rank rinfo0)) dims0 tr)
          = inl (Some train, Some validate, rinfo, g)) ->
      override_defaults (tt_nmodes train) args
        (tc_ws_alloc train
           (tc_model_alloc train (nfactors args) (which_alg args))
           (nthreads args)) = Some ws ->
      ifname args 2 = Some test_name -> tt_read test_name = None ->
      exists tr,
        run_tc_cmd idx_bits MAX_NMODES SPLATT_USE_MPI atof strtod
          omp_get_max_threads time_now mpi_rank mpi_npes MPI_Allreduce_sum
          fopen tt_read mpi_tt_read tc_model_alloc tc_ws_alloc
          splatt_tc_gd splatt_tc_nlcg splatt_tc_lbfgs splatt_tc_sgd
          splatt_tc_ccd splatt_tc_als tc_mae tc_rmse
          calls args0 rinfo0 dims0 = (tr, Returned SPLATT_ERROR_BADINPUT) /\
        In (EvTrain (which_alg args)) tr /\ Forall not_mat_write tr) /\
  (forall tn vn fin,
      SPLATT_USE_MPI = true ->
      ifname args 0 = Some tn -> ifname args 1 = Some vn ->
      fopen vn = Some fin ->
      load_validate_layer idx_bits MAX_NMODES strtod fin dims0
        (snd (mpi_tt_read tn
                (init_rank_info MAX_NMODES
                   (with_ri_npes mpi_npes (with_ri_rank mpi_rank rinfo0)))))
      = LoadFault ->
      exists tr,
        run_tc_cmd idx_bits MAX_NMODES SPLATT_USE_MPI atof strtod
          omp_get_max_threads time_now mpi_rank mpi_npes MPI_Allreduce_sum
          fopen tt_read mpi_tt_read tc_model_alloc tc_ws_alloc
          splatt_tc_gd splatt_tc_nlcg splatt_tc_lbfgs splatt_tc_sgd
          splatt_tc_ccd splatt_tc_als tc_mae tc_rmse
          calls args0 rinfo0 dims0 = (tr, Fault) /\
        Forall not_training tr /\ Forall not_mat_write tr).
Proof.
  intros Hparse.
  destruct (parsed_args _ _ _ _ _ Hparse) as (Hw & Halg).
  assert (Forall parse_event tr0) as Ftr.
  { destruct (argp_parse_quiet idx_bits atof strtod calls
                (default_tc_opts idx_bits omp_get_max_threads time_now args0) [])
      as (more & E & F).
    rewrite Hparse in E. simpl in E. subst tr0. exact F. }
  pose proof (run_never_writes calls args0 rinfo0 dims0) as Hnw.
  assert (Forall not_training
            ((tr0 ++
              (if negb SPLATT_USE_MPI
                  || (ri_rank (with_ri_npes mpi_npes (with_ri_rank mpi_rank rinfo0)) =? 0)
               then [EvHeader] else [])) ++ [EvSrand (seed args)])) as Fpre.
  { rewrite !Forall_app. repeat split.
    - eapply Forall_impl; [exact Ftr | exact parse_event_not_training].
    - destruct (negb SPLATT_USE_MPI || _); repeat constructor.
    - repeat constructor. }
  split; [|split].
  - intros Hbad.
    enough (exists tr,
               run_tc_cmd idx_bits MAX_NMODES SPLATT_USE_MPI atof strtod
                 omp_get_max_threads time_now mpi_rank mpi_npes MPI_Allreduce_sum
                 fopen tt_read mpi_tt_read tc_model_alloc tc_ws_alloc
                 splatt_tc_gd splatt_tc_nlcg splatt_tc_lbfgs splatt_tc_sgd
                 splatt_tc_ccd splatt_tc_als tc_mae tc_rmse
                 calls args0 rinfo0 dims0 = (tr, Returned SPLATT_ERROR_BADINPUT) /\
               Forall not_training tr) as (tr & E & F).
    { exists tr. rewrite E in Hnw. auto. }
    clear Hnw. unfold run_tc_cmd, splatt_tc_cmd.
    run_bind Hparse. cbv zeta.
    run_bind when_emit. run_bind emit_run.
    match goal with
    | |- context [bind (read_tensors _ _ _ _ _ _ _ _ _ ?r _) _ ?tr] =>
        destruct (read_tensors_unreadable args r dims0 tr Hbad)
          as [(msg & E) | (train & validate & rinfo' & g & E & Hnone)]
    end.
    + erewrite bind_inr by exact E.
      eexists. split; [reflexivity|].
      apply Forall_app. split; [exact Fpre | repeat constructor].
    + run_bind E.
      destruct Hnone as [-> | ->]; [|destruct train];
        (eexists; split; [reflexivity | exact Fpre]).
  - intros train validate rinfo g ws test_name Hread Hover Htest Hnone.
    enough (exists tr,
               run_tc_cmd idx_bits MAX_NMODES SPLATT_USE_MPI atof strtod
                 omp_get_max_threads time_now mpi_rank mpi_npes MPI_Allreduce_sum
                 fopen tt_read mpi_tt_read tc_model_alloc tc_ws_alloc
                 splatt_tc_gd splatt_tc_nlcg splatt_tc_lbfgs splatt_tc_sgd
                 splatt_tc_ccd splatt_tc_als tc_mae tc_rmse
                 calls args0 rinfo0 dims0 = (tr, Returned SPLATT_ERROR_BADINPUT) /\
               In (EvTrain (which_alg args)) tr) as (tr & E & F).
    { exists tr. rewrite E in Hnw. auto. }
    clear Hnw. unfold run_tc_cmd, splatt_tc_cmd.
    run_bind Hparse. cbv zeta.
    run_bind when_emit. run_bind emit_run.
    rewrite (bind_snd _ _ _ _ (Hread _)). cbv beta iota.
    run_bind when_emit. run_bind emit_run.
    rewrite Hover. run_bind @defined_Some.
    run_bind when_emit.
    destruct (which_alg args) eqn:Ea; try congruence;
      cbv beta iota delta [training_routine];
      (run_bind when_emit; run_bind emit_run;
       match goal with
       | |- context [?f train validate ?m ?w] =>
           destruct (f train validate m w) as [model' ws']
       end;
       run_bind when_emit; rewrite Htest, Hnone;
       erewrite bind_inr; [| first [reflexivity | erewrite bind_inr; reflexivity]];
       eexists; split; [reflexivity|];
       rewrite !in_app_iff; simpl; tauto).
  - intros tn vn fin Hm Htn Hvn Hopen Hload.
    enough (exists tr,
               run_tc_cmd idx_bits MAX_NMODES SPLATT_USE_MPI atof strtod
                 omp_get_max_threads time_now mpi_rank mpi_npes MPI_Allreduce_sum
                 fopen tt_read mpi_tt_read tc_model_alloc tc_ws_alloc
                 splatt_tc_gd splatt_tc_nlcg splatt_tc_lbfgs splatt_tc_sgd
                 splatt_tc_ccd splatt_tc_als tc_mae tc_rmse
                 calls args0 rinfo0 dims0 = (tr, Fault) /\
               Forall not_training tr) as (tr & E & F).
    { exists tr. rewrite E in Hnw. auto. }
    clear Hnw. unfold run_tc_cmd, splatt_tc_cmd.
    run_bind Hparse. cbv zeta.
    run_bind when_emit. run_bind emit_run.
    erewrite bind_inr
      by (eapply read_tensors_fault; [exact Hm | exact Htn | exact Hvn
                                     | exact Hopen | exact Hload]).
    eexists. split; [reflexivity | exact Fpre].
Qed.

(** ** The reported validation count *)

Lemma reported_validation_nnz_app tr nnz rmse mae epoch rest :
  reported_validation_nnz tr = None ->
  reported_validation_nnz (tr ++ EvValidation nnz rmse mae epoch :: rest) = Some nnz.
Proof.
  induction tr as [|e tr IH]; simpl; [reflexivity|].
  destruct e; auto; discriminate.
Qed.

Lemma reported_validation_nnz_snoc tr e :
  reported_validation_nnz tr = None ->
  (forall nnz rmse mae epoch, e <> EvValidation nnz rmse mae epoch) ->
  reported_validation_nnz (tr ++ [e]) = None.
Proof.
  intros Htr He. induction tr as [|e' tr IH]; simpl.
  - destruct e; try reflexivity. exfalso. eapply He. reflexivity.
  - simpl in Htr. destruct e'; auto; discriminate.
Qed.

(** With MPI the count handed on from the load is the reduced one. *)
Lemma read_tensors_reduced args rinfo dims0 tr tr' train validate rinfo' g :
  SPLATT_USE_MPI = true ->
  read_tensors idx_bits MAX_NMODES SPLATT_USE_MPI strtod
    MPI_Allreduce_sum fopen tt_read mpi_tt_read args rinfo dims0 tr
  = (tr', inl (train, Some validate, rinfo', g)) ->
  g = MPI_Allreduce_sum (tt_nnz validate) /\
  exists tn vn fin,
    ifname args 0 = Some tn /\ ifname args 1 = Some vn /\ fopen vn = Some fin /\
    load_validate_layer idx_bits MAX_NMODES strtod fin dims0
      (snd (mpi_tt_read tn (init_rank_info MAX_NMODES rinfo))) = Loaded validate.
Proof.
  intros Hm H. unfold read_tensors in H. rewrite Hm in H.
  destruct (ifname args 0) as [tn|]; [|discriminate].
  unfold bind, defined, ret, emit, finish in H. cbv beta iota in H.
  destruct (mpi_tt_read tn (init_rank_info MAX_NMODES rinfo)) as [train0 rinfo1] eqn:Er.
  destruct (ifname args 1) as [vn|]; [|discriminate].
  cbv beta iota in H.
  destruct (fopen vn) as [fin|] eqn:Eo; [|discriminate].
  destruct (load_validate_layer idx_bits MAX_NMODES strtod fin dims0 rinfo1) eqn:El;
    try discriminate.
  inversion H; subst.
  split; [reflexivity|]. exists tn, vn, fin. rewrite Er. simpl.
  repeat split; try reflexivity; assumption.
Qed.

(** The reduction enters a run through the count alone. *)
Lemma read_tensors_reduction (R2 : Z -> Z) args rinfo dims0 tr :
  (exists tr' e,
      read_tensors idx_bits MAX_NMODES SPLATT_USE_MPI strtod
        MPI_Allreduce_sum fopen tt_read mpi_tt_read args rinfo dims0 tr
      = (tr', inr e) /\
      read_tensors idx_bits MAX_NMODES SPLATT_USE_MPI strtod
        R2 fopen tt_read mpi_tt_read args rinfo dims0 tr
      = (tr', inr e)) \/
  (exists tr' train validate rinfo' g1 g2,
      read_tensors idx_bits MAX_NMODES SPLATT_USE_MPI strtod
        MPI_Allreduce_sum fopen tt_read mpi_tt_read args rinfo dims0 tr
      = (tr', inl (train, validate, rinfo', g1)) /\
      read_tensors idx_bits MAX_NMODES SPLATT_USE_MPI strtod
        R2 fopen tt_read mpi_tt_read args rinfo dims0 tr
      = (tr', inl (train, validate, rinfo', g2))).
Proof.
  unfold read_tensors.
  destruct SPLATT_USE_MPI.
  - destruct (ifname args 0) as [tn|]; [|left; eexists _, _; split; reflexivity].
    unfold bind, defined, ret, emit, finish. cbv beta iota.
    destruct (mpi_tt_read tn (init_rank_info MAX_NMODES rinfo)) as [train0 rinfo1].
    destruct (ifname args 1) as [vn|]; [|left; eexists _, _; split; reflexivity].
    cbv beta iota.
    destruct (fopen vn) as [fin|]; [|left; eexists _, _; split; reflexivity].
    destruct (load_validate_layer idx_bits MAX_NMODES strtod fin dims0 rinfo1);
      [left; eexists _, _; split; reflexivity
      |left; eexists _, _; split; reflexivity|].
    right. eexists _, _, _, _, _, _. split; reflexivity.
  - destruct (ifname args 0) as [tn|]; [|left; eexists _, _; split; reflexivity].
    destruct (ifname args 1) as [vn|]; [|left; eexists _, _; split; reflexivity].
    right. eexists _, _, _, _, _, _. split; reflexivity.
Qed.

(** Unless the algorithm is SGD, a run is the same whatever the reduction
    returns: the reduced count reaches the workspace in the SGD case of the
    [switch] only. *)
Lemma run_ignores_reduction (R2 : Z -> Z) calls args0 rinfo0 dims0 tr0 args :
  argp_parse idx_bits atof strtod calls
    (default_tc_opts idx_bits omp_get_max_threads time_now args0) [] = (tr0, inl args) ->
  which_alg args <> SPLATT_TC_SGD ->
  run_tc_cmd idx_bits MAX_NMODES SPLATT_USE_MPI atof strtod
    omp_get_max_threads time_now mpi_rank mpi_npes MPI_Allreduce_sum
    fopen tt_read mpi_tt_read tc_model_alloc tc_ws_alloc
    splatt_tc_gd splatt_tc_nlcg splatt_tc_lbfgs splatt_tc_sgd
    splatt_tc_ccd splatt_tc_als tc_mae tc_rmse
    calls args0 rinfo0 dims0
  = run_tc_cmd idx_bits MAX_NMODES SPLATT_USE_MPI atof strtod
      omp_get_max_threads time_now mpi_rank mpi_npes R2
      fopen tt_read mpi_tt_read tc_model_alloc tc_ws_alloc
      splatt_tc_gd splatt_tc_nlcg splatt_tc_lbfgs splatt_tc_sgd
      splatt_tc_ccd splatt_tc_als tc_mae tc_rmse
      calls args0 rinfo0 dims0.
Proof.
  intros Hparse Halg. unfold run_tc_cmd, splatt_tc_cmd.
  rewrite !(bind_inl _ _ _ _ _ Hparse). cbv zeta.
  rewrite !(bind_inl _ _ _ _ _ (when_emit _ _ _)).
  rewrite !(bind_inl _ _ _ _ _ (emit_run _ _)).
  match goal with
  | |- context [bind (read_tensors _ _ _ _ _ _ _ _ _ ?r _) _ ?tr] =>
      destruct (read_tensors_reduction R2 args r dims0 tr)
        as [(tr' & e & E1 & E2)
           | (tr' & train & validate & rinfo' & g1 & g2 & E1 & E2)]
  end.
  - rewrite (bind_inr _ _ _ _ _ E1), (bind_inr _ _ _ _ _ E2). reflexivity.
  - rewrite (bind_inl _ _ _ _ _ E1), (bind_inl _ _ _ _ _ E2).
    rewrite (bool_decide_eq_false_2 _ Halg), !andb_false_r.
    reflexivity.
Qed.

Lemma reported_validation_nnz_none tr :
  Forall not_validation tr -> reported_validation_nnz tr = None.
Proof.
  induction 1 as [|e tr He _ IH]; simpl; [reflexivity|].
  destruct e; simpl in He; auto; contradiction.
Qed.

Lemma parse_event_not_validation e : parse_event e -> not_validation e.
Proof. destruct e; simpl; auto. Qed.

(** With MPI and the SGD algorithm, the count the first worker reports is
    the one the reduction returned for the workers' local counts, as long
    as the training routine leaves that field of the workspace alone. *)
Lemma sgd_reports_reduced_nnz calls args0 rinfo0 dims0 tr0 args
    train validate rinfo g ws :
  SPLATT_USE_MPI = true -> mpi_rank = 0 ->
  argp_parse idx_bits atof strtod calls
    (default_tc_opts idx_bits omp_get_max_threads time_now args0) [] = (tr0, inl args) ->
  which_alg args = SPLATT_TC_SGD ->
  (forall tr,
      snd (read_tensors idx_bits MAX_NMODES SPLATT_USE_MPI strtod
             MPI_Allreduce_sum fopen tt_read mpi_tt_read args
             (with_ri_npes mpi_npes (with_ri_rank mpi_rank rinfo0)) dims0 tr)
      = inl (Some train, Some validate, rinfo, g)) ->
  override_defaults (tt_nmodes train) args
    (tc_ws_alloc train
       (tc_model_alloc train (nfactors args) (which_alg args))
       (nthreads args)) = Some ws ->
  (forall t v m w,
      ws_global_validate_nnz (snd (splatt_tc_sgd t v m w))
      = ws_global_validate_nnz w) ->
  reported_validation_nnz
    (fst (run_tc_cmd idx_bits MAX_NMODES SPLATT_USE_MPI atof strtod
            omp_get_max_threads time_now mpi_rank mpi_npes MPI_Allreduce_sum
            fopen tt_read mpi_tt_read tc_model_alloc tc_ws_alloc
            splatt_tc_gd splatt_tc_nlcg splatt_tc_lbfgs splatt_tc_sgd
            splatt_tc_ccd splatt_tc_als tc_mae tc_rmse
            calls args0 rinfo0 dims0))
  = Some (MPI_Allreduce_sum (tt_nnz validate)).
Proof.
  intros Hm Hrank Hparse Halg Hread Hover Hframe.
  destruct (parsed_args _ _ _ _ _ Hparse) as (Hw & _).
  assert (Forall not_validation tr0) as Ftr.
  { destruct (argp_parse_quiet idx_bits atof strtod calls
                (default_tc_opts idx_bits omp_get_max_threads time_now args0) [])
      as (more & E & F).
    rewrite Hparse in E. simpl in E. subst tr0.
    eapply Forall_impl; [exact F | exact parse_event_not_validation]. }
  assert (ri_rank (with_ri_npes mpi_npes (with_ri_rank mpi_rank rinfo0)) = 0) as Hroot
    by (destruct rinfo0; exact Hrank).
  unfold run_tc_cmd, splatt_tc_cmd.
  run_bind Hparse. cbv zeta. rewrite Hroot, Halg.
  run_bind when_emit. run_bind emit_run.
  match goal with
  | |- context [bind (read_tensors ?a ?b ?c ?d ?e ?f ?g ?h ?i ?r ?k) _ ?tr] =>
      pose proof (Hread tr) as Hr;
      destruct (read_tensors_quiet not_validation i r k (fun _ => I) tr)
        as (more & Efst & Fmore);
      destruct (read_tensors a b c d e f g h i r k tr) as [tr1 r1] eqn:Er
  end.
  simpl in Hr, Efst. subst r1 tr1.
  destruct (read_tensors_reduced _ _ _ _ _ _ _ _ _ Hm Er) as [Hg _]. subst g.
  run_bind Er. cbv beta iota.
  run_bind when_emit. run_bind emit_run.
  rewrite Halg in Hover. rewrite Hover. run_bind @defined_Some.
  run_bind when_emit.
  cbv beta iota delta [training_routine].
  run_bind when_emit. run_bind emit_run.
  match goal with
  | |- context [splatt_tc_sgd ?t ?v ?m ?w] =>
      pose proof (Hframe t v m w) as Hf;
      destruct (splatt_tc_sgd t v m w) as [model' ws']
  end.
  simpl in Hf. rewrite Hm in *. simpl andb. cbv iota.
  run_bind when_emit. simpl negb. simpl orb. cbv iota.
  assert (ws_global_validate_nnz ws' = MPI_Allreduce_sum (tt_nnz validate)) as ->
    by (rewrite Hf; destruct ws; reflexivity).
  match goal with
  | |- context [bind ?c ?k ?tr] =>
      assert (quiet (fun _ => True) (bind c k)) as Hq
        by (rewrite Hw; repeat quiet_step; exact I);
      destruct (Hq tr) as (more2 & E2 & _);
      destruct (bind c k tr) as [tr2 r2]
  end.
  simpl in E2. subst tr2.
  destruct r2; cbn [fst]; rewrite <- app_assoc; simpl;
    (apply reported_validation_nnz_app, reported_validation_nnz_none;
     rewrite !Forall_app; repeat split; try assumption; repeat constructor).
Qed.


End Command.

(** ** The random seed *)

Lemma bind_fst {A B} (c c' : M A) (k : A -> M B) tr :
  c tr = c' tr -> bind c k tr = bind c' k tr.
Proof. intros E. unfold bind. rewrite E. reflexivity. Qed.

(** Apart from [--seed], an option treats the seed as a bystander. *)
Lemma parse_tc_opt_seed idx_bits atof strtod key arg s args tr :
  parse_tc_opt idx_bits atof strtod key arg (with_seed s args) tr
  = if key =? TC_SEED then parse_tc_opt idx_bits atof strtod key arg args tr
    else match parse_tc_opt idx_bits atof strtod key arg args tr with
         | (tr', inl args') => (tr', inl (with_seed s args'))
         | (tr', inr e) => (tr', inr e)
         end.
Proof.
  destruct args. unfold parse_tc_opt.
  repeat match goal with
         | |- context [if ?k =? ?c then _ else _] =>
             destruct (Z.eqb_spec k c); [subst key|]
         end;
    destruct (skip_equals arg) as [a|]; run_step;
    repeat match goal with
           | |- context [bool_decide ?P] => destruct (bool_decide_reflect P)
           | |- context [if ?b then _ else _] => destruct b
           | |- context [match ?x with _ => _ end] => destruct x
           end; reflexivity.
Qed.

Lemma argp_parse_seed idx_bits atof strtod calls s args tr :
  argp_parse idx_bits atof strtod calls (with_seed s args) tr
  = if existsb (fun c => fst c =? TC_SEED) calls
    then argp_parse idx_bits atof strtod calls args tr
    else match argp_parse idx_bits atof strtod calls args tr with
         | (tr', inl args') => (tr', inl (with_seed s args'))
         | (tr', inr e) => (tr', inr e)
         end.
Proof.
  revert args tr. induction calls as [|[key arg] calls IH]; intros args tr.
  - reflexivity.
  - cbn [argp_parse existsb fst]. unfold bind.
    rewrite parse_tc_opt_seed.
    destruct (key =? TC_SEED); cbn [orb].
    + reflexivity.
    + destruct (parse_tc_opt idx_bits atof strtod key arg args tr) as [tr1 [a1|e1]].
      * apply IH.
      * destruct (existsb _ calls); reflexivity.
Qed.

Lemma default_tc_opts_seed idx_bits omp time_now args0 :
  default_tc_opts idx_bits omp time_now args0
  = with_seed (to_uint time_now) (default_tc_opts idx_bits omp 0 args0).
Proof. destruct args0. reflexivity. Qed.

(** X4.  With [--seed] on the command line the wall clock has no part in
    a run: the generator is seeded with the given value
    ([srand(args.seed)]), and two runs at different times are the same
    run. *)
Lemma explicit_seed_ignores_clock idx_bits MAX_NMODES SPLATT_USE_MPI atof strtod
    omp_get_max_threads (time1 time2 : Z) mpi_rank mpi_npes MPI_Allreduce_sum
    fopen tt_read mpi_tt_read tc_model_alloc tc_ws_alloc
    splatt_tc_gd splatt_tc_nlcg splatt_tc_lbfgs splatt_tc_sgd
    splatt_tc_ccd splatt_tc_als tc_mae tc_rmse calls args0 rinfo0 dims0 :
  existsb (fun c => fst c =? TC_SEED) calls = true ->
  run_tc_cmd idx_bits MAX_NMODES SPLATT_USE_MPI atof strtod
    omp_get_max_threads time1 mpi_rank mpi_npes MPI_Allreduce_sum
    fopen tt_read mpi_tt_read tc_model_alloc tc_ws_alloc
    splatt_tc_gd splatt_tc_nlcg splatt_tc_lbfgs splatt_tc_sgd
    splatt_tc_ccd splatt_tc_als tc_mae tc_rmse calls args0 rinfo0 dims0
  = run_tc_cmd idx_bits MAX_NMODES SPLATT_USE_MPI atof strtod
      omp_get_max_threads time2 mpi_rank mpi_npes MPI_Allreduce_sum
      fopen tt_read mpi_tt_read tc_model_alloc tc_ws_alloc
      splatt_tc_gd splatt_tc_nlcg splatt_tc_lbfgs splatt_tc_sgd
      splatt_tc_ccd splatt_tc_als tc_mae tc_rmse calls args0 rinfo0 dims0.
Proof.
  intros Hseed. unfold run_tc_cmd, splatt_tc_cmd.
  rewrite (default_tc_opts_seed idx_bits omp_get_max_threads time1),
    (default_tc_opts_seed idx_bits omp_get_max_threads time2).
  erewrite bind_fst; [reflexivity|].
  rewrite !argp_parse_seed, Hseed. reflexivity.
Qed.

(** ** Overrides of the workspace defaults *)

Lemma set_regularization_load (k : nat) (m : Z) (v : val_t) (r r' : list val_t) :
  0 <= m ->
  set_regularization k m v r = Some r' ->
  forall i, load r' i
            = if (m <=? i) && (i <? m + Z.of_nat k) then Some v else load r i.
Proof.
  revert m r. induction k as [|k IH]; intros m r Hm H i; simpl in H.
  - inversion H; subst. zbool; simpl; try reflexivity; lia.
  - destruct (store r m v) as [r1|] eqn:E; [|discriminate].
    rewrite (IH (m + 1) r1 ltac:(lia) H i), (load_store _ _ _ i _ E).
    zbool; simpl; try reflexivity; lia.
Qed.

Lemma parse_tc_opt_flags idx_bits atof strtod key arg args :
  yields (fun args' =>
            set_timeout args' = set_timeout args || (key =? TC_TIME) /\
            set_tolerance args' = set_tolerance args || (key =? TC_TOL))
         (parse_tc_opt idx_bits atof strtod key arg args).
Proof.
  intros tr tr' args' H. destruct args. unfold parse_tc_opt in H. simpl.
  repeat match type of H with
         | context [if ?k =? ?c then _ else _] =>
             destruct (Z.eqb_spec k c); [subst key|]
         end;
    repeat match type of H with
           | context [if ?b then _ else _] => destruct b
           | context [match ?x with _ => _ end] => destruct x
           | _ => progress run_step
           end;
    try discriminate; inversion H; subst; simpl;
    rewrite ?orb_false_r, ?orb_true_r;
    repeat match goal with
           | |- context [?k =? ?c] =>
               destruct (Z.eqb_spec k c); [congruence|]
           end;
    rewrite ?orb_false_r; auto.
Qed.

Lemma argp_parse_flags idx_bits atof strtod calls args :
  yields (fun args' =>
            set_timeout args'
            = set_timeout args || existsb (fun c => fst c =? TC_TIME) calls /\
            set_tolerance args'
            = set_tolerance args || existsb (fun c => fst c =? TC_TOL) calls)
         (argp_parse idx_bits atof strtod calls args).
Proof.
  revert args. induction calls as [|[key arg] calls IH]; intros args tr tr' args' H.
  - inversion H; subst. simpl. rewrite !orb_false_r. auto.
  - simpl in H. unfold bind in H.
    destruct (parse_tc_opt idx_bits atof strtod key arg args tr) as [tr1 [a1|e1]] eqn:E;
      [|discriminate].
    destruct (parse_tc_opt_flags _ _ _ _ _ _ _ _ _ E) as [E1 E2].
    destruct (IH _ _ _ _ H) as [H1 H2]. simpl.
    rewrite H1, H2, E1, E2, !orb_assoc. auto.
Qed.

Lemma default_tc_opts_sentinels idx_bits omp time_now args0 :
  let args := default_tc_opts idx_bits omp time_now args0 in
  learn_rate args = (-1)%float /\ reg args = (-1)%float /\ max_its args = 0 /\
  set_timeout args = false /\ set_tolerance args = false.
Proof. destruct args0. simpl. auto. Qed.

Lemma override_defaults_fields nmodes args ws ws' :
  override_defaults nmodes args ws = Some ws' ->
  ws_learn_rate ws'
  = (if differs_from_minus_one (learn_rate args)
     then learn_rate args else ws_learn_rate ws) /\
  (forall m, load (ws_regularization ws') m
             = if differs_from_minus_one (reg args) && (0 <=? m) && (m <? nmodes)
               then Some (reg args) else load (ws_regularization ws) m) /\
  ws_max_its ws' = (if max_its args =? 0 then ws_max_its ws else max_its args) /\
  ws_max_seconds ws'
  = (if set_timeout args then max_seconds args else ws_max_seconds ws) /\
  ws_tolerance ws'
  = (if set_tolerance args then tolerance args else ws_tolerance ws).
Proof.
  unfold override_defaults. intros H.
  destruct (if differs_from_minus_one (reg args)
            then set_regularization (Z.to_nat nmodes) 0 (reg args)
                   (ws_regularization
                      (if differs_from_minus_one (learn_rate args)
                       then with_ws_learn_rate (learn_rate args) ws else ws))
            else Some (ws_regularization
                         (if differs_from_minus_one (learn_rate args)
                          then with_ws_learn_rate (learn_rate args) ws else ws)))
    as [regularization|] eqn:Er; [|discriminate].
  inversion H; subst ws'; clear H.
  assert (ws_regularization
            (if differs_from_minus_one (learn_rate args)
             then with_ws_learn_rate (learn_rate args) ws else ws)
          = ws_regularization ws) as Ereg
    by (destruct (differs_from_minus_one (learn_rate args)), ws; reflexivity).
  rewrite Ereg in Er.
  repeat split.
  - destruct (differs_from_minus_one (learn_rate args)), (max_its args =? 0),
      (set_timeout args), (set_tolerance args), ws; reflexivity.
  - intros m.
    assert (load regularization m
            = if differs_from_minus_one (reg args) && (0 <=? m) && (m <? nmodes)
              then Some (reg args) else load (ws_regularization ws) m) as <-.
    { destruct (differs_from_minus_one (reg args)); simpl.
      - rewrite (set_regularization_load (Z.to_nat nmodes) 0 _ _ _ (Z.le_refl 0) Er m).
        zbool; simpl; try reflexivity; lia.
      - congruence. }
    destruct (differs_from_minus_one (learn_rate args)), (max_its args =? 0),
      (set_timeout args), (set_tolerance args), ws; reflexivity.
  - destruct (differs_from_minus_one (learn_rate args)), (max_its args =? 0),
      (set_timeout args), (set_tolerance args), ws; reflexivity.
  - destruct (differs_from_minus_one (learn_rate args)), (max_its args =? 0),
      (set_timeout args), (set_tolerance args), ws; reflexivity.
  - destruct (differs_from_minus_one (learn_rate args)), (max_its args =? 0),
      (set_timeout args), (set_tolerance args), ws; reflexivity.
Qed.

(** The comparison [x == -1.] holds of the value -1 alone, so that
    [x != -1.] holds of every other number, of the infinities and of a
    NaN. *)
Lemma eqb_minus_one (x : float) :
  PrimFloat.eqb x (-1) = true -> x = (-1)%float.
Proof.
  intros E. apply FloatAxioms.Prim2SF_inj.
  rewrite FloatAxioms.eqb_spec in E.
  change (FloatOps.Prim2SF (-1))
    with (SpecFloat.S754_finite true 4503599627370496 (-52)) in *.
  unfold SpecFloat.SFeqb, SpecFloat.SFcompare in E.
  destruct (FloatOps.Prim2SF x) as [s|s| |s m e]; try discriminate;
    try (destruct s; discriminate).
  destruct s; [|discriminate].
  destruct (e ?= -52) eqn:Ee; try discriminate.
  apply Z.compare_eq in Ee. subst e.
  destruct (PosDef.Pos.compare_cont Eq m 4503599627370496) eqn:Em; try discriminate.
  apply Pos.compare_eq in Em. subst m. reflexivity.
Qed.

Lemma differs_from_minus_one_true (x : float) :
  differs_from_minus_one x = true <-> x <> (-1)%float.
Proof.
  unfold differs_from_minus_one. rewrite negb_true_iff. split.
  - intros H ->. vm_compute in H. discriminate.
  - intros H. destruct (PrimFloat.eqb x (-1)) eqn:E; [|reflexivity].
    destruct (H (eqb_minus_one x E)).
Qed.

Lemma differs_from_minus_one_false (x : float) :
  differs_from_minus_one x = false <-> x = (-1)%float.
Proof.
  unfold differs_from_minus_one. rewrite negb_false_iff. split.
  - apply eqb_minus_one.
  - intros ->. reflexivity.
Qed.

(** C4.  An override reaches the workspace exactly when the parsed value is
    not the sentinel.  The learning rate is kept when the parsed value is
    -1 and replaced by every other value; so is the regularization of each
    mode of the training tensor, the cells past the modes being kept in
    either case.  [max_its] is kept when the parsed value is 0 and replaced
    otherwise; [max_seconds] and [tolerance] are replaced when their flag
    is set, which the parser does for [--time] and [--tol] and for nothing
    else.  With no option at all every one of these fields keeps what
    [tc_ws_alloc] stored. *)
Theorem overrides_only_when_set idx_bits atof strtod omp time_now
    calls args0 tr tr' args nmodes ws ws' :
  argp_parse idx_bits atof strtod calls
    (default_tc_opts idx_bits omp time_now args0) tr = (tr', inl args) ->
  override_defaults nmodes args ws = Some ws' ->
  ((learn_rate args = (-1)%float -> ws_learn_rate ws' = ws_learn_rate ws) /\
   (learn_rate args <> (-1)%float -> ws_learn_rate ws' = learn_rate args) /\
   (reg args = (-1)%float ->
    forall m, load (ws_regularization ws') m = load (ws_regularization ws) m) /\
   (reg args <> (-1)%float ->
    forall m, load (ws_regularization ws') m
              = if (0 <=? m) && (m <? nmodes)
                then Some (reg args) else load (ws_regularization ws) m) /\
   ws_max_its ws' = (if max_its args =? 0 then ws_max_its ws else max_its args) /\
   ws_max_seconds ws'
   = (if set_timeout args then max_seconds args else ws_max_seconds ws) /\
   ws_tolerance ws'
   = (if set_tolerance args then tolerance args else ws_tolerance ws)) /\
  set_timeout args = existsb (fun c => fst c =? TC_TIME) calls /\
  set_tolerance args = existsb (fun c => fst c =? TC_TOL) calls /\
  (calls = [] ->
   ws_learn_rate ws' = ws_learn_rate ws /\
   (forall m, load (ws_regularization ws') m = load (ws_regularization ws) m) /\
   ws_max_its ws' = ws_max_its ws /\
   ws_max_seconds ws' = ws_max_seconds ws /\
   ws_tolerance ws' = ws_tolerance ws).
Proof.
  intros Hparse Hover.
  pose proof (override_defaults_fields _ _ _ _ Hover) as (F1 & F2 & F3 & F4 & F5).
  destruct (argp_parse_flags _ _ _ _ _ _ _ _ Hparse) as [Ht Hl].
  destruct (default_tc_opts_sentinels idx_bits omp time_now args0)
    as (D1 & D2 & D3 & D4 & D5).
  rewrite D4 in Ht. rewrite D5 in Hl. simpl in Ht, Hl.
  split; [|split; [exact Ht|split; [exact Hl|]]].
  - repeat split; try assumption.
    + intros E. apply differs_from_minus_one_false in E. rewrite E in F1. exact F1.
    + intros E. apply differs_from_minus_one_true in E. rewrite E in F1. exact F1.
    + intros E m. apply differs_from_minus_one_false in E.
      rewrite F2, E. reflexivity.
    + intros E m. apply differs_from_minus_one_true in E.
      rewrite F2, E. reflexivity.
  - intros ->. simpl in Hparse. inversion Hparse; subst args.
    rewrite D1 in F1. rewrite D2 in F2. rewrite D3 in F3.
    rewrite D4 in F4. rewrite D5 in F5.
    repeat split; assumption.
Qed.

(** ** The layer-aware reader: first pass *)

Section Reader.

Variable idx_bits : positive.
Variable rinfo : rank_info.

Lemma zero_dims_ok (k : nat) (m : Z) (d : list Z) :
  0 <= m -> m + Z.of_nat k <= Z.of_nat (length d) ->
  exists d', zero_dims k m d = Some d' /\ length d' = length d.
Proof.
  revert m d. induction k as [|k IH]; intros m d Hm Hk; simpl.
  - eauto.
  - rewrite store_in_range by lia.
    destruct (IH (m + 1) (<[Z.to_nat m := 0]> d)) as (d' & E & L);
      rewrite ?length_insert; try lia.
    exists d'. rewrite E, L, length_insert. auto.
Qed.

(** Past the end of the array the zeroing loop leaves defined behaviour. *)
Lemma zero_dims_overrun (k : nat) (m : Z) (d : list Z) :
  0 <= m <= Z.of_nat (length d) -> Z.of_nat (length d) < m + Z.of_nat k ->
  zero_dims k m d = None.
Proof.
  revert m d. induction k as [|k IH]; intros m d Hm Hk; simpl.
  - lia.
  - destruct (store d m 0) as [d1|] eqn:E; [|reflexivity].
    pose proof (store_length _ _ _ _ E) as L.
    apply store_Some in E as [Hin _].
    apply IH; lia.
Qed.

Lemma load_in_range {A} (a : list A) (i : Z) :
  0 <= i < Z.of_nat (length a) -> exists x, load a i = Some x.
Proof.
  intros H. unfold load. destruct (Z.leb_spec 0 i); [|lia].
  apply lookup_lt_is_Some_2. lia.
Qed.

Lemma dims_modes_ok (k : nat) (m : Z) (skip : bool) (ptr : string) (d : list Z) :
  0 <= m -> m + Z.of_nat k <= Z.of_nat (length d) ->
  exists ptr' d',
    dims_modes idx_bits rinfo k m skip ptr d
    = Some (skip || ((m =? 0) && negb (Nat.eqb k 0)
                     && outside_layer rinfo (fst (read_index idx_bits ptr))),
            ptr', d') /\
    length d' = length d.
Proof.
  revert m skip ptr d. induction k as [|k IH]; intros m skip ptr d Hm Hk; simpl.
  - exists ptr, d. rewrite andb_false_r, orb_false_r. auto.
  - destruct (read_index idx_bits ptr) as [ind ptr1] eqn:Er. simpl.
    destruct (load_in_range d m ltac:(lia)) as [old ->].
    rewrite store_in_range by lia.
    match goal with
    | |- context [dims_modes _ _ k (m + 1) ?s ptr1 ?d1] =>
        destruct (IH (m + 1) s ptr1 d1) as (ptr' & d' & E & L);
          rewrite ?length_insert; try lia
    end.
    exists ptr', d'. rewrite E, L, length_insert. split; [|reflexivity].
    do 3 f_equal.
    replace (m + 1 =? 0) with false by (symmetry; apply Z.eqb_neq; lia).
    simpl. rewrite orb_false_r, andb_true_r.
    destruct ((m =? 0) && outside_layer rinfo ind), skip; reflexivity.
Qed.

Lemma layer_lines_length_le (fin : file) :
  (length (layer_lines idx_bits rinfo fin) <= length fin)%nat.
Proof. apply filter_length_le. Qed.

Lemma dims_lines_ok (nmodes : Z) (fin : file) (nnz : Z) (d : list Z) :
  1 <= nmodes <= Z.of_nat (length d) ->
  0 <= nnz -> nnz + Z.of_nat (length fin) < idx_modulus idx_bits ->
  exists d',
    dims_lines idx_bits rinfo nmodes fin nnz d
    = Some (nnz + Z.of_nat (length (layer_lines idx_bits rinfo fin)), d') /\
    length d' = length d.
Proof.
  intros Hn. revert nnz d Hn.
  induction fin as [|line rest IH]; intros nnz d Hn H0 Hlim; simpl.
  - exists d. rewrite Z.add_0_r. auto.
  - unfold layer_lines in *. simpl. unfold in_layer at 1.
    pose proof (layer_lines_length_le rest) as Hle. unfold layer_lines in Hle.
    simpl length in Hlim.
    destruct (is_data_line line) eqn:Ed; simpl.
    + destruct (dims_modes_ok (Z.to_nat nmodes) 0 false line d) as (ptr' & d1 & E & L);
        [lia | lia |].
      rewrite E. change (0 =? 0) with true.
      replace (Nat.eqb (Z.to_nat nmodes) 0) with false
        by (symmetry; apply Nat.eqb_neq; lia).
      simpl. unfold line_index. simpl.
      destruct (outside_layer rinfo (fst (read_index idx_bits line))); simpl.
      * destruct (IH nnz d1) as (d' & E' & L'); try lia.
        exists d'. rewrite E'. split; [reflexivity | congruence].
      * rewrite idx_wrap_small by (unfold is_idx; lia).
        destruct (IH (nnz + 1) d1) as (d' & E' & L'); try lia.
        exists d'. rewrite E'. split; [|congruence].
        do 2 f_equal. lia.
    + destruct (IH nnz d) as (d' & E' & L'); try lia.
      exists d'. rewrite E'. auto.
Qed.

End Reader.

(** ** The layer-aware reader: second pass *)

Lemma rows_updated_refl f ind :
  (forall j row, ind !! j = Some row -> f j row = row) ->
  rows_updated f ind ind.
Proof. intros H. split; [reflexivity|]. intros j row E. rewrite (H j row E). exact E. Qed.

Lemma rows_updated_trans f g h ind ind1 ind2 :
  rows_updated f ind ind1 -> rows_updated g ind1 ind2 ->
  (forall j row, ind !! j = Some row -> g j (f j row) = h j row) ->
  rows_updated h ind ind2.
Proof.
  intros [L1 U1] [L2 U2] H. split; [congruence|].
  intros j row E. rewrite (U2 j _ (U1 j row E)), (H j row E). reflexivity.
Qed.

Lemma rows_updated_len f N ind ind' :
  rows_updated f ind ind' -> rows_len N ind ->
  (forall j row, length (f j row) = length row) ->
  rows_len N ind'.
Proof.
  intros [L U] HN Hf j row' E.
  destruct (lookup_lt_is_Some_2 ind j) as [row Er].
  { rewrite <- L. eapply lookup_lt_Some. exact E. }
  rewrite (U j row Er) in E. inversion E; subst.
  rewrite Hf. eapply HN. exact Er.
Qed.

Lemma store_ind_ok (ind : list (list Z)) (N : nat) (m : nat) (K v : Z) :
  (m < length ind)%nat -> rows_len N ind -> 0 <= K < Z.of_nat N ->
  exists ind',
    store_ind ind (Z.of_nat m) K v = Some ind' /\
    rows_updated (fun j row => if Nat.eqb j m then <[Z.to_nat K := v]> row else row)
                 ind ind'.
Proof.
  intros Hm HN HK. unfold store_ind, load.
  destruct (Z.leb_spec 0 (Z.of_nat m)); [|lia]. rewrite Nat2Z.id.
  destruct (lookup_lt_is_Some_2 ind m Hm) as [row Er]. rewrite Er.
  pose proof (HN m row Er) as Lr.
  rewrite (store_in_range row) by lia.
  rewrite store_in_range by lia. rewrite Nat2Z.id.
  eexists. split; [reflexivity|]. split; [apply length_insert|].
  intros j row' E. destruct (Nat.eqb_spec j m) as [->|Hne].
  - rewrite list_lookup_insert_eq by exact Hm. congruence.
  - rewrite list_lookup_insert_ne by congruence. exact E.
Qed.

Section SecondPass.

Variable idx_bits : positive.
Variable rinfo : rank_info.

Lemma read_index_skip (m : nat) (line : string) :
  read_index idx_bits (skip_indices idx_bits m line)
  = (line_index idx_bits m line, skip_indices idx_bits (S m) line).
Proof.
  unfold line_index. revert line. induction m as [|m IH]; intros line; simpl.
  - destruct (read_index idx_bits line); reflexivity.
  - rewrite IH. reflexivity.
Qed.

#[local] Arguments skip_indices : simpl never.

Lemma line_index_is_idx (m : nat) (line : string) :
  is_idx idx_bits (line_index idx_bits m line).
Proof.
  unfold line_index, read_index.
  destruct (strtoull (skip_indices idx_bits m line)). simpl.
  apply idx_wrap_range.
Qed.

(** Once a line is skipped, the rest of its modes store nothing. *)
Lemma fill_modes_skipped (K : Z) (k m : nat) (line : string) (ind : list (list Z)) :
  (1 <= m)%nat ->
  fill_modes idx_bits rinfo K k (Z.of_nat m) true (skip_indices idx_bits m line) ind
  = Some (true, skip_indices idx_bits (m + k) line, ind).
Proof.
  revert m ind. induction k as [|k IH]; intros m ind Hm; simpl.
  - rewrite Nat.add_0_r. reflexivity.
  - rewrite read_index_skip.
    replace (Z.of_nat m =? 0) with false by (symmetry; apply Z.eqb_neq; lia).
    simpl. replace (Z.of_nat m + 1) with (Z.of_nat (S m)) by lia.
    rewrite IH by lia.
    replace (S m + k)%nat with (m + S k)%nat by lia. reflexivity.
Qed.

(** On a line that is kept, modes [m .. m+k-1] are stored in cell [K]. *)
Lemma fill_modes_kept (K : Z) (N k m : nat) (line : string) (ind : list (list Z)) :
  (1 <= m)%nat -> (m + k <= length ind)%nat ->
  rows_len N ind -> 0 <= K < Z.of_nat N ->
  exists ind',
    fill_modes idx_bits rinfo K k (Z.of_nat m) false (skip_indices idx_bits m line) ind
    = Some (false, skip_indices idx_bits (m + k) line, ind') /\
    rows_updated
      (fun j row => if (m <=? j)%nat && (j <? m + k)%nat
                    then <[Z.to_nat K := line_index idx_bits j line]> row else row)
      ind ind'.
Proof.
  revert m ind. induction k as [|k IH]; intros m ind Hm Hk HN HK; simpl.
  - rewrite Nat.add_0_r. exists ind. split; [reflexivity|].
    apply rows_updated_refl. intros j row _.
    nbool; simpl; try reflexivity; lia.
  - rewrite read_index_skip.
    replace (Z.of_nat m =? 0) with false by (symmetry; apply Z.eqb_neq; lia).
    simpl.
    destruct (store_ind_ok ind N m K (line_index idx_bits m line))
      as (ind1 & E1 & U1); [lia | exact HN | exact HK |].
    rewrite E1. replace (Z.of_nat m + 1) with (Z.of_nat (S m)) by lia.
    destruct (IH (S m) ind1) as (ind2 & E2 & U2); try lia.
    { destruct U1 as [L1 _]. lia. }
    { eapply rows_updated_len; [exact U1 | exact HN |].
      intros j row. simpl. destruct (Nat.eqb j m); [apply length_insert | reflexivity]. }
    exists ind2. rewrite E2.
    replace (S m + k)%nat with (m + S k)%nat by lia. split; [reflexivity|].
    eapply rows_updated_trans; [exact U1 | exact U2 |].
    intros j row _. cbv beta.
    nbool; subst; simpl; try reflexivity; lia.
Qed.

(** The mode loop on a whole data line. *)
Lemma fill_modes_line (K : Z) (N : nat) (nmodes : nat) (line : string)
    (ind : list (list Z)) :
  (1 <= nmodes)%nat -> length ind = nmodes -> rows_len N ind -> 0 <= K ->
  0 <= layer_start rinfo ->
  (outside_layer rinfo (line_index idx_bits 0 line) = false -> K < Z.of_nat N) ->
  exists ind',
    fill_modes idx_bits rinfo K nmodes 0 false line ind
    = Some (outside_layer rinfo (line_index idx_bits 0 line),
            skip_indices idx_bits nmodes line, ind') /\
    if outside_layer rinfo (line_index idx_bits 0 line) then ind' = ind
    else rows_updated
           (fun j row => <[Z.to_nat K := local_index idx_bits rinfo j line]> row)
           ind ind'.
Proof.
  intros Hn Hlen HN HK Hstart Hroom.
  destruct nmodes as [|k]; [lia|]. simpl.
  pose proof (read_index_skip 0 line) as Hr.
  change (skip_indices idx_bits 0 line) with line in Hr. rewrite Hr.
  destruct (outside_layer rinfo (line_index idx_bits 0 line)) eqn:Eo.
  - exists ind. split; [|reflexivity].
    change (0 + 1) with (Z.of_nat 1).
    change (skip_indices idx_bits 1 line)
      with (skip_indices idx_bits 1 line).
    rewrite (fill_modes_skipped K k 1 line ind) by lia. reflexivity.
  - specialize (Hroom eq_refl).
    pose proof (line_index_is_idx 0 line) as Hidx. unfold is_idx in Hidx.
    assert (layer_start rinfo <= line_index idx_bits 0 line) as Hge.
    { unfold outside_layer in Eo. apply orb_false_iff in Eo as [Eo _].
      apply Z.ltb_ge in Eo. exact Eo. }
    rewrite idx_wrap_small by (unfold is_idx; lia).
    destruct (store_ind_ok ind N 0 K
                (line_index idx_bits 0 line - layer_start rinfo))
      as (ind1 & E1 & U1); [lia | exact HN | lia |].
    change (Z.of_nat 0) with 0 in E1. rewrite E1.
    change (0 + 1) with (Z.of_nat 1).
    destruct (fill_modes_kept K N k 1 line ind1) as (ind2 & E2 & U2); try lia.
    { destruct U1 as [L1 _]. lia. }
    { eapply rows_updated_len; [exact U1 | exact HN |].
      intros j row. simpl. destruct (Nat.eqb j 0); [apply length_insert | reflexivity]. }
    exists ind2. rewrite E2. split; [reflexivity|].
    eapply rows_updated_trans; [exact U1 | exact U2 |].
    intros j row Ej. simpl.
    assert (j < S k)%nat by (rewrite <- Hlen; eapply lookup_lt_Some; exact Ej).
    destruct j as [|j]; simpl.
    + reflexivity.
    + destruct (Nat.ltb_spec (S j) (S k)); [reflexivity | lia].
Qed.

End SecondPass.

Lemma insert_segment {A} (l : list A) (K : nat) (e : A) (M : list A) :
  (K < length l)%nat ->
  take (S K) (<[K := e]> l) ++ M ++ drop (S (K + length M)) (<[K := e]> l)
  = take K l ++ (e :: M) ++ drop (K + S (length M)) l.
Proof.
  intros HK.
  rewrite (take_S_r _ _ e) by (apply list_lookup_insert_eq; exact HK).
  rewrite take_insert_ge by lia. rewrite drop_insert_lt by lia.
  rewrite <- app_assoc. simpl.
  replace (K + S (length M))%nat with (S (K + length M)) by lia. reflexivity.
Qed.

Lemma with_tt_ind_same v : with_tt_ind (tt_ind v) v = v.
Proof. destruct v. reflexivity. Qed.

Section FillLines.

Variable idx_bits : positive.
Variable strtod : string -> float * string.
Variable rinfo : rank_info.

Lemma layer_lines_cons (line : string) (rest : file) :
  layer_lines idx_bits rinfo (line :: rest)
  = if in_layer idx_bits rinfo line
    then line :: layer_lines idx_bits rinfo rest
    else layer_lines idx_bits rinfo rest.
Proof. reflexivity. Qed.

Lemma fill_lines_spec (nmodes : Z) (N : nat) (rest : file) (K : nat) (v : sptensor_t) :
  1 <= nmodes -> 0 <= layer_start rinfo ->
  Z.of_nat N < idx_modulus idx_bits ->
  tensor_shape N (Z.to_nat nmodes) v ->
  (K + length (layer_lines idx_bits rinfo rest) <= N)%nat ->
  exists v',
    fill_lines idx_bits strtod rinfo nmodes rest (Z.of_nat K) v = Some v' /\
    tt_nmodes v' = tt_nmodes v /\ tt_nnz v' = tt_nnz v /\ tt_dims v' = tt_dims v /\
    rows_updated
      (fun j row =>
         take K row ++ map (local_index idx_bits rinfo j) (layer_lines idx_bits rinfo rest)
         ++ drop (K + length (layer_lines idx_bits rinfo rest)) row)
      (tt_ind v) (tt_ind v') /\
    tt_vals v'
    = take K (tt_vals v)
      ++ map (line_value idx_bits strtod nmodes) (layer_lines idx_bits rinfo rest)
      ++ drop (K + length (layer_lines idx_bits rinfo rest)) (tt_vals v).
Proof.
  intros Hn Hstart Hmod. revert K v.
  induction rest as [|line rest IH]; intros K v Hv HK.
  - exists v. simpl. rewrite Nat.add_0_r, take_drop. repeat split; try reflexivity.
    intros j row E. rewrite E, take_drop. reflexivity.
  - destruct v as [vn vz vd vi vv].
    destruct Hv as (Hnnz & Hlen & Hrows & Hvals).
    simpl in Hnnz, Hlen, Hrows, Hvals.
    rewrite !layer_lines_cons in *. unfold in_layer in HK |- *.
    cbn [fill_lines].
    destruct (is_data_line line) eqn:Ed; simpl in HK |- *.
    + destruct (fill_modes_line idx_bits rinfo (Z.of_nat K) N (Z.to_nat nmodes)
                  line vi) as (ind1 & E1 & U1);
        [lia | exact Hlen | exact Hrows | lia | exact Hstart | |].
      { intros Eo. rewrite Eo in HK. simpl in HK. lia. }
      rewrite E1.
      destruct (outside_layer rinfo (line_index idx_bits 0 line)) eqn:Eo;
        simpl in HK |- *.
      * subst ind1.
        apply (IH K (Build_sptensor_t vn vz vd vi vv));
          [repeat split; assumption | exact HK].
      * assert (K < N)%nat as HKN by lia.
        rewrite (store_in_range vv) by lia.
        rewrite idx_wrap_small by (unfold is_idx; lia).
        destruct (Z.leb_spec (Z.of_nat K + 1) vz); [|lia].
        replace (Z.of_nat K + 1) with (Z.of_nat (S K)) by lia.
        match goal with
        | |- context [fill_lines _ _ _ _ rest _ ?v1] =>
            destruct (IH (S K) v1) as (v' & E' & F1 & F2 & F3 & U' & V')
        end.
        { repeat split; simpl; try assumption.
          - destruct U1 as [L1 _]. congruence.
          - eapply rows_updated_len; [exact U1 | exact Hrows |].
            intros j row. apply length_insert.
          - rewrite length_insert. exact Hvals. }
        { lia. }
        exists v'. rewrite E'. rewrite Nat2Z.id in *. simpl in F1, F2, F3, U', V'.
        repeat (split; [assumption || reflexivity|]).
        split.
        -- eapply rows_updated_trans; [exact U1 | exact U' |].
           intros j row Ej. cbv beta.
           rewrite <- (length_map (local_index idx_bits rinfo j)).
           apply insert_segment.
           rewrite (Hrows j row Ej). exact HKN.
        -- rewrite V'.
           rewrite <- (length_map (line_value idx_bits strtod nmodes)).
           apply insert_segment. lia.
    + apply (IH K (Build_sptensor_t vn vz vd vi vv));
        [repeat split; assumption | exact HK].
Qed.

End FillLines.

(** ** The distributed load of the validation tensor *)

Section LoadValidate.

Variable idx_bits : positive.
Variable MAX_NMODES : Z.
Variable strtod : string -> float * string.
Variable rinfo : rank_info.

Lemma tt_get_layer_dims_ok (fin : file) (dims0 : list Z) :
  let nmodes := idx_wrap idx_bits (count_first_line idx_bits fin 0 - 1) in
  1 <= nmodes <= Z.of_nat (length dims0) ->
  Z.of_nat (length fin) < idx_modulus idx_bits ->
  exists dims,
    tt_get_layer_dims idx_bits fin dims0 rinfo
    = Some (nmodes, Z.of_nat (length (layer_lines idx_bits rinfo fin)), dims) /\
    length dims = length dims0 /\
    dims !! 0%nat = Some (idx_wrap idx_bits (layer_end rinfo - layer_start rinfo)).
Proof.
  intros nmodes Hn Hfin. unfold tt_get_layer_dims. fold nmodes.
  destruct (zero_dims_ok (Z.to_nat nmodes) 0 dims0) as (d0 & E0 & L0); [lia | lia |].
  rewrite E0.
  destruct (dims_lines_ok idx_bits rinfo nmodes fin 0 d0) as (d1 & E1 & L1);
    [lia | lia | lia |].
  rewrite E1. simpl Z.add.
  rewrite store_in_range by lia.
  eexists. split; [reflexivity|]. split.
  - rewrite length_insert. congruence.
  - apply list_lookup_insert_eq. simpl. lia.
Qed.

(** A file with more modes than [outdims] has cells overruns the array in
    the zeroing loop, before the caller can compare [nmodes] with
    [MAX_NMODES]. *)
Lemma too_many_modes_overruns (fin : file) (dims0 : list Z) :
  let nmodes := idx_wrap idx_bits (count_first_line idx_bits fin 0 - 1) in
  Z.of_nat (length dims0) < nmodes ->
  tt_get_layer_dims idx_bits fin dims0 rinfo = None /\
  load_validate_layer idx_bits MAX_NMODES strtod fin dims0 rinfo = LoadFault.
Proof.
  intros nmodes Hn.
  assert (tt_get_layer_dims idx_bits fin dims0 rinfo = None) as E.
  { unfold tt_get_layer_dims. fold nmodes.
    rewrite zero_dims_overrun by lia. reflexivity. }
  split; [exact E|]. unfold load_validate_layer. rewrite E. reflexivity.
Qed.

Lemma in_layer_bounds (line : string) :
  is_idx idx_bits (layer_start rinfo) -> is_idx idx_bits (layer_end rinfo) ->
  in_layer idx_bits rinfo line = true ->
  0 <= local_index idx_bits rinfo 0 line
     < idx_wrap idx_bits (layer_end rinfo - layer_start rinfo).
Proof.
  intros Hs He Hin. unfold in_layer, outside_layer in Hin.
  apply andb_true_iff in Hin as [_ Hin]. apply negb_true_iff in Hin.
  apply orb_false_iff in Hin as [H1 H2].
  apply Z.ltb_ge in H1. rewrite Z.geb_leb in H2. apply Z.leb_gt in H2.
  unfold is_idx in *. simpl.
  rewrite idx_wrap_small by (unfold is_idx; lia). lia.
Qed.

(** C2.  The worker whose layer of mode 0 is [layer_start .. layer_end - 1]
    loads from the validation file exactly the data lines whose 0-based
    mode-0 index lies in the layer, in file order: the first pass counts
    them into [nnz] and sets [dims[0]] to the extent of the layer, the
    second pass stores each of them with its mode-0 index counted from
    [layer_start], and every stored mode-0 index is below [dims[0]]. *)
Theorem load_validate_layer_exact (fin : file) (dims0 : list Z) :
  let nmodes := idx_wrap idx_bits (count_first_line idx_bits fin 0 - 1) in
  let lines := layer_lines idx_bits rinfo fin in
  1 <= nmodes <= MAX_NMODES ->
  Z.of_nat (length dims0) = MAX_NMODES ->
  Z.of_nat (length fin) < idx_modulus idx_bits ->
  is_idx idx_bits (layer_start rinfo) -> is_idx idx_bits (layer_end rinfo) ->
  layer_start rinfo <= layer_end rinfo ->
  (exists dims,
     tt_get_layer_dims idx_bits fin dims0 rinfo
     = Some (nmodes, Z.of_nat (length lines), dims) /\
     dims !! 0%nat = Some (layer_end rinfo - layer_start rinfo)) /\
  exists validate,
    load_validate_layer idx_bits MAX_NMODES strtod fin dims0 rinfo = Loaded validate /\
    tt_nmodes validate = nmodes /\
    tt_nnz validate = Z.of_nat (length lines) /\
    tt_dims validate !! 0%nat = Some (layer_end rinfo - layer_start rinfo) /\
    (forall m, (m < Z.to_nat nmodes)%nat ->
               tt_ind validate !! m
               = Some (map (local_index idx_bits rinfo m) lines)) /\
    tt_vals validate = map (line_value idx_bits strtod nmodes) lines /\
    (forall row k x,
        tt_ind validate !! 0%nat = Some row -> row !! k = Some x ->
        0 <= x < layer_end rinfo - layer_start rinfo).
Proof.
  intros nmodes lines Hn Hd Hfin Hs He Hse.
  rewrite <- (idx_wrap_small idx_bits (layer_end rinfo - layer_start rinfo))
    by (unfold is_idx in *; lia).
  destruct (tt_get_layer_dims_ok fin dims0) as (dims & E & Ld & D0);
    [fold nmodes; lia | exact Hfin |]. fold nmodes in E. fold lines in E.
  split; [exists dims; auto|].
  unfold load_validate_layer. rewrite E.
  destruct (Z.gtb_spec nmodes MAX_NMODES); [lia|].
  set (N := length lines) in *.
  destruct (fill_lines_spec idx_bits strtod rinfo nmodes N fin 0
              (with_tt_dims (take (Z.to_nat nmodes) dims) (tt_alloc (Z.of_nat N) nmodes)))
    as (v & Ev & F1 & F2 & F3 & U & V).
  { lia. }
  { apply Hs. }
  { pose proof (layer_lines_length_le idx_bits rinfo fin). unfold N, lines. lia. }
  { unfold tensor_shape, tt_alloc. simpl. rewrite Nat2Z.id, !length_replicate.
    repeat split; try reflexivity.
    intros j row Ej. apply lookup_replicate in Ej as [-> _]. apply length_replicate. }
  { unfold N, lines. lia. }
  change (Z.of_nat 0) with 0 in Ev. rewrite Ev.
  exists v. simpl in F1, F2, F3, U, V. fold lines in U, V. fold N in U, V.
  rewrite Nat2Z.id in U, V.
  assert (forall m, (m < Z.to_nat nmodes)%nat ->
                    tt_ind v !! m = Some (map (local_index idx_bits rinfo m) lines))
    as Hrows.
  { intros m Hm. destruct U as [_ U].
    rewrite (U m (replicate N 0)) by (apply lookup_replicate_2; exact Hm).
    rewrite drop_ge by (rewrite length_replicate; lia).
    rewrite app_nil_r. reflexivity. }
  split; [reflexivity|]. split; [exact F1|]. split; [exact F2|].
  split; [rewrite F3, lookup_take_lt by lia; exact D0|].
  split; [exact Hrows|]. split.
  - rewrite V, drop_ge by (rewrite length_replicate; lia).
    rewrite app_nil_r. reflexivity.
  - intros row k x Hrow Hx.
    rewrite (Hrows 0%nat) in Hrow by lia. inversion Hrow; subst row.
    apply list_lookup_fmap_Some in Hx as (line & -> & Hl).
    apply in_layer_bounds; try assumption.
    apply list_elem_of_lookup_2 in Hl. apply list_elem_of_In in Hl.
    apply filter_In in Hl. apply Hl.
Qed.

End LoadValidate.

(** ** The training loop *)

Lemma improves_true_lt (v : Q) (b tol : Q) :
  improves v (Finite b) tol = true -> (v < b - tol)%Q.
Proof.
  unfold improves. intros H. apply negb_true_iff in H.
  apply Qnot_le_lt. intros Hle. apply Qle_bool_iff in Hle. congruence.
Qed.

Lemma improves_false_ge (v : Q) (b tol : Q) :
  improves v (Finite b) tol = false -> (b - tol <= v)%Q.
Proof.
  unfold improves. intros H. apply negb_false_iff in H.
  apply Qle_bool_iff. exact H.
Qed.

Lemma score_le_refl s : score_le s s.
Proof. destruct s; simpl; [apply Qle_refl | exact I]. Qed.

Lemma score_le_trans s1 s2 s3 : score_le s1 s2 -> score_le s2 s3 -> score_le s1 s3.
Proof.
  destruct s1, s2, s3; simpl; try tauto. apply Qle_trans.
Qed.

Lemma contents_app_old (h extra : buffers) (factors : list nat) :
  Forall (fun a => (a < length h)%nat) factors ->
  contents (h ++ extra) factors = contents h factors.
Proof.
  intros H. unfold contents. apply map_ext_in. intros a Ha. cbv beta.
  rewrite List.Forall_forall in H. rewrite lookup_app_l by (apply H; exact Ha).
  reflexivity.
Qed.

Lemma contents_app_new (h extra : buffers) :
  contents (h ++ extra) (seq (length h) (length extra)) = extra.
Proof.
  unfold contents. apply list_eq. intros i.
  rewrite list_lookup_fmap.
  destruct (decide (i < length extra)%nat) as [Hi|Hi].
  - rewrite lookup_seq_lt by exact Hi. simpl.
    rewrite lookup_app_r by lia.
    replace (length h + i - length h)%nat with i by lia.
    destruct (lookup_lt_is_Some_2 extra i Hi) as [x ->]. reflexivity.
  - rewrite lookup_seq_ge by lia. simpl. symmetry.
    apply lookup_ge_None. lia.
Qed.

Lemma write_back_length (h : buffers) (factors : list nat) (new : list (list Q)) :
  length (write_back h factors new) = length h.
Proof.
  revert h new. induction factors as [|a factors IH]; intros h new; simpl.
  - reflexivity.
  - destruct new as [|b new]; [reflexivity|].
    rewrite IH. apply length_insert.
Qed.

(** Overwriting a model's buffers leaves every other buffer as it was. *)
Lemma write_back_other (h : buffers) (factors : list nat) (new : list (list Q)) (a : nat) :
  ~ In a factors -> write_back h factors new !! a = h !! a.
Proof.
  revert h new. induction factors as [|a' factors IH]; intros h new Hin; simpl.
  - reflexivity.
  - destruct new as [|b new]; [reflexivity|].
    rewrite IH by (intros H; apply Hin; right; exact H).
    apply list_lookup_insert_ne. intros ->. apply Hin. left. reflexivity.
Qed.

Section TrainingLoopFacts.

Variable update : nat -> list (list Q) -> list (list Q).
Variable rmse : list (list Q) -> Q.
Variable elapsed : nat -> Q.
Variable budget : loop_budget.

Lemma run_epoch_live e st :
  live_in_store st -> live_in_store (run_epoch update e st).
Proof.
  unfold live_in_store, run_epoch. simpl. rewrite write_back_length. auto.
Qed.

Lemma validate_epoch_live e st :
  live_in_store st -> live_in_store (validate_epoch rmse budget e st).
Proof.
  unfold live_in_store, validate_epoch, clone. intros H.
  destruct (improves _ _ _); simpl; [|exact H].
  eapply Forall_impl; [exact H|]. intros a Ha. simpl in Ha.
  rewrite length_app. lia.
Qed.

Lemma state_after_live n h live :
  Forall (fun a => (a < length h)%nat) live ->
  live_in_store (state_after update rmse budget n h live).
Proof.
  intros H. induction n as [|n IH]; simpl.
  - exact H.
  - apply validate_epoch_live, run_epoch_live, IH.
Qed.

(** What one validation does to the best-model record. *)
Lemma validate_epoch_cases e st :
  let v := validation rmse st in
  let st' := validate_epoch rmse budget e st in
  (improves v (ls_best_score st) (lb_tolerance budget) = true /\
   ls_best_score st' = Finite v /\ ls_best_epoch st' = e /\
   ls_best_model st' = Some (seq (length (ls_store st)) (length (ls_live st))) /\
   ls_store st' = ls_store st ++ contents (ls_store st) (ls_live st) /\
   ls_live st' = ls_live st /\ ls_stalled st' = 0%nat) \/
  (improves v (ls_best_score st) (lb_tolerance budget) = false /\
   ls_best_score st' = ls_best_score st /\ ls_best_epoch st' = ls_best_epoch st /\
   ls_best_model st' = ls_best_model st /\ ls_store st' = ls_store st /\
   ls_live st' = ls_live st /\ ls_stalled st' = S (ls_stalled st)).
Proof.
  intros v st'. unfold st', validate_epoch, clone. fold v.
  destruct (improves v (ls_best_score st) (lb_tolerance budget)); simpl;
    [left | right]; repeat split; reflexivity.
Qed.

Lemma improves_iff v best tol :
  improves v best tol = true <-> improves_beyond v best tol.
Proof.
  destruct best as [b|]; simpl; [|tauto]. split.
  - apply improves_true_lt.
  - intros H. apply negb_true_iff. destruct (Qle_bool (b - tol) v) eqn:E; [|reflexivity].
    apply Qle_bool_iff in E. exfalso. eapply Qlt_not_le; eauto.
Qed.

Lemma fresh_not_live (h : buffers) (live : list nat) (n a : nat) :
  Forall (fun a => (a < length h)%nat) live ->
  In a (seq (length h) n) -> ~ In a live.
Proof.
  intros Hl Ha Hin. apply in_seq in Ha.
  rewrite List.Forall_forall in Hl. specialize (Hl a Hin). simpl in Hl. lia.
Qed.

Lemma epoch_step_separate e st :
  live_in_store st -> best_separate st ->
  best_separate (epoch_step update rmse budget e st).
Proof.
  intros Hl Hs. unfold epoch_step.
  pose proof (run_epoch_live e st Hl) as Hl1.
  destruct (validate_epoch_cases e (run_epoch update e st))
    as [(_ & _ & _ & Em & _ & El & _) | (_ & _ & _ & Em & _ & El & _)];
    intros copy a Hc Ha; rewrite Em in Hc; rewrite El.
  - inversion Hc; subst copy. eapply fresh_not_live; [exact Hl1 | exact Ha].
  - simpl in *. eapply Hs; eauto.
Qed.

Lemma state_after_separate n h live :
  Forall (fun a => (a < length h)%nat) live ->
  best_separate (state_after update rmse budget n h live).
Proof.
  intros H. induction n as [|n IH]; simpl.
  - intros copy a Hc. discriminate.
  - apply epoch_step_separate; [apply state_after_live; exact H | exact IH].
Qed.

(** An epoch of training does not touch the best-model copy. *)
Lemma run_epoch_keeps_best e st copy :
  best_separate st -> ls_best_model st = Some copy ->
  contents (ls_store (run_epoch update e st)) copy = contents (ls_store st) copy.
Proof.
  intros Hs Hc. unfold contents, run_epoch. simpl.
  apply map_ext_in. intros a Ha. cbv beta.
  rewrite write_back_other by (eapply Hs; eauto). reflexivity.
Qed.

Lemma epoch_step_score e st :
  (0 <= lb_tolerance budget)%Q ->
  score_le (ls_best_score (epoch_step update rmse budget e st)) (ls_best_score st).
Proof.
  intros Htol. unfold epoch_step.
  destruct (validate_epoch_cases e (run_epoch update e st))
    as [(Hi & Es & _) | (_ & Es & _)]; rewrite Es.
  - simpl in Hi. destruct (ls_best_score st) as [b|] eqn:Eb; simpl; [|exact I].
    apply improves_true_lt in Hi. apply Qlt_le_weak.
    eapply Qlt_le_trans; [exact Hi|].
    rewrite <- (Qplus_0_r b) at 2. unfold Qminus. apply Qplus_le_r.
    apply (Qopp_le_compat 0). exact Htol.
  - apply score_le_refl.
Qed.

Lemma best_score_antitone n m h live :
  (0 <= lb_tolerance budget)%Q -> (n <= m)%nat ->
  score_le (ls_best_score (state_after update rmse budget m h live))
           (ls_best_score (state_after update rmse budget n h live)).
Proof.
  intros Htol Hnm. induction Hnm as [|m Hnm IH].
  - apply score_le_refl.
  - simpl. eapply score_le_trans; [apply epoch_step_score; exact Htol | exact IH].
Qed.

(** A run visits the states [state_after 1], [state_after 2], ... and ends
    in one of them. *)
Lemma train_from_state fuel e st h live st' E why :
  st = state_after update rmse budget e h live ->
  train_from update rmse elapsed budget fuel (S e) st = Some (st', E, why) ->
  (S e <= E)%nat /\ st' = state_after update rmse budget E h live.
Proof.
  revert e st. induction fuel as [|fuel IH]; intros e st Hst H; simpl in H.
  - discriminate.
  - destruct (stop_check elapsed budget (S e) (epoch_step update rmse budget (S e) st)).
    + inversion H; subst. split; [lia | reflexivity].
    + apply IH in H; [|subst st; reflexivity]. destruct H as [Hle ->].
      split; [lia | reflexivity].
Qed.

(** C6, for a tolerance that is not negative.  Along the epochs of a run
    the best score never increases; an epoch whose validation score does
    not beat the best score by more than the tolerance, a tie among them,
    leaves the best score, epoch and model as they are; and the best epoch
    changes only at an epoch whose score beats the best score by more than
    the tolerance, which then becomes the best epoch, its score the best
    score, and the best-model slot receives a copy of the live model in
    buffers of its own. *)
Theorem best_score_never_worsens (h : buffers) (live : list nat) (n m : nat) :
  (0 <= lb_tolerance budget)%Q ->
  Forall (fun a => (a < length h)%nat) live ->
  let st := state_after update rmse budget n h live in
  let st' := state_after update rmse budget (S n) h live in
  let v := validation rmse (run_epoch update (S n) st) in
  ((n <= m)%nat ->
   score_le (ls_best_score (state_after update rmse budget m h live))
            (ls_best_score st)) /\
  (~ improves_beyond v (ls_best_score st) (lb_tolerance budget) ->
   ls_best_score st' = ls_best_score st /\
   ls_best_epoch st' = ls_best_epoch st /\
   ls_best_model st' = ls_best_model st) /\
  (forall b, ls_best_score st = Finite b -> (v == b)%Q ->
             ls_best_score st' = ls_best_score st /\
             ls_best_epoch st' = ls_best_epoch st /\
             ls_best_model st' = ls_best_model st) /\
  (ls_best_epoch st' <> ls_best_epoch st ->
   improves_beyond v (ls_best_score st) (lb_tolerance budget) /\
   ls_best_epoch st' = S n /\ ls_best_score st' = Finite v /\
   exists copy,
     ls_best_model st' = Some copy /\
     contents (ls_store st') copy = contents (ls_store st') (ls_live st') /\
     forall a, In a copy -> ~ In a (ls_live st')) /\
  (forall fuel st_end E why,
      train update rmse elapsed budget fuel h live = Some (st_end, E, why) ->
      (1 <= E)%nat /\ st_end = state_after update rmse budget E h live).
Proof.
  intros Htol Hlive st st' v.
  assert (live_in_store (run_epoch update (S n) st)) as Hl1
    by (apply run_epoch_live, state_after_live; exact Hlive).
  pose proof (validate_epoch_cases (S n) (run_epoch update (S n) st)) as Hc.
  cbv zeta in Hc. fold v in Hc.
  change (validate_epoch rmse budget (S n) (run_epoch update (S n) st)) with st' in Hc.
  change (ls_best_score (run_epoch update (S n) st)) with (ls_best_score st) in Hc.
  change (ls_best_epoch (run_epoch update (S n) st)) with (ls_best_epoch st) in Hc.
  change (ls_best_model (run_epoch update (S n) st)) with (ls_best_model st) in Hc.
  assert (~ improves_beyond v (ls_best_score st) (lb_tolerance budget) ->
          ls_best_score st' = ls_best_score st /\
          ls_best_epoch st' = ls_best_epoch st /\
          ls_best_model st' = ls_best_model st) as Hkeep.
  { intros Hno.
    destruct Hc as [(Hi & _) | (_ & Es & Ee & Em & _)]; [|auto].
    apply improves_iff in Hi. contradiction. }
  split; [|split; [|split; [|split]]].
  - intros Hnm. apply best_score_antitone; assumption.
  - exact Hkeep.
  - intros b Eb Htie. apply Hkeep. rewrite Eb. simpl. rewrite Htie.
    intros Hlt. apply (Qlt_not_le _ _ Hlt).
    rewrite <- (Qplus_0_r b) at 2. unfold Qminus. apply Qplus_le_r.
    apply (Qopp_le_compat 0). exact Htol.
  - intros Hne.
    destruct Hc as [(Hi & Es & Ee & Em & Eh & El & _) | (_ & _ & Ee & _)];
      [|congruence].
    split; [apply improves_iff; exact Hi|].
    split; [exact Ee|]. split; [exact Es|].
    eexists. split; [exact Em|]. rewrite Eh, El. split.
    + rewrite <- (length_map (fun a => default [] (ls_store (run_epoch update (S n) st) !! a))
                    (ls_live (run_epoch update (S n) st))).
      fold (contents (ls_store (run_epoch update (S n) st))
              (ls_live (run_epoch update (S n) st))).
      rewrite contents_app_new.
      symmetry. apply contents_app_old. exact Hl1.
    + intros a Ha. eapply fresh_not_live; [exact Hl1 | exact Ha].
  - intros fuel st_end E why Htrain. unfold train in Htrain.
    eapply (train_from_state fuel 0) in Htrain; [|reflexivity].
    destruct Htrain as [HE ->]. split; [lia | reflexivity].
Qed.

(** The iteration budget stops the loop: with [max_its] positive, every
    run of at least [max_its] steps of fuel ends, and within [max_its]
    epochs. *)
Lemma train_from_halts (fuel e : nat) (st : loop_state) :
  (1 <= e)%nat -> Z.of_nat e <= lb_max_its budget ->
  lb_max_its budget - Z.of_nat e < Z.of_nat fuel ->
  exists st' E why,
    train_from update rmse elapsed budget fuel e st = Some (st', E, why) /\
    (e <= E)%nat /\ Z.of_nat E <= lb_max_its budget.
Proof.
  revert e st. induction fuel as [|fuel IH]; intros e st He Hle Hfuel; simpl.
  - lia.
  - destruct (stop_check elapsed budget e (epoch_step update rmse budget e st))
      as [why|] eqn:Es.
    + eexists _, e, why. split; [reflexivity|]. lia.
    + assert (Z.of_nat e < lb_max_its budget) as Hlt.
      { unfold stop_check in Es.
        destruct (20 <=? _)%nat; [discriminate|].
        destruct (match lb_max_seconds budget with
                  | Some limit => negb (Qle_bool (elapsed e) limit)
                  | None => false
                  end); [discriminate|].
        destruct (lb_max_its budget =? 0) eqn:E0; [apply Z.eqb_eq in E0; lia|].
        simpl in Es.
        destruct (Z.leb_spec (lb_max_its budget) (Z.of_nat e)); [discriminate | lia]. }
      destruct (IH (S e) (epoch_step update rmse budget e st))
        as (st' & E & why & Et & HE & HM); try lia.
      exists st', E, why. split; [exact Et|]. lia.
Qed.

End TrainingLoopFacts.

(** C7.  When the caller gives a positive [max_its], the workspace takes
    it, and a loop run on that budget halts after at most [max_its] epochs,
    whatever the tolerance, the time-out, the scores and the clock. *)
Theorem max_its_bounds_epochs update rmse elapsed (budget : loop_budget)
    (nmodes : Z) (args : tc_cmd_args) (ws ws' : tc_ws)
    (h : buffers) (live : list nat) (fuel : nat) :
  0 < max_its args ->
  override_defaults nmodes args ws = Some ws' ->
  lb_max_its budget = ws_max_its ws' ->
  max_its args <= Z.of_nat fuel ->
  ws_max_its ws' = max_its args /\
  exists st E why,
    train update rmse elapsed budget fuel h live = Some (st, E, why) /\
    (1 <= E)%nat /\ Z.of_nat E <= max_its args.
Proof.
  intros Hpos Hover Hb Hfuel.
  destruct (override_defaults_fields _ _ _ _ Hover) as (_ & _ & Hits & _).
  destruct (Z.eqb_spec (max_its args) 0) as [E0|_]; [lia|].
  split; [exact Hits|].
  rewrite Hits in Hb.
  destruct (train_from_halts update rmse elapsed budget fuel 1 (loop_init h live))
    as (st & E & why & Et & HE & HM); [lia | rewrite Hb; lia | rewrite Hb; lia |].
  exists st, E, why. split; [exact Et|]. rewrite Hb in HM. lia.
Qed.

(** ** The command line: positional arguments *)

Lemma parse_tc_opt_files idx_bits atof strtod key arg args files tr tr' args' :
  files_stored files args ->
  parse_tc_opt idx_bits atof strtod key arg args tr = (tr', inl args') ->
  files_stored (files ++ (if key =? ARGP_KEY_ARG then [skip_equals arg] else [])) args'.
Proof.
  intros (Hlen & Hn & Hnames) H. destruct args; simpl in Hn, Hnames; subst.
  unfold parse_tc_opt in H.
  repeat match type of H with
         | context [if ?k =? ?c then _ else _] =>
             destruct (Z.eqb_spec k c); [subst key|]
         end.
  all: try (destruct (skip_equals arg); run_step; try discriminate;
     repeat match type of H with
           | context [bool_decide ?P] => destruct (bool_decide_reflect P)
           end; run_step; try discriminate;
     inversion H; subst; rewrite app_nil_r; repeat split; assumption).
  simpl in H.
  destruct files as [|f0 [|f1 [|f2 [|f3 files]]]]; simpl in Hlen; try lia;
    run_step; try discriminate; inversion H; subst; repeat split; simpl; lia.
Qed.

Lemma default_files idx_bits omp time_now args0 :
  files_stored [] (default_tc_opts idx_bits omp time_now args0).
Proof. destruct args0. repeat split. simpl. lia. Qed.

Lemma argp_parse_files idx_bits atof strtod calls args files tr tr' args' :
  files_stored files args ->
  argp_parse idx_bits atof strtod calls args tr = (tr', inl args') ->
  files_stored (files ++ positional calls) args'.
Proof.
  revert args files tr. induction calls as [|[key arg] calls IH]; intros args files tr Hf H.
  - inversion H; subst. unfold positional, option_values. simpl.
    rewrite app_nil_r. exact Hf.
  - simpl in H. unfold bind in H.
    destruct (parse_tc_opt idx_bits atof strtod key arg args tr) as [tr1 [a1|e1]] eqn:E;
      [|discriminate].
    pose proof (parse_tc_opt_files _ _ _ _ _ _ _ _ _ _ Hf E) as Hf1.
    apply (IH _ _ _ Hf1) in H.
    replace (files ++ positional ((key, arg) :: calls))
      with ((files ++ (if key =? ARGP_KEY_ARG then [skip_equals arg] else []))
            ++ positional calls); [exact H|].
    rewrite <- app_assoc. f_equal. unfold positional, option_values. simpl.
    destruct (key =? ARGP_KEY_ARG); reflexivity.
Qed.

(** X1.  The parser keeps at most three positional arguments: after a
    successful parse [ifnames] holds them in the order given, each without
    a leading [=], followed by null pointers, and [nfiles] is their number;
    a fourth positional argument prints the usage and ends the process. *)
Theorem positional_arguments idx_bits atof strtod omp time_now pre args0 tr tr' args :
  argp_parse idx_bits atof strtod pre
    (default_tc_opts idx_bits omp time_now args0) tr = (tr', inl args) ->
  (length (positional pre) <= 3)%nat /\
  nfiles args = Z.of_nat (length (positional pre)) /\
  ifnames args = positional pre ++ replicate (3 - length (positional pre)) None /\
  (length (positional pre) = 3%nat ->
   forall arg post,
     argp_parse idx_bits atof strtod (pre ++ (ARGP_KEY_ARG, arg) :: post)
       (default_tc_opts idx_bits omp time_now args0) tr
     = (tr' ++ [EvUsage], inr UsageExit)).
Proof.
  intros H.
  destruct (argp_parse_files _ _ _ _ _ _ _ _ _ (default_files idx_bits omp time_now args0) H)
    as (Hlen & Hn & Hnames).
  simpl in Hlen, Hn, Hnames.
  repeat split; try assumption.
  intros H3 arg post. rewrite (argp_parse_app _ _ _ _ _ _ _ _ _ H). simpl.
  apply bind_inr. unfold parse_tc_opt.
  change (ARGP_KEY_ARG =? key_i) with false.
  rewrite Hn, H3. reflexivity.
Qed.

(** X2.  At the end of the command line the parser insists on a training
    and a validation file: with fewer than two positional arguments it
    prints the usage and ends the process; a command line that passes
    leaves both names non-null, so the readers are never handed a null
    name. *)
Theorem end_of_arguments_needs_two_files idx_bits atof strtod omp time_now
    opts args0 tr tr' args :
  argp_parse idx_bits atof strtod opts
    (default_tc_opts idx_bits omp time_now args0) tr = (tr', inl args) ->
  ((length (positional opts) < 2)%nat ->
   argp_parse idx_bits atof strtod (opts ++ [(ARGP_KEY_END, None)])
     (default_tc_opts idx_bits omp time_now args0) tr
   = (tr' ++ [EvUsage], inr UsageExit)) /\
  (forall tr2 args2,
      argp_parse idx_bits atof strtod (opts ++ [(ARGP_KEY_END, None)])
        (default_tc_opts idx_bits omp time_now args0) tr = (tr2, inl args2) ->
      tr2 = tr' /\ args2 = args /\
      exists tn vn, ifname args 0 = Some tn /\ ifname args 1 = Some vn).
Proof.
  intros H.
  destruct (argp_parse_files _ _ _ _ _ _ _ _ _ (default_files idx_bits omp time_now args0) H)
    as (Hlen & Hn & Hnames).
  simpl in Hlen, Hn, Hnames.
  rewrite (argp_parse_app _ _ _ _ _ _ _ _ _ H). simpl.
  unfold parse_tc_opt. simpl skip_equals.
  change (ARGP_KEY_END =? key_i) with false.
  cbv iota. unfold ifname. rewrite Hnames.
  destruct (positional opts) as [|f0 [|f1 files]]; simpl.
  - split; [intros _; reflexivity | intros ? ? ?; discriminate].
  - split; [intros _|].
    + rewrite orb_true_r. reflexivity.
    + rewrite orb_true_r. intros ? ? ?; discriminate.
  - split; [lia|].
    destruct f0 as [tn|], f1 as [vn|]; simpl; intros tr2 args2 E;
      try discriminate.
    inversion E; subst. eauto 6.
Qed.

(** ** The command line: options *)

Lemma option_values_snoc key pre k a :
  option_values key (pre ++ [(k, a)])
  = option_values key pre ++ (if k =? key then [skip_equals a] else []).
Proof.
  unfold option_values. rewrite List.filter_app, map_app. simpl.
  destruct (k =? key); reflexivity.
Qed.

Lemma last_value_snoc {A} key (read : string -> A) dflt pre k a :
  last_value key read dflt (pre ++ [(k, a)])
  = if k =? key
    then match skip_equals a with Some s => read s | None => dflt end
    else last_value key read dflt pre.
Proof.
  unfold last_value. rewrite option_values_snoc.
  destruct (k =? key).
  - rewrite last_snoc. reflexivity.
  - rewrite app_nil_r. reflexivity.
Qed.

Lemma occurs_snoc key pre k a :
  occurs key (pre ++ [(k, a)]) = occurs key pre || (k =? key).
Proof. unfold occurs. rewrite existsb_app. simpl. rewrite orb_false_r. reflexivity. Qed.

(** The comparisons of two known keys are decided. *)
Ltac closed_eqb :=
  repeat match goal with
         | |- context [?a =? ?b] =>
             let v := eval vm_compute in (a =? b) in
             match v with
             | true => change (a =? b) with true
             | false => change (a =? b) with false
             end
         end.

Section Parsed.

Variable idx_bits : positive.
Variable atof : string -> float.
Variable strtod : string -> float * string.
Variable omp_get_max_threads time_now : Z.
Variable args0 : tc_cmd_args.

Lemma parse_tc_opt_fields pre key arg args tr tr' args' :
  parsed_fields idx_bits atof strtod omp_get_max_threads time_now args0 pre args ->
  parse_tc_opt idx_bits atof strtod key arg args tr = (tr', inl args') ->
  parsed_fields idx_bits atof strtod omp_get_max_threads time_now args0
    (pre ++ [(key, arg)]) args'.
Proof.
  unfold parsed_fields. intros Hf H. destruct args; simpl in Hf.
  rewrite !last_value_snoc, !occurs_snoc.
  unfold parse_tc_opt in H.
  repeat match type of H with
         | context [if ?k =? ?c then _ else _] =>
             destruct (Z.eqb_spec k c); [subst key|]
         end.
  all: destruct (skip_equals arg); run_step; try discriminate;
     repeat match type of H with
           | context [bool_decide ?P] => destruct (bool_decide_reflect P)
           | context [if ?b then _ else _] => destruct b
           | context [match ?x with _ => _ end] => destruct x
           end; run_step; try discriminate;
     inversion H; subst; simpl; closed_eqb;
     repeat match goal with
            | n : ?k <> ?c |- context [?k =? ?c] =>
                rewrite (proj2 (Z.eqb_neq k c) n)
            end;
     rewrite ?orb_false_r, ?orb_true_r; simpl; try exact Hf.
  all: try tauto.
Qed.

Lemma default_fields :
  parsed_fields idx_bits atof strtod omp_get_max_threads time_now args0 []
    (default_tc_opts idx_bits omp_get_max_threads time_now args0).
Proof. unfold parsed_fields. destruct args0. repeat split. Qed.

Lemma argp_parse_fields pre calls args tr tr' args' :
  parsed_fields idx_bits atof strtod omp_get_max_threads time_now args0 pre args ->
  argp_parse idx_bits atof strtod calls args tr = (tr', inl args') ->
  parsed_fields idx_bits atof strtod omp_get_max_threads time_now args0
    (pre ++ calls) args'.
Proof.
  revert pre args tr. induction calls as [|[key arg] calls IH]; intros pre args tr Hf H.
  - inversion H; subst. rewrite app_nil_r. exact Hf.
  - simpl in H. unfold bind in H.
    destruct (parse_tc_opt idx_bits atof strtod key arg args tr) as [tr1 [a1|e1]] eqn:E;
      [|discriminate].
    replace (pre ++ (key, arg) :: calls) with ((pre ++ [(key, arg)]) ++ calls)
      by (rewrite <- app_assoc; reflexivity).
    eapply IH; [|exact H]. eapply parse_tc_opt_fields; eauto.
Qed.

(** X3.  After a successful parse every field that an option sets holds
    the conversion of the argument of the last occurrence of that option
    (less a leading [=]), and the default of [default_tc_opts] when the
    option does not occur; [max_seconds] and [tolerance], which have no
    default, then keep what the storage held.  The flags [set_seed] and
    [hogwild] are set, and [rand_per_iteration] is cleared, exactly when
    their option occurs. *)
Theorem last_option_wins calls tr tr' args :
  argp_parse idx_bits atof strtod calls
    (default_tc_opts idx_bits omp_get_max_threads time_now args0) tr = (tr', inl args) ->
  max_its args = last_value key_i (fun a => idx_wrap idx_bits (fst (strtoull a))) 0 calls /\
  nthreads args = last_value key_t (fun a => idx_wrap idx_bits (fst (strtoull a)))
                    (idx_wrap idx_bits omp_get_max_threads) calls /\
  nfactors args = last_value key_r (fun a => idx_wrap idx_bits (fst (strtoull a))) 10 calls /\
  which_alg args = last_value key_a parse_tc_alg SPLATT_TC_SGD calls /\
  learn_rate args = last_value key_s (fun a => fst (strtod a)) (-1)%float calls /\
  reg args = last_value TC_REG (fun a => fst (strtod a)) (-1)%float calls /\
  seed args = last_value TC_SEED (fun a => to_uint (atoi a)) (to_uint time_now) calls /\
  max_seconds args = last_value TC_TIME atof (max_seconds args0) calls /\
  tolerance args = last_value TC_TOL atof (tolerance args0) calls /\
  folds args = last_value TC_FOLD (fun a => idx_wrap idx_bits (atoi a)) 1 calls /\
  set_seed args = occurs TC_SEED calls /\
  rand_per_iteration args = negb (occurs TC_NORAND_PER_ITERATION calls) /\
  hogwild args = occurs TC_HOGWILD calls.
Proof.
  intros H. exact (argp_parse_fields [] calls _ _ _ _ default_fields H).
Qed.

End Parsed.

(** ** Whole runs of the command *)

Lemma quiet_bind_defined {A B} P (o : option A) (k : A -> M B) :
  (forall a, o = Some a -> quiet P (k a)) -> quiet P (bind (defined o) k).
Proof.
  intros H. destruct o as [a|].
  - intros tr. unfold bind, defined, ret. apply (H a eq_refl).
  - intros tr. exists []. rewrite app_nil_r. split; [reflexivity | constructor].
Qed.

Lemma parse_tc_opt_no_switch_error idx_bits atof strtod key arg args :
  quiet not_switch_error (parse_tc_opt idx_bits atof strtod key arg args).
Proof.
  unfold parse_tc_opt. repeat quiet_step; unfold not_switch_error; try discriminate.
Qed.

Lemma argp_parse_no_switch_error idx_bits atof strtod calls args :
  quiet not_switch_error (argp_parse idx_bits atof strtod calls args).
Proof.
  revert args. induction calls as [|[key arg] calls IH]; intros args; simpl.
  - apply quiet_ret.
  - apply quiet_bind; [apply parse_tc_opt_no_switch_error | intros a; apply IH].
Qed.

Lemma parse_event_not_root_only e : parse_event e -> ~ root_only e.
Proof. destruct e; simpl; tauto. Qed.

Lemma parse_event_config Q e : parse_event e -> config_event Q e.
Proof. destruct e; simpl; tauto. Qed.

Lemma training_runs_app (l1 l2 : list event) :
  training_runs (l1 ++ l2) = training_runs l1 ++ training_runs l2.
Proof.
  induction l1 as [|e l1 IH]; [reflexivity|].
  destruct e; simpl; rewrite IH; reflexivity.
Qed.

Lemma training_runs_none (tr : list event) :
  Forall not_training tr -> training_runs tr = [].
Proof.
  induction 1 as [|e tr He _ IH]; [reflexivity|].
  destruct e; simpl in *; auto; contradiction.
Qed.

Section Run.

Variable idx_bits : positive.
Variable MAX_NMODES : Z.
Variable SPLATT_USE_MPI : bool.
Variable atof : string -> float.
Variable strtod : string -> float * string.
Variable omp_get_max_threads time_now mpi_rank mpi_npes : Z.
Variable MPI_Allreduce_sum : Z -> Z.
Variable fopen : string -> option file.
Variable tt_read : string -> option sptensor_t.
Variable mpi_tt_read : string -> rank_info -> option sptensor_t * rank_info.
Variable tc_model_alloc : sptensor_t -> Z -> splatt_tc_type -> tc_model.
Variable tc_ws_alloc : sptensor_t -> tc_model -> Z -> tc_ws.
Variables splatt_tc_gd splatt_tc_nlcg splatt_tc_lbfgs splatt_tc_sgd
  splatt_tc_ccd splatt_tc_als
  : sptensor_t -> sptensor_t -> tc_model -> tc_ws -> tc_model * tc_ws.
Variables tc_mae tc_rmse : sptensor_t -> option tc_model -> tc_ws -> val_t.

Let cmd := splatt_tc_cmd idx_bits MAX_NMODES SPLATT_USE_MPI atof strtod
       omp_get_max_threads time_now mpi_rank mpi_npes MPI_Allreduce_sum
       fopen tt_read mpi_tt_read tc_model_alloc tc_ws_alloc
       splatt_tc_gd splatt_tc_nlcg splatt_tc_lbfgs splatt_tc_sgd
       splatt_tc_ccd splatt_tc_als tc_mae tc_rmse.

Let run := run_tc_cmd idx_bits MAX_NMODES SPLATT_USE_MPI atof strtod
       omp_get_max_threads time_now mpi_rank mpi_npes MPI_Allreduce_sum
       fopen tt_read mpi_tt_read tc_model_alloc tc_ws_alloc
       splatt_tc_gd splatt_tc_nlcg splatt_tc_lbfgs splatt_tc_sgd
       splatt_tc_ccd splatt_tc_als tc_mae tc_rmse.

Lemma run_trace_quiet P calls args0 rinfo0 dims0 :
  quiet P (cmd calls args0 rinfo0 dims0) ->
  Forall P (fst (run calls args0 rinfo0 dims0)).
Proof.
  intros Hq. unfold run, run_tc_cmd.
  destruct (Hq []) as (more & E & F). unfold cmd in E.
  match type of E with
  | fst ?r = _ => destruct r as [tr [code|e]]
  end; simpl in *; subst tr; exact F.
Qed.

Lemma read_tensors_no_switch_error args rinfo dims0 :
  quiet not_switch_error
    (read_tensors idx_bits MAX_NMODES SPLATT_USE_MPI strtod
       MPI_Allreduce_sum fopen tt_read mpi_tt_read args rinfo dims0).
Proof.
  unfold read_tensors. repeat quiet_step; unfold not_switch_error; discriminate.
Qed.

(** X5.  The [default:] case of the [switch] on the algorithm is dead
    code: the parser ends the process on an unknown algorithm, so no run of
    the command, on any command line and with any files, prints that
    case's error message. *)
Theorem switch_default_unreachable calls args0 rinfo0 dims0 :
  Forall not_switch_error
    (fst (run_tc_cmd idx_bits MAX_NMODES SPLATT_USE_MPI atof strtod
            omp_get_max_threads time_now mpi_rank mpi_npes MPI_Allreduce_sum
            fopen tt_read mpi_tt_read tc_model_alloc tc_ws_alloc
            splatt_tc_gd splatt_tc_nlcg splatt_tc_lbfgs splatt_tc_sgd
            splatt_tc_ccd splatt_tc_als tc_mae tc_rmse
            calls args0 rinfo0 dims0)).
Proof.
  apply run_trace_quiet. unfold cmd, splatt_tc_cmd.
  eapply (quiet_bind_yields _
            (fun args => write args = false /\ which_alg args <> SPLATT_TC_NALGS));
    [ apply argp_parse_no_switch_error
    | intros tr tr' a H; eapply parsed_args; exact H | ].
  intros args [Hw Halg]. cbv zeta.
  destruct (which_alg args) eqn:Ea; try congruence;
    cbv beta iota delta [training_routine];
    repeat quiet_step;
    try (unfold not_switch_error; discriminate); try congruence;
    apply read_tensors_no_switch_error.
Qed.

(** X6.  In a build with MPI a worker other than the first prints neither
    the header, nor the statistics of the training tensor, nor the
    "Factoring" lines, nor the [ALG=SGD] line, nor the validation report. *)
Theorem non_root_worker_reports_nothing calls args0 rinfo0 dims0 :
  SPLATT_USE_MPI = true -> mpi_rank <> 0 ->
  Forall (fun e => ~ root_only e)
    (fst (run_tc_cmd idx_bits MAX_NMODES SPLATT_USE_MPI atof strtod
            omp_get_max_threads time_now mpi_rank mpi_npes MPI_Allreduce_sum
            fopen tt_read mpi_tt_read tc_model_alloc tc_ws_alloc
            splatt_tc_gd splatt_tc_nlcg splatt_tc_lbfgs splatt_tc_sgd
            splatt_tc_ccd splatt_tc_als tc_mae tc_rmse
            calls args0 rinfo0 dims0)).
Proof.
  intros Hm Hrank. apply run_trace_quiet. unfold cmd, splatt_tc_cmd.
  eapply (quiet_bind_yields _ (fun args => write args = false));
    [ eapply quiet_weaken; [exact parse_event_not_root_only | apply argp_parse_quiet]
    | intros tr tr' a H; eapply parsed_args; exact H | ].
  intros args Hw. cbv zeta.
  assert ((ri_rank (with_ri_npes mpi_npes (with_ri_rank mpi_rank rinfo0)) =? 0) = false)
    as Hroot by (destruct rinfo0; apply Z.eqb_neq; exact Hrank).
  rewrite Hroot, Hm. simpl negb. simpl orb. simpl andb.
  repeat quiet_step; simpl; try tauto; try congruence;
    try (apply read_tensors_quiet; intros msg; simpl; tauto).
  rewrite orb_false_r in H. apply negb_true_iff, bool_decide_eq_false in H. exact H.
Qed.

(** X7.  Without MPI the count in the validation report is the number of
    entries of the validation tensor as [tt_read] returned it, whatever the
    algorithm. *)
Theorem whole_file_validation_count calls args0 rinfo0 dims0 tr0 args
    tn vn train validate ws :
  SPLATT_USE_MPI = false ->
  argp_parse idx_bits atof strtod calls
    (default_tc_opts idx_bits omp_get_max_threads time_now args0) [] = (tr0, inl args) ->
  ifname args 0 = Some tn -> ifname args 1 = Some vn ->
  tt_read tn = Some train -> tt_read vn = Some validate ->
  override_defaults (tt_nmodes train) args
    (tc_ws_alloc train
       (tc_model_alloc train (nfactors args) (which_alg args))
       (nthreads args)) = Some ws ->
  reported_validation_nnz
    (fst (run_tc_cmd idx_bits MAX_NMODES SPLATT_USE_MPI atof strtod
            omp_get_max_threads time_now mpi_rank mpi_npes MPI_Allreduce_sum
            fopen tt_read mpi_tt_read tc_model_alloc tc_ws_alloc
            splatt_tc_gd splatt_tc_nlcg splatt_tc_lbfgs splatt_tc_sgd
            splatt_tc_ccd splatt_tc_als tc_mae tc_rmse
            calls args0 rinfo0 dims0))
  = Some (tt_nnz validate).
Proof.
  intros Hm Hparse Htn Hvn Htrain Hval Hover.
  destruct (parsed_args _ _ _ _ _ _ _ _ _ _ Hparse) as (Hw & Halg).
  assert (Forall not_validation tr0) as Ftr.
  { destruct (argp_parse_quiet idx_bits atof strtod calls
                (default_tc_opts idx_bits omp_get_max_threads time_now args0) [])
      as (more & E & F).
    rewrite Hparse in E. simpl in E. subst tr0.
    eapply Forall_impl; [exact F | exact parse_event_not_validation]. }
  unfold run_tc_cmd, splatt_tc_cmd.
  run_bind Hparse. cbv zeta. rewrite Hm. simpl negb. simpl orb. simpl andb.
  run_bind when_emit. run_bind emit_run.
  assert (forall tr,
             read_tensors idx_bits MAX_NMODES false strtod
               MPI_Allreduce_sum fopen tt_read mpi_tt_read args
               (with_ri_npes mpi_npes (with_ri_rank mpi_rank rinfo0)) dims0 tr
             = (tr, inl (Some train, Some validate,
                         with_ri_npes mpi_npes (with_ri_rank mpi_rank rinfo0), 0)))
    as Hread.
  { intros tr. unfold read_tensors. rewrite Htn, Hvn. unfold bind, defined, ret.
    rewrite Htrain, Hval. reflexivity. }
  run_bind Hread. cbv beta iota.
  run_bind when_emit. run_bind emit_run.
  rewrite Hover. run_bind @defined_Some.
  run_bind when_emit.
  destruct (which_alg args) eqn:Ea; try congruence;
    cbv beta iota delta [training_routine];
    (run_bind when_emit; run_bind emit_run;
     match goal with
     | |- context [?f train validate ?m ?w] =>
         destruct (f train validate m w) as [model' ws']
     end;
     run_bind when_emit;
     match goal with
     | |- context [bind ?c ?k ?tr] =>
         assert (quiet (fun _ => True) (bind c k)) as Hq
           by (rewrite Hw; repeat quiet_step; exact I);
         destruct (Hq tr) as (more2 & E2 & _);
         destruct (bind c k tr) as [tr2 r2]
     end;
     simpl in E2; subst tr2;
     destruct r2; cbn [fst]; rewrite <- app_assoc; simpl;
     (apply reported_validation_nnz_app, reported_validation_nnz_none;
      rewrite !Forall_app; repeat split; try assumption; repeat constructor)).
Qed.

(** X8.  The time limit in the header is the wrong way round: in every
    header a run prints, [MAXTIME] is [NONE] exactly when [--time] was
    given, while the workspace then holds the given limit; without
    [--time] the header shows the limit [tc_ws_alloc] chose.  The seed
    field shows the parsed seed exactly when [--seed] was given. *)
Theorem header_reports_time_limit_inverted calls args0 rinfo0 dims0 :
  Forall
    (config_event (fun ws args =>
       (if occurs TC_TIME calls
        then config_maxtime ws args = MAXTIME_NONE /\
             ws_max_seconds ws = last_value TC_TIME atof (max_seconds args0) calls
        else exists train model n,
             config_maxtime ws args
             = MAXTIME_seconds (ws_max_seconds (tc_ws_alloc train model n))) /\
       config_seed args
       = if occurs TC_SEED calls
         then SEED_value (last_value TC_SEED (fun a => to_uint (atoi a))
                            (to_uint time_now) calls)
         else SEED_time))
    (fst (run_tc_cmd idx_bits MAX_NMODES SPLATT_USE_MPI atof strtod
            omp_get_max_threads time_now mpi_rank mpi_npes MPI_Allreduce_sum
            fopen tt_read mpi_tt_read tc_model_alloc tc_ws_alloc
            splatt_tc_gd splatt_tc_nlcg splatt_tc_lbfgs splatt_tc_sgd
            splatt_tc_ccd splatt_tc_als tc_mae tc_rmse
            calls args0 rinfo0 dims0)).
Proof.
  apply run_trace_quiet. unfold cmd, splatt_tc_cmd.
  eapply (quiet_bind_yields _
            (fun args => write args = false /\
                         parsed_fields idx_bits atof strtod omp_get_max_threads
                           time_now args0 calls args /\
                         set_timeout args = occurs TC_TIME calls));
    [ eapply quiet_weaken; [apply parse_event_config | apply argp_parse_quiet]
    | intros tr tr' a H | ].
  { split; [eapply parsed_args; exact H|].
    split; [exact (argp_parse_fields _ _ _ _ _ _ [] calls _ _ _ _
                     (default_fields _ _ _ _ _ _) H)|].
    destruct (argp_parse_flags _ _ _ _ _ _ _ _ H) as [Ht _].
    destruct (default_tc_opts_sentinels idx_bits omp_get_max_threads time_now args0)
      as (_ & _ & _ & D4 & _).
    rewrite D4 in Ht. exact Ht. }
  intros args (Hw & Hf & Ht). cbv zeta.
  apply quiet_bind; [repeat quiet_step; exact I | intros _].
  apply quiet_bind; [repeat quiet_step; exact I | intros _].
  apply quiet_bind;
    [apply read_tensors_quiet; intros msg; exact I
    | intros [[[train validate] rinfo] g]].
  destruct train as [train|], validate as [validate|]; try apply quiet_finish.
  apply quiet_bind; [repeat quiet_step; exact I | intros _].
  apply quiet_bind; [repeat quiet_step; exact I | intros _].
  apply quiet_bind_defined. intros ws Hover.
  apply quiet_bind.
  - apply quiet_when. intros _. apply quiet_emit. simpl.
    destruct (override_defaults_fields _ _ _ _ Hover) as (_ & _ & _ & Hs & _).
    unfold parsed_fields in Hf.
    destruct Hf as (_ & _ & _ & _ & _ & _ & Hseed & Hsec & _ & _ & Hss & _).
    unfold config_maxtime, config_seed. rewrite Hs, Ht, Hss, Hseed, Hsec.
    split; [|reflexivity].
    destruct (occurs TC_TIME calls); [split; reflexivity | eauto].
  - intros _. repeat quiet_step; simpl; try exact I; congruence.
Qed.

(** X9.  With a parsed command line, tensors that are read and workspace
    arrays that hold the modes, and a test tensor that is absent or
    readable, the command calls the training routine of the chosen
    algorithm once and returns [EXIT_SUCCESS]. *)
Theorem readable_inputs_train_once calls args0 rinfo0 dims0 tr0 args
    train validate rinfo g ws :
  argp_parse idx_bits atof strtod calls
    (default_tc_opts idx_bits omp_get_max_threads time_now args0) [] = (tr0, inl args) ->
  (forall tr,
      read_tensors idx_bits MAX_NMODES SPLATT_USE_MPI strtod
        MPI_Allreduce_sum fopen tt_read mpi_tt_read args
        (with_ri_npes mpi_npes (with_ri_rank mpi_rank rinfo0)) dims0 tr
      = (tr, inl (Some train, Some validate, rinfo, g))) ->
  override_defaults (tt_nmodes train) args
    (tc_ws_alloc train
       (tc_model_alloc train (nfactors args) (which_alg args))
       (nthreads args)) = Some ws ->
  (ifname args 2 = None \/
   exists test_name test, ifname args 2 = Some test_name /\ tt_read test_name = Some test) ->
  exists tr,
    run_tc_cmd idx_bits MAX_NMODES SPLATT_USE_MPI atof strtod
      omp_get_max_threads time_now mpi_rank mpi_npes MPI_Allreduce_sum
      fopen tt_read mpi_tt_read tc_model_alloc tc_ws_alloc
      splatt_tc_gd splatt_tc_nlcg splatt_tc_lbfgs splatt_tc_sgd
      splatt_tc_ccd splatt_tc_als tc_mae tc_rmse
      calls args0 rinfo0 dims0 = (tr, Returned EXIT_SUCCESS) /\
    training_runs tr = [which_alg args].
Proof.
  intros Hparse Hread Hover Htest.
  destruct (parsed_args _ _ _ _ _ _ _ _ _ _ Hparse) as (Hw & Halg).
  assert (training_runs tr0 = []) as Ftr.
  { apply training_runs_none.
    destruct (argp_parse_quiet idx_bits atof strtod calls
                (default_tc_opts idx_bits omp_get_max_threads time_now args0) [])
      as (more & E & F).
    rewrite Hparse in E. simpl in E. subst tr0.
    eapply Forall_impl; [exact F | exact parse_event_not_training]. }
  unfold run_tc_cmd, splatt_tc_cmd.
  run_bind Hparse. cbv zeta.
  run_bind when_emit. run_bind emit_run.
  run_bind Hread. cbv beta iota.
  run_bind when_emit. run_bind emit_run.
  rewrite Hover. run_bind @defined_Some.
  run_bind when_emit. rewrite Hw.
  destruct (which_alg args) eqn:Ea; try congruence;
    cbv beta iota delta [training_routine];
    (run_bind when_emit; run_bind emit_run;
     match goal with
     | |- context [?f train validate ?m ?w] =>
         destruct (f train validate m w) as [model' ws']
     end;
     run_bind when_emit;
     destruct Htest as [-> | (tn & test & -> & ->)];
     (eexists; split; [reflexivity|]);
     rewrite !training_runs_app, Ftr;
     repeat match goal with
            | |- context [if ?b then _ else _] => destruct b
            end; reflexivity).
Qed.

End Run.

(** ** The reader and the text of the file *)

Section Comments.

Variable idx_bits : positive.
Variable MAX_NMODES : Z.
Variable strtod : string -> float * string.
Variable rinfo : rank_info.





Lemma count_first_line_none (fin : file) (n : Z) :
  data_lines fin = [] -> count_first_line idx_bits fin n = n.
Proof.
  induction fin as [|line rest IH]; simpl; [reflexivity|].
  unfold data_lines in *. simpl. destruct (is_data_line line); [discriminate | exact IH].
Qed.

(** X11.  A validation file without a data line, an empty file among
    them, leaves the mode count at 0, which the decrement [--nmodes] turns
    into the largest [idx_t]; the zeroing loop then runs past the end of
    [outdims]. *)
Theorem no_data_line_overruns (fin : file) (dims0 : list Z) :
  data_lines fin = [] ->
  Z.of_nat (length dims0) < idx_modulus idx_bits - 1 ->
  idx_wrap idx_bits (count_first_line idx_bits fin 0 - 1) = idx_modulus idx_bits - 1 /\
  tt_get_layer_dims idx_bits fin dims0 rinfo = None /\
  load_validate_layer idx_bits MAX_NMODES strtod fin dims0 rinfo = LoadFault.
Proof.
  intros Hnone Hlen.
  assert (idx_wrap idx_bits (count_first_line idx_bits fin 0 - 1)
          = idx_modulus idx_bits - 1) as En.
  { rewrite count_first_line_none by exact Hnone. unfold idx_wrap.
    pose proof (idx_modulus_pos idx_bits).
    rewrite <- (Z_mod_plus_full _ 1).
    replace (0 - 1 + 1 * idx_modulus idx_bits) with (idx_modulus idx_bits - 1) by lia.
    apply Z.mod_small. lia. }
  assert (tt_get_layer_dims idx_bits fin dims0 rinfo = None) as E.
  { unfold tt_get_layer_dims. rewrite En, zero_dims_overrun by lia. reflexivity. }
  split; [exact En|]. split; [exact E|].
  unfold load_validate_layer. rewrite E. reflexivity.
Qed.

End Comments.

(** ** The mode count *)

Lemma append_cons (c : ascii) (s1 s2 : string) :
  String.append (String c s1) s2 = String c (String.append s1 s2).
Proof. reflexivity. Qed.

Lemma append_empty_l (s : string) : String.append EmptyString s = s.
Proof. reflexivity. Qed.

Lemma append_empty_r (s : string) : String.append s EmptyString = s.
Proof.
  induction s as [|c s IH]; [reflexivity|]. rewrite append_cons, IH. reflexivity.
Qed.

Lemma append_length (s1 s2 : string) :
  String.length (String.append s1 s2) = (String.length s1 + String.length s2)%nat.
Proof.
  induction s1 as [|c s1 IH]; [reflexivity|].
  rewrite append_cons. simpl. rewrite IH. reflexivity.
Qed.

Lemma skip_delims_blanks (b s : string) :
  blanks b -> skip_delims (b ++ s) = skip_delims s.
Proof.
  unfold blanks. induction b as [|c b IH]; [reflexivity|].
  rewrite append_cons. simpl.
  intros H. apply andb_true_iff in H as [Hc Hb]. rewrite Hc. auto.
Qed.

Lemma skip_delims_all (b : string) : blanks b -> skip_delims b = EmptyString.
Proof.
  unfold blanks. induction b as [|c b IH]; simpl; [reflexivity|].
  intros H. apply andb_true_iff in H as [Hc Hb]. rewrite Hc. auto.
Qed.

Lemma after_token_field (t : string) (c : ascii) (rest : string) :
  all_chars (fun c => negb (is_delim c)) t = true -> is_delim c = true ->
  after_token (t ++ String c rest) = rest.
Proof.
  intros Ht Hc. induction t as [|a t IH].
  - rewrite append_empty_l. simpl. rewrite Hc. reflexivity.
  - rewrite append_cons. simpl in *. apply andb_true_iff in Ht as [Ha Ht].
    apply negb_true_iff in Ha. rewrite Ha. auto.
Qed.

Lemma after_token_end (t : string) :
  all_chars (fun c => negb (is_delim c)) t = true -> after_token t = EmptyString.
Proof.
  induction t as [|a t IH]; simpl; [reflexivity|].
  intros Ht. apply andb_true_iff in Ht as [Ha Ht].
  apply negb_true_iff in Ha. rewrite Ha. auto.
Qed.

Lemma strtok_field (b t s : string) :
  blanks b -> field t ->
  strtok (b ++ t ++ s) = Some (after_token (t ++ s)).
Proof.
  intros Hb [Hne Ht]. unfold strtok. rewrite skip_delims_blanks by exact Hb.
  destruct t as [|a t]; [congruence|]. cbn [all_chars] in Ht.
  apply andb_true_iff in Ht as [Ha Ht]. apply negb_true_iff in Ha.
  rewrite append_cons. cbn [skip_delims after_token].
  repeat rewrite Ha. reflexivity.
Qed.

Lemma count_tokens_from_fields (n : nat) (s : string) (fuel : nat) :
  fields n s -> (n < fuel)%nat -> count_tokens_from fuel s = Z.of_nat n.
Proof.
  intros H. revert fuel. induction H as [b Hb | b t Hb Ht | n b t c rest Hb Ht Hc _ IH];
    intros fuel Hf; (destruct fuel as [|fuel]; [lia|]); simpl.
  - unfold strtok. rewrite skip_delims_all by exact Hb. reflexivity.
  - rewrite <- (append_empty_r t) at 1.
    rewrite (strtok_field b t EmptyString Hb Ht).
    rewrite append_empty_r, after_token_end by apply Ht.
    destruct fuel; reflexivity.
  - rewrite (strtok_field b t _ Hb Ht).
    rewrite after_token_field by (apply Ht || exact Hc).
    rewrite IH by lia. lia.
Qed.

Lemma fields_length (n : nat) (s : string) :
  fields n s -> (n <= String.length s)%nat.
Proof.
  induction 1 as [b Hb | b t Hb [Hne Ht] | n b t c rest Hb [Hne Ht] Hc _ IH].
  - lia.
  - rewrite append_length. destruct t; [congruence|]. simpl. lia.
  - rewrite !append_length. simpl. lia.
Qed.

Lemma count_tokens_fields (n : nat) (s : string) :
  fields n s -> count_tokens s = Z.of_nat n.
Proof.
  intros H. apply count_tokens_from_fields; [exact H|].
  apply fields_length in H. lia.
Qed.

Lemma count_first_line_at (idx_bits : positive) (pre : file) (line : string)
    (rest : file) (n : Z) :
  data_lines pre = [] -> is_data_line line = true ->
  count_first_line idx_bits (pre ++ line :: rest) n
  = idx_wrap idx_bits (n + count_tokens line).
Proof.
  intros Hpre Hline. induction pre as [|l pre IH]; simpl.
  - rewrite Hline. reflexivity.
  - unfold data_lines in Hpre. simpl in Hpre.
    destruct (is_data_line l); [discriminate | apply IH; exact Hpre].
Qed.

Lemma first_line_nmodes (idx_bits : positive) (pre : file)
    (line : string) (rest : file) (n : nat) :
  data_lines pre = [] -> is_data_line line = true ->
  fields (S n) line -> Z.of_nat n < idx_modulus idx_bits ->
  idx_wrap idx_bits (count_first_line idx_bits (pre ++ line :: rest) 0 - 1) = Z.of_nat n.
Proof.
  intros Hpre Hline Hf Hn.
  rewrite (count_first_line_at idx_bits pre line rest 0 Hpre Hline).
  rewrite (count_tokens_fields _ _ Hf).
  unfold idx_wrap. rewrite Zminus_mod_idemp_l.
  replace (0 + Z.of_nat (S n) - 1) with (Z.of_nat n) by lia.
  apply Z.mod_small. lia.
Qed.

(** X12.  The number of modes is read off the first data line alone: it
    is the number of its fields, separated by blanks and tabs, less one for
    the value.  The newline is no separator: it belongs to the last field,
    and after a trailing blank it is a field of its own.  With room for
    that many modes in [outdims] the function returns. *)
Theorem nmodes_is_fields_less_one (idx_bits : positive) (pre : file)
    (line : string) (rest : file) (n : nat) (dims0 : list Z) (rinfo : rank_info) :
  data_lines pre = [] -> is_data_line line = true ->
  fields (S n) line -> Z.of_nat n < idx_modulus idx_bits ->
  (forall nmodes nnz dims,
      tt_get_layer_dims idx_bits (pre ++ line :: rest) dims0 rinfo
      = Some (nmodes, nnz, dims) ->
      nmodes = Z.of_nat n) /\
  ((1 <= n <= length dims0)%nat ->
   Z.of_nat (length (pre ++ line :: rest)) < idx_modulus idx_bits ->
   exists nnz dims,
     tt_get_layer_dims idx_bits (pre ++ line :: rest) dims0 rinfo
     = Some (Z.of_nat n, nnz, dims)).
Proof.
  intros Hpre Hline Hf Hn.
  pose proof (first_line_nmodes idx_bits pre line rest n Hpre Hline Hf Hn) as E.
  split.
  - intros nmodes nnz dims H. unfold tt_get_layer_dims in H. rewrite E in H.
    destruct (zero_dims _ 0 dims0); [|discriminate].
    destruct (dims_lines _ _ _ _ _ _) as [[nnz1 d1]|]; [|discriminate].
    destruct (store d1 0 _); [|discriminate].
    inversion H; subst. reflexivity.
  - intros Hroom Hlen.
    destruct (tt_get_layer_dims_ok idx_bits rinfo (pre ++ line :: rest) dims0)
      as (dims & Ed & _); [rewrite E; lia | exact Hlen |].
    rewrite E in Ed. eauto.
Qed.

(** ** The dimensions of the loaded tensor *)

Lemma cells_updated_refl f d :
  (forall j x, d !! j = Some x -> f j x = x) -> cells_updated f d d.
Proof. intros H. split; [reflexivity|]. intros j x E. rewrite (H j x E). exact E. Qed.

Lemma cells_updated_trans f g h d d1 d2 :
  cells_updated f d d1 -> cells_updated g d1 d2 ->
  (forall j x, d !! j = Some x -> g j (f j x) = h j x) ->
  cells_updated h d d2.
Proof.
  intros [L1 U1] [L2 U2] H. split; [congruence|].
  intros j x E. rewrite (U2 j _ (U1 j x E)), (H j x E). reflexivity.
Qed.

Lemma store_cells (d d' : list Z) (m : nat) (v : Z) :
  store d (Z.of_nat m) v = Some d' ->
  cells_updated (fun j x => if Nat.eqb j m then v else x) d d'.
Proof.
  intros H. apply store_Some in H as [Hm ->]. rewrite Nat2Z.id.
  split; [apply length_insert|].
  intros j x E. destruct (Nat.eqb_spec j m) as [->|Hne].
  - apply list_lookup_insert_eq. lia.
  - rewrite list_lookup_insert_ne by congruence. exact E.
Qed.

Section FirstPassDims.

Variable idx_bits : positive.
Variable rinfo : rank_info.

#[local] Arguments skip_indices : simpl never.

Lemma zero_dims_cells (k m : nat) (d d' : list Z) :
  zero_dims k (Z.of_nat m) d = Some d' ->
  cells_updated (fun j x => if (m <=? j)%nat && (j <? m + k)%nat then 0 else x) d d'.
Proof.
  revert m d. induction k as [|k IH]; intros m d H; simpl in H.
  - inversion H; subst. apply cells_updated_refl. intros j x _.
    nbool; simpl; try reflexivity; lia.
  - destruct (store d (Z.of_nat m) 0) as [d1|] eqn:E; [|discriminate].
    replace (Z.of_nat m + 1) with (Z.of_nat (S m)) in H by lia.
    eapply cells_updated_trans; [apply (store_cells _ _ _ _ E) | apply (IH _ _ H) |].
    intros j x _. cbv beta. nbool; subst; simpl; try reflexivity; lia.
Qed.

(** The mode loop of the first pass raises the cells of modes
    [m .. m+k-1] to the 1-based indices of the line. *)
Lemma dims_modes_cells (k m : nat) (skip : bool) (line : string) (d : list Z)
    (r : bool * string * list Z) :
  dims_modes idx_bits rinfo k (Z.of_nat m) skip (skip_indices idx_bits m line) d = Some r ->
  cells_updated
    (fun j x => if (m <=? j)%nat && (j <? m + k)%nat
                then Z.max x (idx_wrap idx_bits (line_index idx_bits j line + 1)) else x)
    d (snd r).
Proof.
  revert m skip d. induction k as [|k IH]; intros m skip d H; simpl in H.
  - inversion H; subst. apply cells_updated_refl. intros j x _.
    nbool; simpl; try reflexivity; lia.
  - rewrite read_index_skip in H.
    destruct (load d (Z.of_nat m)) as [old|] eqn:El; [|discriminate].
    match type of H with
    | context [store d (Z.of_nat m) ?new] =>
        destruct (store d (Z.of_nat m) new) as [d1|] eqn:E; [|discriminate]
    end.
    replace (Z.of_nat m + 1) with (Z.of_nat (S m)) in H by lia.
    eapply cells_updated_trans; [apply (store_cells _ _ _ _ E) | apply (IH _ _ _ H) |].
    intros j x Ej. cbv beta.
    unfold load in El. destruct (Z.leb_spec 0 (Z.of_nat m)); [|lia].
    rewrite Nat2Z.id in El.
    nbool; subst; simpl; try reflexivity; try lia.
    rewrite El in Ej. inversion Ej; subst.
    destruct (Z.gtb_spec (idx_wrap idx_bits (line_index idx_bits m line + 1)) x); lia.
Qed.

Lemma dims_seen_cons (m : nat) (line : string) (rest : file) :
  dims_seen idx_bits m (line :: rest)
  = if is_data_line line
    then Z.max (idx_wrap idx_bits (line_index idx_bits m line + 1))
               (dims_seen idx_bits m rest)
    else dims_seen idx_bits m rest.
Proof.
  unfold dims_seen, data_lines. simpl. destruct (is_data_line line); reflexivity.
Qed.

Lemma dims_seen_nonneg (m : nat) (fin : file) : 0 <= dims_seen idx_bits m fin.
Proof. apply max_of_nonneg. Qed.

Lemma fold_right_max_start (x g : Z) (l : list Z) :
  fold_right Z.max (Z.max x g) l = Z.max g (fold_right Z.max x l).
Proof. induction l as [|a l IH]; simpl; lia. Qed.

(** The second loop of [tt_get_layer_dims] raises the cell of every mode to
    the largest 1-based index on any data line. *)
Lemma dims_lines_cells (nmodes : nat) (fin : file) (nnz : Z) (d : list Z)
    (r : Z * list Z) :
  dims_lines idx_bits rinfo (Z.of_nat nmodes) fin nnz d = Some r ->
  cells_updated
    (fun j x =>
       if (j <? nmodes)%nat
       then fold_right Z.max x
              (map (fun line => idx_wrap idx_bits (line_index idx_bits j line + 1))
                   (data_lines fin))
       else x)
    d (snd r).
Proof.
  revert nnz d. induction fin as [|line rest IH]; intros nnz d H; simpl in H.
  - inversion H; subst. apply cells_updated_refl. intros j x _.
    simpl. destruct (j <? nmodes)%nat; reflexivity.
  - unfold data_lines. simpl. destruct (is_data_line line) eqn:Ed.
    + rewrite Nat2Z.id in H.
      destruct (dims_modes idx_bits rinfo nmodes 0 false line d)
        as [[[skip ptr] d1]|] eqn:E; [|discriminate].
      pose proof (dims_modes_cells nmodes 0 false line d _ E) as U1.
      eapply cells_updated_trans; [exact U1 | apply (IH _ _ H) |].
      intros j x _. cbv beta. simpl.
      destruct (Nat.ltb_spec j nmodes); simpl; [|reflexivity].
      apply fold_right_max_start.
    + apply (IH _ _ H).
Qed.

(** What [tt_get_layer_dims] leaves in [outdims]: the extent of the layer
    for mode 0, and for every other mode the largest 1-based index that
    occurs on any data line of the file, inside the layer or not. *)
Lemma tt_get_layer_dims_cells (fin : file) (dims0 : list Z) (nmodes nnz : Z)
    (dims : list Z) :
  tt_get_layer_dims idx_bits fin dims0 rinfo = Some (nmodes, nnz, dims) ->
  cells_updated
    (fun j x =>
       if Nat.eqb j 0 then idx_wrap idx_bits (layer_end rinfo - layer_start rinfo)
       else if (j <? Z.to_nat nmodes)%nat then dims_seen idx_bits j fin else x)
    dims0 dims.
Proof.
  unfold tt_get_layer_dims. intros H.
  set (n := idx_wrap idx_bits (count_first_line idx_bits fin 0 - 1)) in *.
  assert (0 <= n) as Hn by apply idx_wrap_range.
  destruct (zero_dims (Z.to_nat n) 0 dims0) as [d0|] eqn:E0; [|discriminate].
  rewrite <- (Z2Nat.id n) in H at 1 by exact Hn.
  destruct (dims_lines idx_bits rinfo (Z.of_nat (Z.to_nat n)) fin 0 d0)
    as [[nnz1 d1]|] eqn:E1; [|discriminate].
  destruct (store d1 0 _) as [d2|] eqn:E2; [|discriminate].
  inversion H; subst nmodes nnz dims; clear H.
  change 0 with (Z.of_nat 0) in E0, E2.
  eapply cells_updated_trans;
    [ eapply cells_updated_trans;
      [apply (zero_dims_cells _ _ _ _ E0) | apply (dims_lines_cells _ _ _ _ _ E1) |];
      intros j x _; reflexivity
    | apply (store_cells _ _ _ _ E2) |].
  intros j x _. cbv beta. simpl snd.
  destruct (Nat.eqb_spec j 0); [reflexivity|].
  simpl. destruct (Nat.ltb_spec j (Z.to_nat n)); reflexivity.
Qed.

Lemma zero_dims_room (k : nat) (d d' : list Z) :
  zero_dims k 0 d = Some d' -> (k <= length d)%nat.
Proof.
  intros H. destruct (Nat.le_gt_cases k (length d)) as [L|L]; [exact L|].
  rewrite (zero_dims_overrun k 0 d) in H; [discriminate | lia | lia].
Qed.

End FirstPassDims.

Lemma max_of_ge (l : list Z) (x : Z) : In x l -> x <= max_of l.
Proof.
  unfold max_of. induction l as [|a l IH]; simpl; [tauto|].
  intros [->|H]; [lia|]. specialize (IH H). lia.
Qed.

Lemma max_of_lt (l : list Z) (M : Z) :
  0 < M -> (forall x, In x l -> x < M) -> max_of l < M.
Proof.
  intros HM. unfold max_of. induction l as [|a l IH]; simpl; intros H; [lia|].
  assert (fold_right Z.max 0 l < M)
    by (apply IH; intros x Hx; apply H; right; exact Hx).
  assert (a < M) by (apply H; left; reflexivity).
  lia.
Qed.

Section LoadedDims.

Variable idx_bits : positive.
Variable MAX_NMODES : Z.
Variable strtod : string -> float * string.
Variable rinfo : rank_info.

Lemma fill_lines_frame (nmodes : Z) (fin : file) (nnz : Z) (v v' : sptensor_t) :
  fill_lines idx_bits strtod rinfo nmodes fin nnz v = Some v' ->
  tt_nmodes v' = tt_nmodes v /\ tt_dims v' = tt_dims v.
Proof.
  revert nnz v. induction fin as [|line rest IH]; intros nnz v H; simpl in H.
  - inversion H; subst. auto.
  - destruct (is_data_line line); [|apply (IH _ _ H)].
    destruct (fill_modes idx_bits rinfo nnz (Z.to_nat nmodes) 0 false line (tt_ind v))
      as [[[skip ptr] ind]|]; [|discriminate].
    destruct (negb skip).
    + destruct (store _ nnz _) as [vals|]; [|discriminate].
      destruct (_ <=? _); [|discriminate].
      apply IH in H. destruct v; exact H.
    + apply IH in H. destruct v; exact H.
Qed.

Lemma load_validate_layer_dims (fin : file) (dims0 : list Z)
    (validate : sptensor_t) :
  load_validate_layer idx_bits MAX_NMODES strtod fin dims0 rinfo = Loaded validate ->
  tt_nmodes validate = idx_wrap idx_bits (count_first_line idx_bits fin 0 - 1) /\
  (1 <= tt_nmodes validate ->
   tt_dims validate !! 0%nat
   = Some (idx_wrap idx_bits (layer_end rinfo - layer_start rinfo))) /\
  (forall j, (1 <= j < Z.to_nat (tt_nmodes validate))%nat ->
             tt_dims validate !! j = Some (dims_seen idx_bits j fin)).
Proof.
  unfold load_validate_layer. intros H.
  destruct (tt_get_layer_dims idx_bits fin dims0 rinfo) as [[[nmodes nnz] dims]|] eqn:E;
    [|discriminate].
  destruct (nmodes >? MAX_NMODES); [discriminate|].
  destruct (fill_lines _ _ _ _ _ _ _) as [v|] eqn:Ef; [|discriminate].
  inversion H; subst v; clear H.
  apply fill_lines_frame in Ef as [En Ed]. simpl in En, Ed.
  pose proof (tt_get_layer_dims_cells idx_bits rinfo _ _ _ _ _ E) as [L U].
  assert (nmodes = idx_wrap idx_bits (count_first_line idx_bits fin 0 - 1)
          /\ (Z.to_nat nmodes <= length dims0)%nat) as [Hn Hroom].
  { unfold tt_get_layer_dims in E.
    destruct (zero_dims _ 0 dims0) as [d0|] eqn:E0; [|discriminate].
    apply zero_dims_room in E0.
    destruct (dims_lines _ _ _ _ _ _) as [[nnz1 d1]|]; [|discriminate].
    destruct (store d1 0 _); [|discriminate].
    inversion E; subst. auto. }
  rewrite En, Ed. split; [exact Hn|]. split.
  - intros H1.
    destruct (lookup_lt_is_Some_2 dims0 0%nat) as [x Ex]; [lia|].
    rewrite lookup_take_lt by lia. rewrite (U _ _ Ex). reflexivity.
  - intros j Hj.
    destruct (lookup_lt_is_Some_2 dims0 j) as [x Ex]; [lia|].
    rewrite lookup_take_lt by lia. rewrite (U _ _ Ex).
    destruct (Nat.eqb_spec j 0); [lia|].
    destruct (Nat.ltb_spec j (Z.to_nat nmodes)); [reflexivity | lia].
Qed.


(** The rows of indices of the loaded tensor, one per mode. *)
Lemma load_validate_layer_rows (fin : file) (dims0 : list Z) :
  let nmodes := idx_wrap idx_bits (count_first_line idx_bits fin 0 - 1) in
  let lines := layer_lines idx_bits rinfo fin in
  1 <= nmodes <= MAX_NMODES ->
  Z.of_nat (length dims0) = MAX_NMODES ->
  Z.of_nat (length fin) < idx_modulus idx_bits ->
  0 <= layer_start rinfo ->
  exists validate,
    load_validate_layer idx_bits MAX_NMODES strtod fin dims0 rinfo = Loaded validate /\
    tt_nnz validate = Z.of_nat (length lines) /\
    forall m, (m < Z.to_nat nmodes)%nat ->
              tt_ind validate !! m = Some (map (local_index idx_bits rinfo m) lines).
Proof.
  intros nmodes lines Hn Hd Hfin Hs.
  destruct (tt_get_layer_dims_ok idx_bits rinfo fin dims0) as (dims & E & Ld & D0);
    [fold nmodes; lia | exact Hfin |]. fold nmodes in E. fold lines in E.
  unfold load_validate_layer. rewrite E.
  destruct (Z.gtb_spec nmodes MAX_NMODES); [lia|].
  set (N := length lines) in *.
  destruct (fill_lines_spec idx_bits strtod rinfo nmodes N fin 0
              (with_tt_dims (take (Z.to_nat nmodes) dims) (tt_alloc (Z.of_nat N) nmodes)))
    as (v & Ev & F1 & F2 & F3 & U & V).
  { lia. }
  { exact Hs. }
  { pose proof (layer_lines_length_le idx_bits rinfo fin). unfold N, lines. lia. }
  { unfold tensor_shape, tt_alloc. simpl. rewrite Nat2Z.id, !length_replicate.
    repeat split; try reflexivity.
    intros j row Ej. apply lookup_replicate in Ej as [-> _]. apply length_replicate. }
  { unfold N, lines. lia. }
  change (Z.of_nat 0) with 0 in Ev. rewrite Ev.
  exists v. simpl in F2, U. fold lines in U. fold N in U.
  rewrite Nat2Z.id in U.
  split; [reflexivity|]. split; [exact F2|].
  intros m Hm. destruct U as [_ U].
  rewrite (U m (replicate N 0)) by (apply lookup_replicate_2; exact Hm).
  rewrite drop_ge by (rewrite length_replicate; lia).
  rewrite app_nil_r. reflexivity.
Qed.

(** X13.  The dimensions of the tensor a worker loads: mode 0 has the
    extent of the worker's layer; every other mode has the largest 1-based
    index found on any data line of the file, in the worker's layer or
    not. *)
Theorem loaded_dims_cover_whole_file (fin : file) (dims0 : list Z) :
  let nmodes := idx_wrap idx_bits (count_first_line idx_bits fin 0 - 1) in
  1 <= nmodes <= MAX_NMODES ->
  Z.of_nat (length dims0) = MAX_NMODES ->
  Z.of_nat (length fin) < idx_modulus idx_bits ->
  0 <= layer_start rinfo ->
  exists validate,
    load_validate_layer idx_bits MAX_NMODES strtod fin dims0 rinfo = Loaded validate /\
    tt_nmodes validate = nmodes /\
    tt_dims validate !! 0%nat
    = Some (idx_wrap idx_bits (layer_end rinfo - layer_start rinfo)) /\
    (forall j, (1 <= j < Z.to_nat nmodes)%nat ->
               tt_dims validate !! j = Some (dims_seen idx_bits j fin)).
Proof.
  intros nmodes Hn Hd Hfin Hs.
  destruct (load_validate_layer_rows fin dims0 Hn Hd Hfin Hs)
    as (v & Ev & _ & _).
  exists v. split; [exact Ev|].
  destruct (load_validate_layer_dims fin dims0 v Ev)
    as (En & H0 & Hdims).
  fold nmodes in En. rewrite En in H0, Hdims.
  split; [exact En|]. split; [apply H0; lia | exact Hdims].
Qed.

(** X14.  Every index the worker stores for a mode other than 0 is below
    the dimension of that mode, except the index [2^w - 1], which is what a
    0 in the file (the indices are 1-based) turns into and which is below
    no dimension. *)
Theorem stored_indices_below_dims (fin : file) (dims0 : list Z) :
  let nmodes := idx_wrap idx_bits (count_first_line idx_bits fin 0 - 1) in
  1 <= nmodes <= MAX_NMODES ->
  Z.of_nat (length dims0) = MAX_NMODES ->
  Z.of_nat (length fin) < idx_modulus idx_bits ->
  0 <= layer_start rinfo ->
  exists validate,
    load_validate_layer idx_bits MAX_NMODES strtod fin dims0 rinfo = Loaded validate /\
    forall j row k x,
      (1 <= j < Z.to_nat nmodes)%nat ->
      tt_ind validate !! j = Some row -> row !! k = Some x ->
      exists dj, tt_dims validate !! j = Some dj /\
                 0 <= x < idx_modulus idx_bits /\
                 (x < dj <-> x <> idx_modulus idx_bits - 1).
Proof.
  intros nmodes Hn Hd Hfin Hs.
  destruct (load_validate_layer_rows fin dims0 Hn Hd Hfin Hs) as (v & Ev & _ & Hrows).
  exists v. split; [exact Ev|].
  destruct (load_validate_layer_dims fin dims0 v Ev) as (En & _ & Hdims).
  fold nmodes in En, Hrows. rewrite En in Hdims.
  intros j row k x Hj Hrow Hx.
  exists (dims_seen idx_bits j fin). split; [apply Hdims; exact Hj|].
  rewrite Hrows in Hrow by lia. inversion Hrow; subst row; clear Hrow.
  apply list_lookup_fmap_Some in Hx as (line & -> & Hl).
  destruct j as [|j]; [lia|]. cbn [local_index].
  pose proof (line_index_is_idx idx_bits (S j) line) as Hidx. unfold is_idx in Hidx.
  split; [exact Hidx|].
  assert (In line (data_lines fin)) as Hin.
  { apply list_elem_of_lookup_2, list_elem_of_In in Hl.
    apply filter_In in Hl as [Hin Hl]. unfold in_layer in Hl.
    apply andb_true_iff in Hl as [Hl _]. apply filter_In. auto. }
  split.
  - assert (dims_seen idx_bits (S j) fin < idx_modulus idx_bits) as Hlt.
    { apply max_of_lt; [apply idx_modulus_pos|].
      intros y Hy. apply in_map_iff in Hy as (l & <- & _). apply idx_wrap_range. }
    lia.
  - intros Hne.
    assert (idx_wrap idx_bits (line_index idx_bits (S j) line + 1)
            <= dims_seen idx_bits (S j) fin) as Hle.
    { apply max_of_ge.
      apply (in_map (fun l => idx_wrap idx_bits (line_index idx_bits (S j) l + 1))).
      exact Hin. }
    rewrite idx_wrap_small in Hle by (unfold is_idx; lia). lia.
Qed.

End LoadedDims.

(** ** Layers side by side *)

Section Partition.

Variable idx_bits : positive.

Lemma layer_lines_between (r : rank_info) (fin : file) :
  layer_lines idx_bits r fin
  = entries_between idx_bits (layer_start r) (layer_end r) fin.
Proof.
  unfold layer_lines, entries_between. apply filter_ext. intros line.
  unfold in_layer, outside_layer. rewrite <- andb_assoc. f_equal.
  zbool; simpl; try reflexivity; lia.
Qed.

Lemma entries_between_split (lo mid hi : Z) (fin : file) :
  lo <= mid <= hi ->
  (length (entries_between idx_bits lo mid fin)
   + length (entries_between idx_bits mid hi fin)
   = length (entries_between idx_bits lo hi fin))%nat.
Proof.
  intros H. unfold entries_between.
  induction fin as [|line rest IH]; simpl; [reflexivity|].
  destruct (is_data_line line); simpl; [|exact IH].
  zbool; simpl; lia.
Qed.

Lemma tiles_le (lo hi : Z) (workers : list rank_info) :
  tiles lo workers hi -> lo <= hi.
Proof.
  revert lo. induction workers as [|r rest IH]; simpl; intros lo H.
  - lia.
  - destruct H as (_ & H1 & H2). apply IH in H2. lia.
Qed.

Lemma tiles_count (lo hi : Z) (workers : list rank_info) (fin : file) :
  tiles lo workers hi ->
  fold_right Z.add 0
    (map (fun r => Z.of_nat (length (layer_lines idx_bits r fin))) workers)
  = Z.of_nat (length (entries_between idx_bits lo hi fin)).
Proof.
  revert lo. induction workers as [|r rest IH]; simpl; intros lo H.
  - subst hi. unfold entries_between.
    induction fin as [|line rest IH]; simpl; [reflexivity|].
    destruct (is_data_line line); simpl; [|exact IH].
    zbool; simpl; try lia; exact IH.
  - destruct H as (Hs & Hle & Ht).
    rewrite (IH _ Ht), layer_lines_between, Hs.
    pose proof (tiles_le _ _ _ Ht).
    rewrite <- (entries_between_split lo (layer_end r) hi fin) by lia. lia.
Qed.

(** X15.  Workers whose layers tile the range [lo .. hi - 1] count,
    between them, every entry of the file with a mode-0 index in that range
    exactly once: [tt_get_layer_dims] returns to each of them a count, and
    the counts add up to the number of those entries. *)
Theorem layers_partition_entries (fin : file) (dims0 : list Z)
    (workers : list rank_info) (lo hi : Z) :
  let nmodes := idx_wrap idx_bits (count_first_line idx_bits fin 0 - 1) in
  1 <= nmodes <= Z.of_nat (length dims0) ->
  Z.of_nat (length fin) < idx_modulus idx_bits ->
  tiles lo workers hi ->
  exists counts,
    Forall2 (fun r nnz => exists nm dims,
                 tt_get_layer_dims idx_bits fin dims0 r = Some (nm, nnz, dims))
            workers counts /\
    fold_right Z.add 0 counts
    = Z.of_nat (length (entries_between idx_bits lo hi fin)).
Proof.
  intros nmodes Hn Hfin Ht.
  exists (map (fun r => Z.of_nat (length (layer_lines idx_bits r fin))) workers).
  split; [|exact (tiles_count lo hi workers fin Ht)].
  clear Ht. induction workers as [|r rest IH]; simpl; constructor; [|exact IH].
  destruct (tt_get_layer_dims_ok idx_bits r fin dims0 Hn Hfin) as (dims & E & _).
  eauto.
Qed.

End Partition.

(** ** [splatt_tucker_als] and [splatt_free_tucker] *)

Lemma modes_from_S (m : Z) (k : nat) :
  modes_from m (S k) = m :: modes_from (m + 1) k.
Proof.
  unfold modes_from. simpl. rewrite <- seq_shift, map_map. f_equal; [lia|].
  apply map_ext. intros i. lia.
Qed.

Section TuckerFacts.

Variable idx_bits : positive.
Variable MAX_NMODES : Z.
Variable sizeof_val_t : Z.
Variable size_bits : positive.
Variable idx_of_double : float -> Z.
Variables SPLATT_OPTION_NTHREADS SPLATT_OPTION_NITER SPLATT_OPTION_VERBOSITY : Z.
Variables SPLATT_VERBOSITY_NONE SPLATT_VERBOSITY_LOW : float.

(** The first loop, from mode [m]. *)
Lemma tucker_fill_modes_spec (k m : nat) (nfactors tdims : list Z) (st : tucker_fill) :
  (m + k <= length nfactors)%nat -> (m + k <= length tdims)%nat ->
  (m + k <= length (tf_rank st))%nat -> (m + k <= length (tf_mats st))%nat ->
  (m + k <= length (tf_factors st))%nat ->
  exists st',
    tucker_fill_modes idx_bits k (Z.of_nat m) nfactors tdims st = Some st' /\
    length (tf_rank st') = length (tf_rank st) /\
    length (tf_mats st') = length (tf_mats st) /\
    length (tf_factors st') = length (tf_factors st) /\
    (forall j, tf_rank st' !! j
               = if (m <=? j)%nat && (j <? m + k)%nat
                 then nfactors !! j else tf_rank st !! j) /\
    (forall j, tf_mats st' !! j
               = if (m <=? j)%nat && (j <? m + k)%nat
                 then Some (Some (Z.of_nat j)) else tf_mats st !! j) /\
    (forall j, tf_factors st' !! j
               = if (m <=? j)%nat && (j <? m + k)%nat
                 then Some (Some (Z.of_nat j)) else tf_factors st !! j) /\
    (is_idx idx_bits (tf_csize st) -> is_idx idx_bits (tf_csize st')) /\
    idx_wrap idx_bits (tf_csize st')
    = idx_wrap idx_bits
        (tf_csize st * fold_right Z.mul 1 (take k (drop m nfactors))) /\
    tf_maxcols st'
    = fold_left SS_MAX (take k (drop m nfactors)) (tf_maxcols st) /\
    tf_log st'
    = tf_log st
      ++ map (fun j => TkMatRand j (idx_at tdims (Z.to_nat j)) (idx_at nfactors (Z.to_nat j)))
             (modes_from (Z.of_nat m) k).
Proof.
  revert m st. induction k as [|k IH]; intros m st H1 H2 H3 H4 H5.
  - exists st. simpl. rewrite app_nil_r, Z.mul_1_r.
    split; [reflexivity|]. split; [reflexivity|]. split; [reflexivity|].
    split; [reflexivity|].
    split; [intros j; nbool; simpl; try reflexivity; lia|].
    split; [intros j; nbool; simpl; try reflexivity; lia|].
    split; [intros j; nbool; simpl; try reflexivity; lia|].
    split; [tauto|]. repeat split.
  - cbn [tucker_fill_modes].
    destruct (lookup_lt_is_Some_2 nfactors m) as [nf Enf]; [lia|].
    destruct (lookup_lt_is_Some_2 tdims m) as [dim Edim]; [lia|].
    unfold load at 1 2. destruct (Z.leb_spec 0 (Z.of_nat m)); [|lia].
    rewrite Nat2Z.id, Enf, Edim.
    rewrite !store_in_range by lia. rewrite Nat2Z.id.
    replace (Z.of_nat m + 1) with (Z.of_nat (S m)) by lia.
    match goal with
    | |- context [tucker_fill_modes _ k _ _ _ ?s] =>
        destruct (IH (S m) s) as (st' & E & L1 & L2 & L3 & R & M & F & I & C & X & G);
          cbn [tf_rank tf_mats tf_factors]; rewrite ?length_insert; try lia
    end.
    exists st'. rewrite E. cbn [tf_rank tf_mats tf_factors tf_csize tf_maxcols tf_log] in *.
    rewrite length_insert in L1. rewrite length_insert in L2.
    rewrite length_insert in L3.
    split; [reflexivity|]. split; [exact L1|]. split; [exact L2|]. split; [exact L3|].
    rewrite (drop_S _ _ _ Enf). cbn [take fold_right fold_left].
    split; [|split; [|split; [|split; [|split; [|split]]]]].
    + intros j. rewrite R. destruct (decide (j = m)) as [->|Hne];
        [rewrite list_lookup_insert_eq by lia | rewrite list_lookup_insert_ne by lia];
        nbool; simpl; try reflexivity; try lia; congruence.
    + intros j. rewrite M. destruct (decide (j = m)) as [->|Hne];
        [rewrite list_lookup_insert_eq by lia | rewrite list_lookup_insert_ne by lia];
        nbool; simpl; try reflexivity; lia.
    + intros j. rewrite F. destruct (decide (j = m)) as [->|Hne];
        [rewrite list_lookup_insert_eq by lia | rewrite list_lookup_insert_ne by lia];
        nbool; simpl; try reflexivity; lia.
    + intros _. apply I, idx_wrap_range.
    + rewrite C, idx_wrap_mul_l. f_equal. lia.
    + exact X.
    + rewrite G, <- app_assoc, modes_from_S. cbn [map app].
      unfold idx_at. rewrite Nat2Z.id, Enf, Edim.
      replace (Z.of_nat m + 1) with (Z.of_nat (S m)) by lia. reflexivity.
Qed.

Lemma modes_from_O (m : Z) : modes_from m 0 = [].
Proof. reflexivity. Qed.

Lemma tucker_ttm_modes_spec (k : nat) (m nthreads : Z) (log : list tucker_event) :
  m + Z.of_nat k <= MAX_NMODES ->
  tucker_ttm_modes MAX_NMODES k m nthreads log
  = Some (log ++ map (fun j => TkTtm j nthreads) (modes_from m k)).
Proof.
  revert m log. induction k as [|k IH]; intros m log H.
  - simpl. rewrite app_nil_r. reflexivity.
  - cbn [tucker_ttm_modes]. destruct (Z.ltb_spec m MAX_NMODES); [|lia].
    rewrite IH by lia. rewrite modes_from_S, <- app_assoc. reflexivity.
Qed.

Lemma tucker_ttm_modes_overrun (k : nat) (m nthreads : Z) (log : list tucker_event) :
  m <= MAX_NMODES < m + Z.of_nat k ->
  tucker_ttm_modes MAX_NMODES k m nthreads log = None.
Proof.
  revert m log. induction k as [|k IH]; intros m log H; [lia|].
  cbn [tucker_ttm_modes]. destruct (Z.ltb_spec m MAX_NMODES); [|reflexivity].
  apply IH. lia.
Qed.

Lemma tucker_mode_times_spec (k : nat) (m : Z) (log : list tucker_event) :
  m + Z.of_nat k <= MAX_NMODES ->
  tucker_mode_times idx_bits MAX_NMODES k m log
  = Some (log ++ map (fun j => TkModeTime (idx_wrap idx_bits (j + 1))) (modes_from m k)).
Proof.
  revert m log. induction k as [|k IH]; intros m log H.
  - simpl. rewrite app_nil_r. reflexivity.
  - cbn [tucker_mode_times]. destruct (Z.ltb_spec m MAX_NMODES); [|lia].
    rewrite IH by lia. rewrite modes_from_S, <- app_assoc. reflexivity.
Qed.

Lemma tucker_iterations_spec (k : nat) (it nmodes nthreads : Z) (options : list float)
    (verbosity fit oldfit : float) (log : list tucker_event) :
  0 <= nmodes <= MAX_NMODES ->
  load options SPLATT_OPTION_VERBOSITY = Some verbosity ->
  tucker_iterations idx_bits MAX_NMODES SPLATT_OPTION_VERBOSITY
    SPLATT_VERBOSITY_NONE SPLATT_VERBOSITY_LOW k it nmodes nthreads options fit oldfit log
  = Some (log ++ concat (map (iteration_log idx_bits SPLATT_VERBOSITY_NONE
                                SPLATT_VERBOSITY_LOW nmodes nthreads verbosity fit oldfit)
                             (modes_from it k))).
Proof.
  intros Hn Hv. unfold iteration_log, modes.
  destruct (PrimFloat.ltb SPLATT_VERBOSITY_NONE verbosity) eqn:E1;
    [destruct (PrimFloat.ltb SPLATT_VERBOSITY_LOW verbosity) eqn:E2|];
    revert it log; (induction k as [|k IH]; intros it log;
                    [simpl; rewrite app_nil_r; reflexivity|]);
    cbn [tucker_iterations]; rewrite tucker_ttm_modes_spec by lia;
    rewrite Hv, E1, ?E2, ?tucker_mode_times_spec by lia;
    rewrite IH, modes_from_S; cbn [map concat];
    rewrite ?app_nil_r, <- ?app_assoc; reflexivity.
Qed.

Lemma tucker_free_mats_spec (k : nat) (m : nat) (mats : list (option Z))
    (log : list tucker_event) :
  (forall j, (m <= j < m + k)%nat -> mats !! j = Some (Some (Z.of_nat j))) ->
  tucker_free_mats k (Z.of_nat m) mats log
  = Some (log ++ map TkFreeMat (modes_from (Z.of_nat m) k)).
Proof.
  revert m log. induction k as [|k IH]; intros m log H.
  - simpl. rewrite app_nil_r. reflexivity.
  - cbn [tucker_free_mats]. unfold load.
    destruct (Z.leb_spec 0 (Z.of_nat m)); [|lia].
    rewrite Nat2Z.id, (H m) by lia.
    replace (Z.of_nat m + 1) with (Z.of_nat (S m)) by lia.
    rewrite IH by (intros j Hj; apply H; lia).
    rewrite modes_from_S, <- app_assoc.
    replace (Z.of_nat m + 1) with (Z.of_nat (S m)) by lia. reflexivity.
Qed.

Lemma tucker_free_factors_spec (k : nat) (m : nat) (factors : list (option Z))
    (log : list tucker_event) :
  (forall j, (m <= j < m + k)%nat -> factors !! j = Some (Some (Z.of_nat j))) ->
  tucker_free_factors k (Z.of_nat m) factors log
  = Some (log ++ map TkFreeFactor (modes_from (Z.of_nat m) k)).
Proof.
  revert m log. induction k as [|k IH]; intros m log H.
  - simpl. rewrite app_nil_r. reflexivity.
  - cbn [tucker_free_factors]. unfold load.
    destruct (Z.leb_spec 0 (Z.of_nat m)); [|lia].
    rewrite Nat2Z.id, (H m) by lia.
    replace (Z.of_nat m + 1) with (Z.of_nat (S m)) by lia.
    rewrite IH by (intros j Hj; apply H; lia).
    rewrite modes_from_S, <- app_assoc.
    replace (Z.of_nat m + 1) with (Z.of_nat (S m)) by lia. reflexivity.
Qed.

(** The whole run of [splatt_tucker_als] on inputs that fit. *)
Lemma splatt_tucker_als_runs (nfactors : list Z) (nmodes : Z) (tdims : list Z)
    (options : list float) (factored : splatt_tucker_t) (mats0 : list (option Z)) :
  tucker_inputs_fit MAX_NMODES SPLATT_OPTION_NTHREADS SPLATT_OPTION_NITER
    SPLATT_OPTION_VERBOSITY nfactors nmodes tdims options factored mats0 ->
  exists o_nthreads o_niters verbosity maxcols f,
    load options SPLATT_OPTION_NTHREADS = Some o_nthreads /\
    load options SPLATT_OPTION_NITER = Some o_niters /\
    load options SPLATT_OPTION_VERBOSITY = Some verbosity /\
    let nthreads := idx_wrap idx_bits (idx_of_double o_nthreads) in
    let niters := idx_wrap idx_bits (idx_of_double o_niters) in
    let csize := idx_wrap idx_bits
                   (fold_right Z.mul 1 (take (Z.to_nat nmodes) nfactors)) in
    splatt_tucker_als idx_bits MAX_NMODES sizeof_val_t size_bits idx_of_double
      SPLATT_OPTION_NTHREADS SPLATT_OPTION_NITER SPLATT_OPTION_VERBOSITY
      SPLATT_VERBOSITY_NONE SPLATT_VERBOSITY_LOW
      nfactors nmodes tdims options factored mats0
    = Some
        (map (fun j => TkMatRand j (idx_at tdims (Z.to_nat j))
                                   (idx_at nfactors (Z.to_nat j))) (modes nmodes)
         ++ [TkCalloc (size_wrap size_bits csize) sizeof_val_t;
             TkMalloc (size_wrap size_bits
                         (mixed_wrap idx_bits size_bits
                            (__max_tensize idx_bits nmodes nfactors tdims * sizeof_val_t)));
             TkOmpSetThreads (to_int nthreads);
             TkThdInit nthreads 1
               (mixed_wrap idx_bits size_bits
                  (mixed_wrap idx_bits size_bits (maxcols * sizeof_val_t) + 64))]
         ++ concat (map (iteration_log idx_bits SPLATT_VERBOSITY_NONE
                           SPLATT_VERBOSITY_LOW nmodes nthreads verbosity 0%float 0%float)
                        (modes niters))
         ++ TkFreeGten :: map TkFreeMat (modes nmodes),
         f) /\
    maxcols = fold_left SS_MAX (take (Z.to_nat nmodes) nfactors) 0 /\
    tk_nmodes f = nmodes /\
    tk_core f = Some (size_wrap size_bits csize) /\
    length (tk_rank f) = length (tk_rank factored) /\
    length (tk_factors f) = length (tk_factors factored) /\
    (forall j, tk_rank f !! j
               = if (j <? Z.to_nat nmodes)%nat then nfactors !! j
                 else tk_rank factored !! j) /\
    (forall j, tk_factors f !! j
               = if (j <? Z.to_nat nmodes)%nat then Some (Some (Z.of_nat j))
                 else tk_factors factored !! j).
Proof.
  intros (Hn & L1 & L2 & L3 & L4 & L5 & [o_t Et] & [o_n En] & [v Ev]).
  destruct (tucker_fill_modes_spec (Z.to_nat nmodes) 0 nfactors tdims
              {| tf_rank := tk_rank factored; tf_factors := tk_factors factored;
                 tf_mats := mats0; tf_csize := 1; tf_maxcols := 0; tf_log := [] |})
    as (st & E & K1 & K2 & K3 & R & M & F & I & C & X & G);
    cbn [tf_rank tf_mats tf_factors]; try lia.
  cbn [tf_rank tf_mats tf_factors tf_csize tf_maxcols tf_log] in *.
  rewrite drop_0 in C, X. rewrite Z.mul_1_l in C.
  rewrite idx_wrap_small in C by (apply I, one_is_idx).
  change (Z.of_nat 0) with 0 in E, G.
  exists o_t, o_n, v, (tf_maxcols st).
  eexists. split; [exact Et|]. split; [exact En|]. split; [exact Ev|].
  cbv zeta. unfold splatt_tucker_als. rewrite Et, E, En.
  rewrite (tucker_iterations_spec _ _ _ _ _ v) by (lia || exact Ev).
  rewrite (tucker_free_mats_spec (Z.to_nat nmodes) 0)
    by (intros j Hj; rewrite M; simpl;
        destruct (Nat.ltb_spec j (Z.to_nat nmodes)); [reflexivity | lia]).
  split.
  - rewrite G, C. unfold modes. simpl app. rewrite <- !app_assoc. reflexivity.
  - cbn [tk_nmodes tk_core tk_rank tk_factors].
    repeat split; try assumption; try reflexivity.
Qed.

Lemma ttm_calls_app (l1 l2 : list tucker_event) :
  ttm_calls (l1 ++ l2) = ttm_calls l1 ++ ttm_calls l2.
Proof.
  induction l1 as [|e l1 IH]; [reflexivity|].
  destruct e; simpl; rewrite IH; reflexivity.
Qed.

Lemma progress_lines_app (l1 l2 : list tucker_event) :
  progress_lines (l1 ++ l2) = progress_lines l1 ++ progress_lines l2.
Proof.
  induction l1 as [|e l1 IH]; [reflexivity|].
  destruct e; simpl; rewrite IH; reflexivity.
Qed.

Lemma ttm_calls_concat {A} (g : A -> list tucker_event) (l : list A) :
  ttm_calls (concat (map g l)) = concat (map (fun a => ttm_calls (g a)) l).
Proof.
  induction l as [|a l IH]; [reflexivity|].
  cbn [map concat]. rewrite ttm_calls_app, IH. reflexivity.
Qed.

Lemma progress_lines_concat {A} (g : A -> list tucker_event) (l : list A) :
  progress_lines (concat (map g l)) = concat (map (fun a => progress_lines (g a)) l).
Proof.
  induction l as [|a l IH]; [reflexivity|].
  cbn [map concat]. rewrite progress_lines_app, IH. reflexivity.
Qed.

(** A list of events of one kind, seen through [ttm_calls] and
    [progress_lines]. *)
Lemma ttm_calls_other {A} (g : A -> tucker_event) (l : list A) :
  (forall a, ttm_calls [g a] = []) -> ttm_calls (map g l) = [].
Proof.
  intros H. induction l as [|a l IH]; [reflexivity|].
  change (map g (a :: l)) with ([g a] ++ map g l).
  rewrite ttm_calls_app, H, IH. reflexivity.
Qed.

Lemma progress_lines_other {A} (g : A -> tucker_event) (l : list A) :
  (forall a, progress_lines [g a] = []) -> progress_lines (map g l) = [].
Proof.
  intros H. induction l as [|a l IH]; [reflexivity|].
  change (map g (a :: l)) with ([g a] ++ map g l).
  rewrite progress_lines_app, H, IH. reflexivity.
Qed.

Lemma ttm_calls_ttm (nthreads : Z) (l : list Z) :
  ttm_calls (map (fun j => TkTtm j nthreads) l) = l.
Proof. induction l as [|a l IH]; [reflexivity|]. simpl. rewrite IH. reflexivity. Qed.

Lemma concat_map_const {A B} (x : list B) (l : list A) :
  concat (map (fun _ => x) l) = concat (replicate (length l) x).
Proof. induction l as [|a l IH]; [reflexivity|]. simpl. rewrite IH. reflexivity. Qed.

Lemma modes_length (n : Z) : length (modes n) = Z.to_nat n.
Proof. unfold modes, modes_from. rewrite length_map, length_seq. reflexivity. Qed.

Ltac tucker_run H :=
  destruct (splatt_tucker_als_runs _ _ _ _ _ _ H)
    as (o_t & o_n & v & maxcols & f & Et & En & Ev & E & Hmax & F1 & F2 & F3 & F4 & F5 & F6);
  cbv zeta in E.

(** X16.  [ttm_splatt] is called once per mode in every iteration, the
    modes in rising order: [niters] rounds over the modes
    [0 .. nmodes - 1], whatever the verbosity. *)
Theorem tucker_als_ttm_schedule (nfactors : list Z) (nmodes : Z) (tdims : list Z)
    (options : list float) (factored : splatt_tucker_t) (mats0 : list (option Z))
    (o_niters : float) :
  tucker_inputs_fit MAX_NMODES SPLATT_OPTION_NTHREADS SPLATT_OPTION_NITER
    SPLATT_OPTION_VERBOSITY nfactors nmodes tdims options factored mats0 ->
  load options SPLATT_OPTION_NITER = Some o_niters ->
  exists log f,
    splatt_tucker_als idx_bits MAX_NMODES sizeof_val_t size_bits idx_of_double
      SPLATT_OPTION_NTHREADS SPLATT_OPTION_NITER SPLATT_OPTION_VERBOSITY
      SPLATT_VERBOSITY_NONE SPLATT_VERBOSITY_LOW
      nfactors nmodes tdims options factored mats0 = Some (log, f) /\
    ttm_calls log
    = concat (replicate (Z.to_nat (idx_wrap idx_bits (idx_of_double o_niters)))
                        (modes nmodes)).
Proof.
  intros H Hn. tucker_run H.
  rewrite Hn in En. inversion En; subst o_n; clear En.
  eexists _, f. split; [exact E|].
  rewrite !ttm_calls_app, ttm_calls_concat.
  rewrite (ttm_calls_other (fun j => TkMatRand _ _ _)) by reflexivity.
  change (ttm_calls (TkFreeGten :: map TkFreeMat (modes nmodes)))
    with (ttm_calls (map TkFreeMat (modes nmodes))).
  rewrite (ttm_calls_other TkFreeMat) by reflexivity.
  cbn [ttm_calls app]. rewrite app_nil_r.
  rewrite (map_ext _ (fun _ => modes nmodes)).
  - rewrite concat_map_const, modes_length. reflexivity.
  - intros it. unfold iteration_log. rewrite ttm_calls_app, ttm_calls_ttm.
    destruct (PrimFloat.ltb SPLATT_VERBOSITY_NONE v); [|apply app_nil_r].
    cbn [ttm_calls].
    destruct (PrimFloat.ltb SPLATT_VERBOSITY_LOW v);
      [rewrite (ttm_calls_other (fun j => TkModeTime _)) by reflexivity|];
      apply app_nil_r.
Qed.

(** X17.  No iteration computes a fit: [fit] and [oldfit] are never
    assigned, so the progress printed, one line per iteration when the
    verbosity is above [SPLATT_VERBOSITY_NONE], reports the fit 0 and the
    change 0 every time. *)
Theorem tucker_als_fit_is_never_computed (nfactors : list Z) (nmodes : Z)
    (tdims : list Z) (options : list float) (factored : splatt_tucker_t)
    (mats0 : list (option Z)) (o_niters verbosity : float) :
  tucker_inputs_fit MAX_NMODES SPLATT_OPTION_NTHREADS SPLATT_OPTION_NITER
    SPLATT_OPTION_VERBOSITY nfactors nmodes tdims options factored mats0 ->
  load options SPLATT_OPTION_NITER = Some o_niters ->
  load options SPLATT_OPTION_VERBOSITY = Some verbosity ->
  exists log f,
    splatt_tucker_als idx_bits MAX_NMODES sizeof_val_t size_bits idx_of_double
      SPLATT_OPTION_NTHREADS SPLATT_OPTION_NITER SPLATT_OPTION_VERBOSITY
      SPLATT_VERBOSITY_NONE SPLATT_VERBOSITY_LOW
      nfactors nmodes tdims options factored mats0 = Some (log, f) /\
    progress_lines log
    = if PrimFloat.ltb SPLATT_VERBOSITY_NONE verbosity
      then map (fun it => (idx_wrap idx_bits (it + 1), 0%float, 0%float))
               (modes (idx_wrap idx_bits (idx_of_double o_niters)))
      else [].
Proof.
  intros H Hn Hv. tucker_run H.
  rewrite Hn in En. inversion En; subst o_n; clear En.
  rewrite Hv in Ev. inversion Ev; subst v; clear Ev.
  eexists _, f. split; [exact E|].
  rewrite !progress_lines_app, progress_lines_concat.
  rewrite (progress_lines_other (fun j => TkMatRand _ _ _)) by reflexivity.
  change (progress_lines (TkFreeGten :: map TkFreeMat (modes nmodes)))
    with (progress_lines (map TkFreeMat (modes nmodes))).
  rewrite (progress_lines_other TkFreeMat) by reflexivity.
  cbn [progress_lines app]. rewrite app_nil_r.
  unfold iteration_log.
  destruct (PrimFloat.ltb SPLATT_VERBOSITY_NONE verbosity).
  - rewrite (map_ext _ (fun it => [(idx_wrap idx_bits (it + 1), 0%float, 0%float)])).
    + generalize (modes (idx_wrap idx_bits (idx_of_double o_niters))).
      intros l. induction l as [|a l IH]; [reflexivity|].
      simpl. rewrite IH. reflexivity.
    + intros it. rewrite progress_lines_app.
      rewrite (progress_lines_other (fun j => TkTtm _ _)) by reflexivity.
      cbn [progress_lines app].
      destruct (PrimFloat.ltb SPLATT_VERBOSITY_LOW verbosity);
        [rewrite (progress_lines_other (fun j => TkModeTime _)) by reflexivity|];
        reflexivity.
  - rewrite (map_ext _ (fun _ => [])).
    + rewrite concat_map_const.
      generalize (length (modes (idx_wrap idx_bits (idx_of_double o_niters)))).
      intros n. induction n as [|n IH]; [reflexivity | exact IH].
    + intros it. rewrite progress_lines_app.
      rewrite (progress_lines_other (fun j => TkTtm _ _)) by reflexivity.
      reflexivity.
Qed.

(** X18.  The storage: [splatt_tucker_als] releases its workspace and the
    [nmodes] matrix handles and nothing else, and [splatt_free_tucker] on
    what it returns stays inside [factors] and releases the core and the
    values of the [nmodes] factors, each once. *)
Theorem tucker_als_then_free_tucker (nfactors : list Z) (nmodes : Z)
    (tdims : list Z) (options : list float) (factored : splatt_tucker_t)
    (mats0 : list (option Z)) :
  tucker_inputs_fit MAX_NMODES SPLATT_OPTION_NTHREADS SPLATT_OPTION_NITER
    SPLATT_OPTION_VERBOSITY nfactors nmodes tdims options factored mats0 ->
  exists log f,
    splatt_tucker_als idx_bits MAX_NMODES sizeof_val_t size_bits idx_of_double
      SPLATT_OPTION_NTHREADS SPLATT_OPTION_NITER SPLATT_OPTION_VERBOSITY
      SPLATT_VERBOSITY_NONE SPLATT_VERBOSITY_LOW
      nfactors nmodes tdims options factored mats0 = Some (log, f) /\
    List.filter is_free log = TkFreeGten :: map TkFreeMat (modes nmodes) /\
    splatt_free_tucker f = Some (TkFreeCore :: map TkFreeFactor (modes nmodes)).
Proof.
  intros H. tucker_run H.
  eexists _, f. split; [exact E|]. split.
  - rewrite !List.filter_app.
    assert (forall (g : Z -> tucker_event) l,
               (forall j, is_free (g j) = false) -> List.filter is_free (map g l) = [])
      as Hnone.
    { intros g l Hg. induction l as [|a l IH]; [reflexivity|].
      simpl. rewrite Hg. exact IH. }
    rewrite Hnone by reflexivity. cbn [List.filter is_free app].
    assert (List.filter is_free
              (concat (map (iteration_log idx_bits SPLATT_VERBOSITY_NONE SPLATT_VERBOSITY_LOW nmodes
                              (idx_wrap idx_bits (idx_of_double o_t)) v 0%float 0%float)
                           (modes (idx_wrap idx_bits (idx_of_double o_n))))) = []) as ->.
    { generalize (modes (idx_wrap idx_bits (idx_of_double o_n))).
      intros l. induction l as [|a l IH]; [reflexivity|].
      cbn [map concat]. rewrite List.filter_app, IH, app_nil_r.
      unfold iteration_log. rewrite List.filter_app, Hnone by reflexivity.
      destruct (PrimFloat.ltb SPLATT_VERBOSITY_NONE v); [|reflexivity].
      cbn [List.filter is_free app].
      destruct (PrimFloat.ltb SPLATT_VERBOSITY_LOW v);
        [apply Hnone; reflexivity | reflexivity]. }
    cbn [app]. f_equal.
    generalize (modes nmodes). intros l. induction l as [|a l IH]; [reflexivity|].
    simpl. rewrite IH. reflexivity.
  - unfold splatt_free_tucker. rewrite F1.
    rewrite (tucker_free_factors_spec (Z.to_nat nmodes) 0).
    + reflexivity.
    + intros j Hj. rewrite F6.
      destruct (Nat.ltb_spec j (Z.to_nat nmodes)); [reflexivity | lia].
Qed.

(** X19.  What [factored] holds on return: [nmodes]; as ranks the
    requested numbers of factors, with the cells past [nmodes] untouched;
    as core what [calloc] returned for the product of the ranks, taken in
    [idx_t].  The workspace asked of [malloc] has [__max_tensize] values. *)
Theorem tucker_als_result (nfactors : list Z) (nmodes : Z)
    (tdims : list Z) (options : list float) (factored : splatt_tucker_t)
    (mats0 : list (option Z)) :
  tucker_inputs_fit MAX_NMODES SPLATT_OPTION_NTHREADS SPLATT_OPTION_NITER
    SPLATT_OPTION_VERBOSITY nfactors nmodes tdims options factored mats0 ->
  exists log f,
    splatt_tucker_als idx_bits MAX_NMODES sizeof_val_t size_bits idx_of_double
      SPLATT_OPTION_NTHREADS SPLATT_OPTION_NITER SPLATT_OPTION_VERBOSITY
      SPLATT_VERBOSITY_NONE SPLATT_VERBOSITY_LOW
      nfactors nmodes tdims options factored mats0 = Some (log, f) /\
    tk_nmodes f = nmodes /\
    (forall j, tk_rank f !! j
               = if (j <? Z.to_nat nmodes)%nat then nfactors !! j
                 else tk_rank factored !! j) /\
    tk_core f
    = Some (size_wrap size_bits
              (idx_wrap idx_bits
                 (fold_right Z.mul 1 (take (Z.to_nat nmodes) nfactors)))) /\
    In (TkMalloc (size_wrap size_bits
                    (mixed_wrap idx_bits size_bits
                       (__max_tensize idx_bits nmodes nfactors tdims * sizeof_val_t))))
       log.
Proof.
  intros H. tucker_run H.
  eexists _, f. split; [exact E|].
  split; [exact F1|]. split; [exact F5|]. split; [exact F2|].
  rewrite !in_app_iff. right. left. simpl. tauto.
Qed.

(** X20.  There is no check of [nmodes] against [MAX_NMODES]: with more
    modes than that and an iteration to run, the function leaves defined
    behaviour whatever the other inputs are, in the first iteration at the
    latest, whose loop over the modes runs past the end of the array
    [modetime]. *)
Theorem tucker_als_too_many_modes (nfactors : list Z) (nmodes : Z)
    (tdims : list Z) (options : list float) (factored : splatt_tucker_t)
    (mats0 : list (option Z)) (o_niters : float) :
  0 <= MAX_NMODES < nmodes ->
  load options SPLATT_OPTION_NITER = Some o_niters ->
  0 < idx_wrap idx_bits (idx_of_double o_niters) ->
  splatt_tucker_als idx_bits MAX_NMODES sizeof_val_t size_bits idx_of_double
    SPLATT_OPTION_NTHREADS SPLATT_OPTION_NITER SPLATT_OPTION_VERBOSITY
    SPLATT_VERBOSITY_NONE SPLATT_VERBOSITY_LOW
    nfactors nmodes tdims options factored mats0 = None.
Proof.
  intros Hn En Hit. unfold splatt_tucker_als.
  destruct (load options SPLATT_OPTION_NTHREADS) as [o_t|]; [|reflexivity].
  destruct (tucker_fill_modes _ _ _ _ _ _) as [st|]; [|reflexivity].
  rewrite En.
  destruct (Z.to_nat (idx_wrap idx_bits (idx_of_double o_niters))) as [|k] eqn:Ek; [lia|].
  cbn [tucker_iterations].
  rewrite tucker_ttm_modes_overrun by lia. reflexivity.
Qed.

End TuckerFacts.

(** * Concrete runs *)

Ltac by_computation :=
  vm_compute; repeat split; solve [reflexivity | discriminate | lia].

(** Three modes of 2^22 rows with 2^21 factors each: every product is 2^64,
    which [idx_t] holds as 0. *)
Lemma max_tensize_overflows :
  let nfactors := [2097152; 2097152; 2097152] in
  let tdims := [4194304; 4194304; 4194304] in
  length nfactors = 3%nat /\ length tdims = 3%nat /\
  Forall (is_idx 64) nfactors /\ Forall (is_idx 64) tdims /\
  __max_tensize 64 3 nfactors tdims = 0 /\
  max_ttm_size 3 nfactors tdims = 2 ^ 64 /\
  __max_tensize 64 3 nfactors tdims <> max_ttm_size 3 nfactors tdims.
Proof.
  cbv zeta. repeat split; try reflexivity; try discriminate.
  - repeat constructor; by_computation.
  - repeat constructor; by_computation.
Qed.

Lemma max_tensize_wrapped_max_witness :
  __max_tensize 64 3 [10; 10; 10] [4; 3; 2] = 400.
Proof.
  destruct (max_tensize_wrapped_max 64 3 [10; 10; 10] [4; 3; 2]) as [_ H];
    [lia | reflexivity | reflexivity |].
  rewrite H; [reflexivity|].
  intros m Hm. change (Z.to_nat 3) with 3%nat in Hm.
  destruct m as [|[|[|m]]]; [by_computation | by_computation | by_computation | lia].
Defined.

(** C1 on two workers that share the sample file, two entries each.  With
    SGD the first worker reports the reduced count, 4; with ALS the reduced
    count is dropped and the report shows what [tc_ws_alloc] left in the
    workspace. *)
Theorem reduced_nnz_reported_for_sgd_only :
  let other := sample_local_nnz 2 4 in
  let total := allreduce_sum 64 [sample_local_nnz 0 2; other] in
  total = 4 /\
  reported_validation_nnz
    (fst (sample_mpi_run 0 0 2 other (sample_calls [(key_a, Some "sgd"%string)])))
  = Some total /\
  reported_validation_nnz
    (fst (sample_mpi_run 0 0 2 other (sample_calls [(key_a, Some "als"%string)])))
  = Some 0 /\
  snd (sample_mpi_run 0 0 2 other (sample_calls [(key_a, Some "als"%string)]))
  = Returned EXIT_SUCCESS.
Proof. by_computation. Qed.

Lemma load_validate_layer_exact_witness :
  exists validate,
    load_validate_layer 64 8 sample_strtod sample_validate sample_dims0
      (sample_layer 1 3) = Loaded validate /\
    tt_nnz validate = 2 /\
    tt_dims validate !! 0%nat = Some 2 /\
    tt_ind validate !! 0%nat = Some [0; 1] /\
    tt_ind validate !! 1%nat = Some [2; 1].
Proof.
  destruct (load_validate_layer_exact 64 8 sample_strtod (sample_layer 1 3)
              sample_validate sample_dims0)
    as [_ (validate & E & _ & Hnnz & Hdim & Hind & _)];
    try by_computation.
  exists validate. split; [exact E|]. split; [exact Hnnz|]. split; [exact Hdim|].
  split; [rewrite (Hind 0%nat) | rewrite (Hind 1%nat)]; by_computation.
Defined.

Lemma overrides_only_when_set_witness :
  let ws := sample_ws_alloc sample_tensor
              (sample_model_alloc sample_tensor 10 SPLATT_TC_SGD) 4 in
  (let args := with_reg 3%float
                 (with_learn_rate 2%float (default_tc_opts 64 4 0 sample_args0)) in
   exists ws',
     override_defaults 3 args ws = Some ws' /\
     ws_learn_rate ws' = 2%float /\
     load (ws_regularization ws') 0 = Some 3%float /\
     load (ws_regularization ws') 2 = Some 3%float /\
     load (ws_regularization ws') 3 = Some 0.25%float /\
     ws_max_its ws' = 500 /\ ws_max_seconds ws' = 1000%float /\
     ws_tolerance ws' = 0.125%float) /\
  (let args := with_learn_rate 2%float (default_tc_opts 64 4 0 sample_args0) in
   exists ws',
     override_defaults 3 args ws = Some ws' /\
     ws_learn_rate ws' = 2%float /\
     load (ws_regularization ws') 0 = Some 0.25%float) /\
  (let args :=
     with_set_timeout true
       (with_max_seconds (sample_atof "3")
          (with_max_its 50 (default_tc_opts 64 4 0 sample_args0))) in
   exists ws',
     override_defaults 3 args ws = Some ws' /\
     ws_max_its ws' = 50 /\ ws_max_seconds ws' = 3%float /\
     ws_learn_rate ws' = 0.5%float /\
     load (ws_regularization ws') 0 = Some 0.25%float /\
     ws_tolerance ws' = 0.125%float).
Proof.
  intros ws.
  assert (forall x : float, PrimFloat.eqb x (-1) = false -> x <> (-1)%float) as Hne.
  { intros x H E. subst x. vm_compute in H. discriminate. }
  split; [|split]; intros args.
  - destruct (override_defaults 3 args ws) as [ws'|] eqn:Eo;
      [|vm_compute in Eo; discriminate].
    destruct (overrides_only_when_set 64 sample_atof sample_strtod 4 0
                sample_overrides sample_args0 [] [] args 3 ws ws')
      as ((_ & Hl & _ & Hr & Hi & Hs & Ht) & _); [reflexivity | exact Eo |].
    exists ws'. split; [reflexivity|].
    rewrite (Hl (Hne (learn_rate args) eq_refl)), !(Hr (Hne (reg args) eq_refl)), Hi, Hs, Ht.
    by_computation.
  - destruct (override_defaults 3 args ws) as [ws'|] eqn:Eo;
      [|vm_compute in Eo; discriminate].
    destruct (overrides_only_when_set 64 sample_atof sample_strtod 4 0
                sample_step_only sample_args0 [] [] args 3 ws ws')
      as ((_ & Hl & Hr & _) & _); [reflexivity | exact Eo |].
    exists ws'. split; [reflexivity|].
    rewrite (Hl (Hne (learn_rate args) eq_refl)), (Hr eq_refl). by_computation.
  - destruct (override_defaults 3 args ws) as [ws'|] eqn:Eo;
      [|vm_compute in Eo; discriminate].
    destruct (overrides_only_when_set 64 sample_atof sample_strtod 4 0
                sample_options sample_args0 [] [] args 3 ws ws')
      as ((Hl & _ & Hr & _ & Hi & Hs & Ht) & _); [reflexivity | exact Eo |].
    exists ws'. split; [reflexivity|].
    rewrite (Hl eq_refl), (Hr eq_refl), Hi, Hs, Ht. by_computation.
Defined.

(** C5 as stated fails on a missing test file: the command returns
    [SPLATT_ERROR_BADINPUT] with the training run behind it. *)
Lemma test_file_checked_after_training :
  sample_tt_read "test.tns" = None /\
  snd (sample_run sample_calls_test) = Returned SPLATT_ERROR_BADINPUT /\
  In (EvTrain SPLATT_TC_SGD) (fst (sample_run sample_calls_test)) /\
  ~ Forall not_training (fst (sample_run sample_calls_test)).
Proof.
  split; [reflexivity|]. split; [reflexivity|].
  assert (In (EvTrain SPLATT_TC_SGD) (fst (sample_run sample_calls_test))) as Hin
    by (vm_compute; tauto).
  split; [exact Hin|].
  intros H. rewrite List.Forall_forall in H. exact (H _ Hin).
Qed.

Lemma bad_input_returns_witness :
  (exists tr,
      sample_run sample_calls_missing = (tr, Returned SPLATT_ERROR_BADINPUT) /\
      Forall not_training tr /\ Forall not_mat_write tr) /\
  (exists tr,
      sample_mpi_run 1 2 4 2 sample_calls_missing
      = (tr, Returned SPLATT_ERROR_BADINPUT) /\
      Forall not_training tr /\ Forall not_mat_write tr) /\
  (exists tr,
      sample_run sample_calls_test = (tr, Returned SPLATT_ERROR_BADINPUT) /\
      In (EvTrain SPLATT_TC_SGD) tr /\ Forall not_mat_write tr) /\
  (exists tr,
      run_tc_cmd 64 8 true sample_atof sample_strtod 4 0 1 2
        (fun mine => allreduce_sum 64 [mine; 2])
        sample_fopen_no_data sample_tt_read (sample_mpi_tt_read 2 4)
        sample_model_alloc sample_ws_alloc
        sample_train sample_train sample_train sample_train sample_train
        sample_train sample_error sample_error
        sample_calls_missing sample_args0 sample_rinfo0 sample_dims0
      = (tr, Fault) /\
      Forall not_training tr /\ Forall not_mat_write tr).
Proof.
  destruct (argp_parse 64 sample_atof sample_strtod sample_calls_missing
              (default_tc_opts 64 4 0 sample_args0) []) as [tr0 [args|e]] eqn:Em;
    [|vm_compute in Em; discriminate].
  pose proof Em as Em'. vm_compute in Em'. inversion Em'; subst tr0 args. clear Em'.
  match type of Em with
  | _ = (_, inl ?a) => set (missing := a) in *
  end.
  destruct (argp_parse 64 sample_atof sample_strtod sample_calls_test
              (default_tc_opts 64 4 0 sample_args0) []) as [tr0 [args|e]] eqn:Ep;
    [|vm_compute in Ep; discriminate].
  pose proof Ep as Ep'. vm_compute in Ep'. inversion Ep'; subst tr0 args. clear Ep'.
  match type of Ep with
  | _ = (_, inl ?a) => set (args := a) in *
  end.
  split; [|split; [|split]].
  - destruct (bad_input_returns 64 8 false sample_atof sample_strtod 4 0 0 1
                (fun mine => mine) sample_fopen sample_tt_read (sample_mpi_tt_read 0 4)
                sample_model_alloc sample_ws_alloc
                sample_train sample_train sample_train sample_train sample_train
                sample_train sample_error sample_error
                sample_calls_missing sample_args0 sample_rinfo0 sample_dims0 []
                missing Em) as [H _].
    apply H.
    apply (whole_file_unreadable 64 8 false sample_strtod sample_fopen sample_tt_read
             (sample_mpi_tt_read 0 4) missing _ sample_dims0
             "missing.tns" "validate.tns");
      [reflexivity | reflexivity | reflexivity | left; reflexivity].
  - destruct (bad_input_returns 64 8 true sample_atof sample_strtod 4 0 1 2
                (fun mine => allreduce_sum 64 [mine; 2])
                sample_fopen sample_tt_read (sample_mpi_tt_read 2 4)
                sample_model_alloc sample_ws_alloc
                sample_train sample_train sample_train sample_train sample_train
                sample_train sample_error sample_error
                sample_calls_missing sample_args0 sample_rinfo0 sample_dims0 []
                missing Em) as [H _].
    apply H.
    apply (train_part_unreadable 64 8 true sample_strtod sample_fopen sample_tt_read
             (sample_mpi_tt_read 2 4) missing _ sample_dims0
             "missing.tns" "validate.tns" sample_validate);
      [reflexivity | reflexivity | reflexivity | reflexivity | reflexivity
      | vm_compute; discriminate].
  - destruct (bad_input_returns 64 8 false sample_atof sample_strtod 4 0 0 1
                (fun mine => mine) sample_fopen sample_tt_read (sample_mpi_tt_read 0 4)
                sample_model_alloc sample_ws_alloc
                sample_train sample_train sample_train sample_train sample_train
                sample_train sample_error sample_error
                sample_calls_test sample_args0 sample_rinfo0 sample_dims0 [] args Ep)
      as (_ & H & _).
    destruct (H sample_tensor sample_tensor
                (with_ri_npes 1 (with_ri_rank 0 sample_rinfo0)) 0
                (sample_ws_alloc sample_tensor
                   (sample_model_alloc sample_tensor 10 SPLATT_TC_SGD) 4)
                "test.tns"%string)
      as (tr & E & Hin & Hnw); try reflexivity.
    exists tr. split; [exact E|]. split; [exact Hin | exact Hnw].
  - destruct (bad_input_returns 64 8 true sample_atof sample_strtod 4 0 1 2
                (fun mine => allreduce_sum 64 [mine; 2])
                sample_fopen_no_data sample_tt_read (sample_mpi_tt_read 2 4)
                sample_model_alloc sample_ws_alloc
                sample_train sample_train sample_train sample_train sample_train
                sample_train sample_error sample_error
                sample_calls_missing sample_args0 sample_rinfo0 sample_dims0 []
                missing Em) as (_ & _ & H).
    apply (H "missing.tns"%string "validate.tns"%string sample_no_data);
      [reflexivity | reflexivity | reflexivity | reflexivity |].
    apply too_many_modes_overruns. by_computation.
Defined.

(** C6 as stated fails for a negative tolerance: with tolerance -1 the
    score 3/2 of the second epoch replaces the best score 1 of the first. *)
Lemma negative_tolerance_raises_best_score :
  let st1 := state_after sample_update sample_rmse (sample_budget (-1) 0) 1 sample_store sample_live in
  let st2 := state_after sample_update sample_rmse (sample_budget (-1) 0) 2 sample_store sample_live in
  ls_best_score st1 = Finite 1 /\ ls_best_epoch st1 = 1%nat /\
  ls_best_score st2 = Finite (3 # 2) /\ ls_best_epoch st2 = 2%nat /\
  ~ score_le (ls_best_score st2) (ls_best_score st1).
Proof.
  cbv zeta. repeat split; try reflexivity.
  vm_compute. intros H. apply H. reflexivity.
Qed.

Lemma best_score_never_worsens_witness :
  let st1 := state_after sample_update sample_rmse (sample_budget (1 # 8) 0) 1 sample_store sample_live in
  let st2 := state_after sample_update sample_rmse (sample_budget (1 # 8) 0) 2 sample_store sample_live in
  score_le (ls_best_score st2) (ls_best_score st1) /\
  ls_best_epoch st2 = ls_best_epoch st1.
Proof.
  cbv zeta.
  destruct (best_score_never_worsens sample_update sample_rmse sample_elapsed
              (sample_budget (1 # 8) 0) sample_store sample_live 1 2)
    as (Hmono & Hkeep & _).
  - by_computation.
  - repeat constructor.
  - split; [apply Hmono; lia|].
    apply Hkeep. vm_compute. intros H. discriminate H.
Defined.

Lemma max_its_bounds_epochs_witness :
  let args := with_max_its 50 (default_tc_opts 64 4 0 sample_args0) in
  let ws := sample_ws_alloc sample_tensor
              (sample_model_alloc sample_tensor 10 SPLATT_TC_SGD) 4 in
  exists ws' st E why,
    override_defaults 3 args ws = Some ws' /\
    train sample_update sample_rmse sample_elapsed
      (sample_budget (-1) (ws_max_its ws')) 50 sample_store sample_live = Some (st, E, why) /\
    Z.of_nat E <= 50.
Proof.
  intros args ws.
  destruct (override_defaults 3 args ws) as [ws'|] eqn:Eo; [|vm_compute in Eo; discriminate].
  destruct (max_its_bounds_epochs sample_update sample_rmse sample_elapsed
              (sample_budget (-1) (ws_max_its ws')) 3 args ws ws' sample_store sample_live 50)
    as (_ & st & E & why & Et & _ & HE);
    [by_computation | exact Eo | reflexivity | by_computation |].
  exists ws', st, E, why. split; [reflexivity|]. split; [exact Et | exact HE].
Defined.

Lemma parse_tc_alg_closed_set_witness :
  parse_tc_alg "ALS" = SPLATT_TC_NALGS /\ parse_tc_alg "als" = SPLATT_TC_ALS.
Proof.
  split.
  - destruct (parse_tc_alg_closed_set "ALS")
      as [[E _]|[[E _]|[[E _]|[[E _]|[[E _]|[[E _]|[[E _]|(_ & H & _)]]]]]]];
      try discriminate E. exact H.
  - destruct (parse_tc_alg_closed_set "als")
      as [[E _]|[[E _]|[[E _]|[[E _]|[[E _]|[[_ H]|[[E _]|(Hn & _)]]]]]]];
      try discriminate E; [exact H|].
    exfalso. apply Hn. simpl. tauto.
Defined.

(** ** Further runs *)

(** The arguments a sample command line is parsed to. *)
Ltac parsed calls Ep :=
  let tr0 := fresh "tr0" in
  let args := fresh "args" in
  let e := fresh "e" in
  destruct (argp_parse 64 sample_atof sample_strtod calls
              (default_tc_opts 64 4 0 sample_args0) []) as [tr0 [args|e]] eqn:Ep;
    [|vm_compute in Ep; discriminate];
  let Ep' := fresh in
  pose proof Ep as Ep'; vm_compute in Ep'; inversion Ep'; subst tr0 args; clear Ep';
  match type of Ep with
  | _ = (_, inl ?a) => set (args := a) in *
  end.

Lemma positional_arguments_witness :
  exists args,
    argp_parse 64 sample_atof sample_strtod sample_files
      (default_tc_opts 64 4 0 sample_args0) [] = ([], inl args) /\
    nfiles args = 3 /\
    ifnames args
    = [Some "train.tns"%string; Some "validate.tns"%string; Some "test.tns"%string] /\
    argp_parse 64 sample_atof sample_strtod
      (sample_files ++ [(ARGP_KEY_ARG, Some "more.tns"%string); (ARGP_KEY_END, None)])
      (default_tc_opts 64 4 0 sample_args0) []
    = ([EvUsage], inr UsageExit).
Proof.
  parsed sample_files Ep.
  destruct (positional_arguments 64 sample_atof sample_strtod 4 0 sample_files
              sample_args0 [] [] args Ep) as (_ & Hn & Hnames & Hmore).
  exists args. split; [reflexivity|]. split; [exact Hn|]. split; [exact Hnames|].
  apply (Hmore eq_refl).
Defined.

Lemma end_of_arguments_needs_two_files_witness :
  argp_parse 64 sample_atof sample_strtod
    [(ARGP_KEY_ARG, Some "train.tns"%string); (ARGP_KEY_END, None)]
    (default_tc_opts 64 4 0 sample_args0) []
  = ([EvUsage], inr UsageExit).
Proof.
  parsed [(ARGP_KEY_ARG, Some "train.tns"%string)] Ep.
  destruct (end_of_arguments_needs_two_files 64 sample_atof sample_strtod 4 0
              [(ARGP_KEY_ARG, Some "train.tns"%string)] sample_args0 [] [] args Ep)
    as [H _].
  apply H. vm_compute. lia.
Defined.

Lemma last_option_wins_witness :
  exists args,
    argp_parse 64 sample_atof sample_strtod sample_repeated
      (default_tc_opts 64 4 0 sample_args0) [] = ([], inl args) /\
    max_its args = 50 /\ seed args = 7 /\ set_seed args = true /\ nfactors args = 10.
Proof.
  parsed sample_repeated Ep.
  destruct (last_option_wins 64 sample_atof sample_strtod 4 0 sample_args0
              sample_repeated [] [] args Ep)
    as (Hi & _ & Hr & _ & _ & _ & Hs & _ & _ & _ & Hss & _).
  exists args. split; [reflexivity|].
  rewrite Hi, Hs, Hss, Hr. by_computation.
Defined.

Lemma explicit_seed_ignores_clock_witness :
  sample_run_at 0 (sample_calls [(TC_SEED, Some "7"%string)])
  = sample_run_at 1000 (sample_calls [(TC_SEED, Some "7"%string)]).
Proof.
  apply explicit_seed_ignores_clock. reflexivity.
Defined.

Lemma non_root_worker_reports_nothing_witness :
  Forall (fun e => ~ root_only e)
    (fst (sample_mpi_run 1 2 4 2 (sample_calls [(key_a, Some "als"%string)]))).
Proof.
  apply non_root_worker_reports_nothing; [reflexivity | discriminate].
Defined.

Lemma whole_file_validation_count_witness :
  reported_validation_nnz (fst (sample_run (sample_calls [(key_a, Some "als"%string)])))
  = Some 2.
Proof.
  parsed (sample_calls [(key_a, Some "als"%string)]) Ep.
  apply (whole_file_validation_count 64 8 false sample_atof sample_strtod 4 0 0 1
           (fun mine => mine) sample_fopen sample_tt_read (sample_mpi_tt_read 0 4)
           sample_model_alloc sample_ws_alloc
           sample_train sample_train sample_train sample_train sample_train
           sample_train sample_error sample_error
           (sample_calls [(key_a, Some "als"%string)]) sample_args0 sample_rinfo0
           sample_dims0 [] args "train.tns"%string "validate.tns"%string
           sample_tensor sample_tensor
           (sample_ws_alloc sample_tensor
              (sample_model_alloc sample_tensor 10 SPLATT_TC_ALS) 4)
           eq_refl Ep); reflexivity.
Defined.

Lemma readable_inputs_train_once_witness :
  exists tr,
    sample_run (sample_calls [(key_a, Some "ccd"%string)]) = (tr, Returned EXIT_SUCCESS) /\
    training_runs tr = [SPLATT_TC_CCD].
Proof.
  parsed (sample_calls [(key_a, Some "ccd"%string)]) Ep.
  apply (readable_inputs_train_once 64 8 false sample_atof sample_strtod 4 0 0 1
           (fun mine => mine) sample_fopen sample_tt_read (sample_mpi_tt_read 0 4)
           sample_model_alloc sample_ws_alloc
           sample_train sample_train sample_train sample_train sample_train
           sample_train sample_error sample_error
           (sample_calls [(key_a, Some "ccd"%string)]) sample_args0 sample_rinfo0
           sample_dims0 [] args sample_tensor sample_tensor
           (with_ri_npes 1 (with_ri_rank 0 sample_rinfo0)) 0
           (sample_ws_alloc sample_tensor
              (sample_model_alloc sample_tensor 10 SPLATT_TC_CCD) 4)
           Ep); [reflexivity | reflexivity | left; reflexivity].
Defined.

Lemma no_data_line_overruns_witness :
  tt_get_layer_dims 64 sample_no_data sample_dims0 (sample_layer 0 2) = None /\
  load_validate_layer 64 8 sample_strtod sample_no_data sample_dims0 (sample_layer 0 2)
  = LoadFault.
Proof.
  destruct (no_data_line_overruns 64 8 sample_strtod (sample_layer 0 2)
              sample_no_data sample_dims0) as (_ & H1 & H2);
    [reflexivity | by_computation |].
  split; assumption.
Defined.

Lemma nmodes_is_fields_less_one_witness :
  exists nnz dims,
    tt_get_layer_dims 64 sample_validate sample_dims0 (sample_layer 0 2)
    = Some (3, nnz, dims).
Proof.
  destruct (nmodes_is_fields_less_one 64 [text_line "# validation entries"]
             (text_line "1 1 1 5")
             [text_line "2 3 1 4"; text_line ""; text_line "3 2 2 3"; "4 1 2 1"%string]
             3 sample_dims0 (sample_layer 0 2)) as [_ H];
    [reflexivity | reflexivity | | by_computation |
     apply H; [vm_compute; lia | by_computation]].
  assert (forall t : string, t <> EmptyString ->
            all_chars (fun c => negb (is_delim c)) t = true -> field t) as Hfield
    by (intros t H1 H2; split; assumption).
  apply (fields_more 3 "" "1" " " (text_line "1 1 5"));
    [reflexivity | apply Hfield; [discriminate | reflexivity] | reflexivity |].
  apply (fields_more 2 "" "1" " " (text_line "1 5"));
    [reflexivity | apply Hfield; [discriminate | reflexivity] | reflexivity |].
  apply (fields_more 1 "" "1" " " (text_line "5"));
    [reflexivity | apply Hfield; [discriminate | reflexivity] | reflexivity |].
  apply (fields_last "" (text_line "5"));
    [reflexivity | apply Hfield; [discriminate | reflexivity]].
Defined.

Lemma loaded_dims_cover_whole_file_witness :
  exists validate,
    load_validate_layer 64 8 sample_strtod sample_validate sample_dims0
      (sample_layer 2 4) = Loaded validate /\
    tt_dims validate !! 0%nat = Some 2 /\
    tt_dims validate !! 1%nat = Some 3 /\
    tt_dims validate !! 2%nat = Some 2.
Proof.
  destruct (loaded_dims_cover_whole_file 64 8 sample_strtod (sample_layer 2 4)
              sample_validate sample_dims0) as (validate & E & Hn & H0 & Hj);
    [by_computation | by_computation | by_computation | by_computation |].
  exists validate. split; [exact E|].
  split; [exact H0|].
  split; [rewrite (Hj 1%nat) | rewrite (Hj 2%nat)];
    try reflexivity; vm_compute; lia.
Defined.

Lemma stored_indices_below_dims_witness :
  exists validate,
    load_validate_layer 64 8 sample_strtod sample_validate sample_dims0
      (sample_layer 0 2) = Loaded validate /\
    forall row k x, tt_ind validate !! 1%nat = Some row -> row !! k = Some x -> x < 3.
Proof.
  destruct (stored_indices_below_dims 64 8 sample_strtod (sample_layer 0 2)
              sample_validate sample_dims0) as (validate & E & H);
    try by_computation.
  exists validate. split; [exact E|].
  intros row k x Hrow Hx.
  destruct (H 1%nat row k x ltac:(vm_compute; lia) Hrow Hx) as (dj & Hd & Hr & Hlt).
  assert (dj = 3) as -> by (vm_compute in E; inversion E; subst validate;
                            vm_compute in Hd; congruence).
  apply Hlt.
  assert (row = [0; 2]) as -> by (vm_compute in E; inversion E; subst validate;
                                  vm_compute in Hrow; congruence).
  destruct k as [|[|k]]; simpl in Hx; inversion Hx; vm_compute; discriminate.
Defined.

Lemma layers_partition_entries_witness :
  exists counts,
    Forall2 (fun r nnz => exists nm dims,
                 tt_get_layer_dims 64 sample_validate sample_dims0 r
                 = Some (nm, nnz, dims))
            [sample_layer 0 2; sample_layer 2 4] counts /\
    fold_right Z.add 0 counts = 4.
Proof.
  destruct (layers_partition_entries 64 sample_validate sample_dims0
              [sample_layer 0 2; sample_layer 2 4] 0 4) as (counts & F & S);
    [by_computation | by_computation | by_computation |].
  exists counts. split; [exact F | rewrite S; reflexivity].
Defined.

(** The sample inputs of [splatt_tucker_als] fit its arrays. *)
Ltac sample_fits :=
  unfold tucker_inputs_fit; repeat split; try by_computation; eexists; reflexivity.

Lemma tucker_als_ttm_schedule_witness :
  exists log f,
    sample_tucker_als 3 = Some (log, f) /\ ttm_calls log = [0; 1; 2; 0; 1; 2].
Proof.
  destruct (tucker_als_ttm_schedule 64 8 8 64 sample_idx_of_double 0 1 2 0%float 1%float
              [2; 3; 4; 5; 6; 7; 8; 9; 10] 3 [4; 3; 2; 2; 2; 2; 2; 2; 2]
              sample_options_tucker sample_factored (replicate 9 None) 2%float
              ltac:(sample_fits) eq_refl) as (log & f & E & H).
  exists log, f. split; [exact E|]. rewrite H. reflexivity.
Defined.

Lemma tucker_als_fit_is_never_computed_witness :
  exists log f,
    sample_tucker_als 3 = Some (log, f) /\
    progress_lines log = [(1, 0%float, 0%float); (2, 0%float, 0%float)].
Proof.
  destruct (tucker_als_fit_is_never_computed 64 8 8 64 sample_idx_of_double 0 1 2
              0%float 1%float
              [2; 3; 4; 5; 6; 7; 8; 9; 10] 3 [4; 3; 2; 2; 2; 2; 2; 2; 2]
              sample_options_tucker sample_factored (replicate 9 None) 2%float 1%float
              ltac:(sample_fits) eq_refl eq_refl) as (log & f & E & H).
  exists log, f. split; [exact E|]. rewrite H. reflexivity.
Defined.

Lemma tucker_als_then_free_tucker_witness :
  exists log f,
    sample_tucker_als 3 = Some (log, f) /\
    List.filter is_free log = [TkFreeGten; TkFreeMat 0; TkFreeMat 1; TkFreeMat 2] /\
    splatt_free_tucker f
    = Some [TkFreeCore; TkFreeFactor 0; TkFreeFactor 1; TkFreeFactor 2].
Proof.
  destruct (tucker_als_then_free_tucker 64 8 8 64 sample_idx_of_double 0 1 2
              0%float 1%float
              [2; 3; 4; 5; 6; 7; 8; 9; 10] 3 [4; 3; 2; 2; 2; 2; 2; 2; 2]
              sample_options_tucker sample_factored (replicate 9 None)
              ltac:(sample_fits)) as (log & f & E & H1 & H2).
  exists log, f. split; [exact E|]. split; [exact H1 | exact H2].
Defined.

Lemma tucker_als_result_witness :
  exists log f,
    sample_tucker_als 3 = Some (log, f) /\
    tk_nmodes f = 3 /\ tk_core f = Some 24 /\
    tk_rank f !! 2%nat = Some 4 /\ tk_rank f !! 3%nat = Some 7 /\
    In (TkMalloc 384) log.
Proof.
  destruct (tucker_als_result 64 8 8 64 sample_idx_of_double 0 1 2
              0%float 1%float
              [2; 3; 4; 5; 6; 7; 8; 9; 10] 3 [4; 3; 2; 2; 2; 2; 2; 2; 2]
              sample_options_tucker sample_factored (replicate 9 None)
              ltac:(sample_fits)) as (log & f & E & Hn & Hr & Hc & Hm).
  exists log, f. split; [exact E|]. split; [exact Hn|]. split; [exact Hc|].
  split; [rewrite Hr; reflexivity|]. split; [rewrite Hr; reflexivity | exact Hm].
Defined.

Lemma tucker_als_too_many_modes_witness : sample_tucker_als 9 = None.
Proof.
  apply (tucker_als_too_many_modes 64 8 8 64 sample_idx_of_double 0 1 2
           0%float 1%float
           [2; 3; 4; 5; 6; 7; 8; 9; 10] 9 [4; 3; 2; 2; 2; 2; 2; 2; 2]
           sample_options_tucker sample_factored (replicate 9 None) 2%float);
    [lia | reflexivity | by_computation].
Defined.
